(** * Sales AI assistant: extraction pipeline, validator, duplicate guard

    A shallow embedding of the core of the repository (ai_crm.py, models.py,
    database.py, memory.py, prompts.py, config.py) and of the library
    routines that code calls (str methods, difflib.SequenceMatcher,
    datetime.strptime, json.loads, the pydantic field checks), followed by
    the properties stated about it.

    Conventions.
    - A Python [str] is a [string] whose characters are the code points
      0 to 255; [lower] and [strip] treat them as [str.lower] and
      [str.strip] do, the accented capitals and the two white spaces above
      127 included.
    - A Python [float] score is a rational of [Q].  [Database] computes the
      scores in exact arithmetic, compared with [Qle]/[Qlt] and equated
      with [==]; [DuplicateScores], further down, computes them as the
      code does, every operation rounded to the nearest binary64 float.
    - [None] is [None] of an [option]; Python truthiness of an optional
      string ([if email:]) is [truthy]. *)

From Stdlib Require Import ZArith QArith Lia List String Ascii Bool Arith DecimalString.
From Stdlib Require Import Sorting.Sorted Sorting.Permutation.
From Stdlib Require Import Lqa.
From stdpp Require Import base option list strings gmap.

Local Open Scope string_scope.
Local Open Scope nat_scope.

(* ===================================================================== *)
(** * Part I: definitions *)
(* ===================================================================== *)

(** ** Python string methods used by the code *)
Module Py.

(** [c.lower()] on one character: the capitals A to Z, and U+00C0 to
    U+00DE but for the multiplication sign U+00D7, are moved 32 up. *)
Definition lower_char (c : ascii) : ascii :=
  let n := nat_of_ascii c in
  if ((65 <=? n) && (n <=? 90))
     || ((192 <=? n) && (n <=? 222) && negb (n =? 215))
  then ascii_of_nat (n + 32) else c.

(** [s.lower()]. *)
Fixpoint lower (s : string) : string :=
  match s with
  | EmptyString => EmptyString
  | String c s' => String (lower_char c) (lower s')
  end.

(** [c.isspace()]: tab, line feed, vertical tab, form feed, carriage
    return, the four separators 0x1c-0x1f, the space, next line U+0085 and
    the no-break space U+00A0. *)
Definition isspace (c : ascii) : bool :=
  let n := nat_of_ascii c in
  ((9 <=? n) && (n <=? 13)) || ((28 <=? n) && (n <=? 31)) || (n =? 32)
  || (n =? 133) || (n =? 160).

(** [s.lstrip()]. *)
Fixpoint lstrip (s : string) : string :=
  match s with
  | EmptyString => EmptyString
  | String c s' => if isspace c then lstrip s' else s
  end.

(** [s.rstrip()]: a character is dropped when it is white space and all
    that follows it has been dropped. *)
Fixpoint rstrip (s : string) : string :=
  match s with
  | EmptyString => EmptyString
  | String c s' =>
      match rstrip s' with
      | EmptyString => if isspace c then EmptyString else String c EmptyString
      | r => String c r
      end
  end.

(** [s.strip()]. *)
Definition strip (s : string) : string := rstrip (lstrip s).

(** Truthiness of a string and of an optional string: [None] and the empty
    string are false. *)
Definition nonempty (s : string) : bool :=
  match s with EmptyString => false | _ => true end.

Definition truthy (o : option string) : bool :=
  match o with Some s => nonempty s | None => false end.

(** [s[n:]]. *)
Fixpoint drop_str (n : nat) (s : string) : string :=
  match n, s with
  | 0, _ => s
  | S n', String _ s' => drop_str n' s'
  | S _, EmptyString => EmptyString
  end.

(** [sep in s], for a non-empty [sep]. *)
Fixpoint contains (sep s : string) : bool :=
  if String.prefix sep s then true
  else match s with
       | EmptyString => false
       | String _ s' => contains sep s'
       end.

(** [s.split(sep)] for a non-empty [sep]: the text is scanned from the left;
    [skip] counts the characters of a separator just found that are still to
    be passed over, [cur] is the piece being built. *)
Fixpoint split_go (sep s : string) (skip : nat) (cur : string) : list string :=
  match s with
  | EmptyString => [cur]
  | String c s' =>
      match skip with
      | S k => split_go sep s' k cur
      | 0 =>
          if String.prefix sep s
          then cur :: split_go sep s' (String.length sep - 1) EmptyString
          else split_go sep s' 0 (cur ++ String c EmptyString)
      end
  end.

Definition split (sep s : string) : list string := split_go sep s 0 EmptyString.

(** [l[n]] on a list of strings; the code indexes only where the index
    exists, the default is never returned there. *)
Definition item (n : nat) (l : list string) : string := nth n l EmptyString.

(** Decimal text of a natural number, [str(n)]. *)
Definition str_of_nat (n : nat) : string :=
  DecimalString.NilZero.string_of_uint (Nat.to_uint n).

End Py.

(** ** difflib.SequenceMatcher(None, a, b): no junk predicate, autojunk on *)
Module Difflib.

Definition Match : Type := nat * nat * nat.

Definition size (m : Match) : nat := snd m.

Section SequenceMatcher.
Variables a b : list ascii.

(** [__chain_b]: [b2j] maps a character of [b] to the increasing list of
    its positions; when [b] has 200 characters or more, a character that
    occurs more than [len(b) // 100 + 1] times is popular and loses its
    entry.  [b2j c] is [b2j.get(c, [])]. *)
Fixpoint indices_from (c : ascii) (l : list ascii) (j : nat) : list nat :=
  match l with
  | [] => []
  | x :: l' =>
      if Ascii.eqb x c then j :: indices_from c l' (S j)
      else indices_from c l' (S j)
  end.

Definition popular (c : ascii) : bool :=
  (200 <=? length b) && (length b / 100 + 1 <? length (indices_from c b 0)).

Definition b2j (c : ascii) : list nat :=
  if popular c then [] else indices_from c b 0.

(** No junk predicate was given: [bjunk] is the empty set. *)
Definition isbjunk (c : ascii) : bool := false.

(** [x == y] on two elements read from the sequences. *)
Definition elt_eqb (x y : option ascii) : bool :=
  match x, y with
  | Some c, Some d => Ascii.eqb c d
  | _, _ => false
  end.

(** [j2len.get(j-1, 0)]; for [j = 0] the key [-1] is never present. *)
Definition j2len_get (j2len : gmap nat nat) (j : nat) : nat :=
  match j with
  | 0 => 0
  | S j' => default 0 (j2len !! j')
  end.

(** The inner loop of [find_longest_match] over the positions [js] of
    [a[i]] in [b]: [continue] below [blo], [break] from [bhi] on. *)
Fixpoint scan_row (i blo bhi : nat) (j2len : gmap nat nat) (js : list nat)
    (newj2len : gmap nat nat) (best : Match) : gmap nat nat * Match :=
  match js with
  | [] => (newj2len, best)
  | j :: js' =>
      if j <? blo then scan_row i blo bhi j2len js' newj2len best
      else if bhi <=? j then (newj2len, best)
      else
        let k := j2len_get j2len j + 1 in
        let best' := if size best <? k then (i + 1 - k, j + 1 - k, k) else best in
        scan_row i blo bhi j2len js' (<[j := k]> newj2len) best'
  end.

Definition row_of (i : nat) : list nat :=
  match a !! i with Some c => b2j c | None => [] end.

(** The outer loop, [for i in range(alo, ahi)]. *)
Fixpoint scan_rows (rows : list nat) (blo bhi : nat) (j2len : gmap nat nat)
    (best : Match) : Match :=
  match rows with
  | [] => best
  | i :: rows' =>
      let '(newj2len, best') := scan_row i blo bhi j2len (row_of i) ∅ best in
      scan_rows rows' blo bhi newj2len best'
  end.

(** The [while] loops that grow the block at its two ends; [junk] tells
    whether the loop wants junk ([isbjunk(..)]) or not ([not isbjunk(..)]).
    The fuel is the room left in [a]. *)
Fixpoint extend_back (fuel : nat) (junk : bool) (alo blo : nat) (m : Match) : Match :=
  match fuel with
  | 0 => m
  | S fuel' =>
      let '(besti, bestj, bestsize) := m in
      if (alo <? besti) && (blo <? bestj)
         && Bool.eqb (from_option isbjunk false (b !! (bestj - 1))) junk
         && elt_eqb (a !! (besti - 1)) (b !! (bestj - 1))
      then extend_back fuel' junk alo blo (besti - 1, bestj - 1, bestsize + 1)
      else m
  end.

Fixpoint extend_fwd (fuel : nat) (junk : bool) (ahi bhi : nat) (m : Match) : Match :=
  match fuel with
  | 0 => m
  | S fuel' =>
      let '(besti, bestj, bestsize) := m in
      if (besti + bestsize <? ahi) && (bestj + bestsize <? bhi)
         && Bool.eqb (from_option isbjunk false (b !! (bestj + bestsize))) junk
         && elt_eqb (a !! (besti + bestsize)) (b !! (bestj + bestsize))
      then extend_fwd fuel' junk ahi bhi (besti, bestj, bestsize + 1)
      else m
  end.

Definition find_longest_match (alo ahi blo bhi : nat) : Match :=
  let m0 := scan_rows (seq alo (ahi - alo)) blo bhi ∅ (alo, blo, 0) in
  let m1 := extend_back (fst (fst m0) - alo) false alo blo m0 in
  let m2 := extend_fwd (ahi - (fst (fst m1) + size m1)) false ahi bhi m1 in
  let m3 := extend_back (fst (fst m2) - alo) true alo blo m2 in
  extend_fwd (ahi - (fst (fst m3) + size m3)) true ahi bhi m3.

(** The work list of [get_matching_blocks]; the Python list used as a
    stack is kept with its last element first, so [pop()] takes the head
    and [append] conses. *)
Definition Range : Type := nat * nat * nat * nat.

Fixpoint blocks_loop (fuel : nat) (queue : list Range) (matching_blocks : list Match)
    : list Match :=
  match fuel with
  | 0 => matching_blocks
  | S fuel' =>
      match queue with
      | [] => matching_blocks
      | (alo, ahi, blo, bhi) :: queue' =>
          let '(i, j, k) := find_longest_match alo ahi blo bhi in
          if k =? 0 then blocks_loop fuel' queue' matching_blocks
          else
            let q1 := if (alo <? i) && (blo <? j)
                      then (alo, i, blo, j) :: queue' else queue' in
            let q2 := if (i + k <? ahi) && (j + k <? bhi)
                      then (i + k, ahi, j + k, bhi) :: q1 else q1 in
            blocks_loop fuel' q2 (matching_blocks ++ [(i, j, k)])
      end
  end.

(** Tuple order of [matching_blocks.sort()]. *)
Definition match_leb (x y : Match) : bool :=
  let '(i1, j1, k1) := x in
  let '(i2, j2, k2) := y in
  (i1 <? i2) || ((i1 =? i2) && ((j1 <? j2) || ((j1 =? j2) && (k1 <=? k2)))).

Fixpoint insert_match (x : Match) (l : list Match) : list Match :=
  match l with
  | [] => [x]
  | y :: l' => if match_leb x y then x :: l else y :: insert_match x l'
  end.

Fixpoint sort_matches (l : list Match) : list Match :=
  match l with
  | [] => []
  | x :: l' => insert_match x (sort_matches l')
  end.

(** Adjacent blocks are merged; [cur] is [(i1, j1, k1)]. *)
Fixpoint collapse (cur : Match) (l : list Match) : list Match :=
  let '(i1, j1, k1) := cur in
  match l with
  | [] => if k1 =? 0 then [] else [cur]
  | (i2, j2, k2) :: l' =>
      if (i1 + k1 =? i2) && (j1 + k1 =? j2) then collapse (i1, j1, k1 + k2) l'
      else (if k1 =? 0 then [] else [cur]) ++ collapse (i2, j2, k2) l'
  end.

Definition get_matching_blocks : list Match :=
  let la := length a in
  let lb := length b in
  let found := blocks_loop (2 * la + 1) [(0, la, 0, lb)] [] in
  collapse (0, 0, 0) (sort_matches found) ++ [(la, lb, 0)].

(** [sum(triple[-1] for triple in self.get_matching_blocks())]. *)
Definition matches : nat := list_sum (map size get_matching_blocks).

(** [_calculate_ratio(matches, length)]. *)
Definition ratio : Q :=
  let length := length a + length b in
  if length =? 0 then 1%Q
  else (2 * inject_Z (Z.of_nat matches) / inject_Z (Z.of_nat length))%Q.

End SequenceMatcher.

End Difflib.

(** ** config.py *)
Module Config.

(** Duplicate detection threshold (0-100). *)
Definition DUPLICATE_SIMILARITY_THRESHOLD : Q := 85.

End Config.

(** ** database.py *)
Module Database.

(** SQLite keeps [CURRENT_TIMESTAMP] as the text [YYYY-MM-DD HH:MM:SS];
    [ORDER BY] on such a column compares the texts. *)
Definition Timestamp : Type := string.

(** A row of the [clients] table; [is_active] is [Some true] for 1,
    [Some false] for 0 and [None] for NULL. *)
Record ClientRow : Type := mkClientRow {
  row_id : nat;
  row_name : string;
  row_company : option string;
  row_email : option string;
  row_created_at : Timestamp;
  row_is_active : option bool
}.

(** A row of the [interactions] table. *)
Record InteractionRow : Type := mkInteractionRow {
  int_id : nat;
  int_client_id : nat;
  int_date : Timestamp;
  int_raw_text : string;
  int_summary : string;
  int_deal_stage : string;
  int_objections : option string;
  int_interest_level : string;
  int_next_action : string;
  int_followup_date : option string
}.

(** The database file: the two tables in rowid order and the AUTOINCREMENT
    counter of [clients] (the largest id handed out so far). *)
Record Store : Type := mkStore {
  clients : list ClientRow;
  clients_seq : nat;
  interactions : list InteractionRow
}.

(** models.ClientCreate and models.Client. *)
Record ClientCreate : Type := mkClientCreate {
  cc_name : string;
  cc_company : option string;
  cc_email : option string
}.

Record Client : Type := mkClient {
  id : nat;
  name : string;
  company : option string;
  email : option string;
  created_at : Timestamp
}.

(** The [Client] with the fields of [dict(row)]: the extra column
    [is_active] is ignored. *)
Definition Client_of_row (row : ClientRow) : Client :=
  mkClient (row_id row) (row_name row) (row_company row) (row_email row)
           (row_created_at row).

(** The failure of a field check when a model is built. *)
Inductive ValidationError : Type :=
| too_short (model field : string) (limit : nat)
| too_long (model field : string) (limit : nat).

Definition max_length (model field : string) (limit : nat) (v : option string)
    : list ValidationError :=
  match v with
  | Some s => if limit <? String.length s then [too_long model field limit] else []
  | None => []
  end.

(** [Client(..)] with the field checks of ClientBase: the name has 1 to 100
    characters, company and email at most 100; the first failure in the
    order of the fields is the one kept here. *)
Definition Client_init (id : nat) (name : string) (company email : option string)
    (created_at : Timestamp) : ValidationError + Client :=
  match (if String.length name <? 1 then [too_short "Client" "name" 1] else [])
        ++ max_length "Client" "name" 100 (Some name)
        ++ max_length "Client" "company" 100 company
        ++ max_length "Client" "email" 100 email with
  | [] => inr (mkClient id name company email created_at)
  | e :: _ => inl e
  end%list.

(** [Client(.. dict(row))]. *)
Definition Client_of (row : ClientRow) : ValidationError + Client :=
  Client_init (row_id row) (row_name row) (row_company row) (row_email row)
              (row_created_at row).

(** What [_get_connection] makes of an exception raised inside its [with]
    block: the transaction is rolled back and DatabaseError is raised.  The
    message is ["Database error: "] and the text of the cause; the cause is
    kept here as a value. *)
Inductive Failure : Type :=
| Database_error_validation (cause : ValidationError)
| Database_error_integrity (constraint : string)
| Database_error_type (what : string).

(** A list comprehension that builds one model per row: the first failure
    is raised. *)
Fixpoint build_all {A B : Type} (build : A -> ValidationError + B) (rows : list A)
    : ValidationError + list B :=
  match rows with
  | [] => inr []
  | row :: rows' =>
      match build row with
      | inl e => inl e
      | inr x =>
          match build_all build rows' with
          | inl e => inl e
          | inr xs => inr (x :: xs)
          end
      end
  end.

(** The [scores] dict built for one row; [email_similarity] is a key only
    on the [elif] path. *)
Record Scores : Type := mkScores {
  s_id : nat;
  s_name : string;
  s_company : option string;
  s_email : option string;
  name_similarity : Q;
  email_match : bool;
  company_similarity : Q;
  total_score : Q;
  email_similarity : option Q
}.

Inductive DbError : Type :=
| DatabaseError (message : string)
| DuplicateClientError (message : string) (duplicates : list Scores).

(** [_calculate_similarity]. *)
Definition _calculate_similarity (str1 str2 : option string) : Q :=
  match str1, str2 with
  | Some s1, Some s2 =>
      if negb (Py.nonempty s1) || negb (Py.nonempty s2) then 0%Q
      else (Difflib.ratio (list_ascii_of_string (Py.lower s1))
                          (list_ascii_of_string (Py.lower s2)) * 100)%Q
  | _, _ => 0%Q
  end.

(** SQL [is_active = 1 OR is_active IS NULL]. *)
Definition active (row : ClientRow) : bool :=
  match row_is_active row with
  | Some false => false
  | _ => true
  end.

(** The body of the [for row in rows] loop up to the threshold test. *)
Definition score_row (name : string) (email company : option string)
    (row : ClientRow) : Scores :=
  let name_sim := _calculate_similarity (Some name) (Some (row_name row)) in
  let both_emails := Py.truthy email && Py.truthy (row_email row) in
  let matched :=
    both_emails &&
    match email, row_email row with
    | Some e, Some e' => String.eqb (Py.lower e) (Py.lower e')
    | _, _ => false
    end in
  let email_sim :=
    if matched then None
    else if both_emails then Some (_calculate_similarity email (row_email row))
    else None in
  let company_sim :=
    if Py.truthy company && Py.truthy (row_company row)
    then _calculate_similarity company (row_company row) else 0%Q in
  let total :=
    if matched then 100%Q else (name_sim * 0.7 + company_sim * 0.3)%Q in
  mkScores (row_id row) (row_name row) (row_company row) (row_email row)
           name_sim matched company_sim total email_sim.

(** [total_score >= DUPLICATE_SIMILARITY_THRESHOLD or email_match]. *)
Definition over_threshold (s : Scores) : bool :=
  Qle_bool Config.DUPLICATE_SIMILARITY_THRESHOLD (total_score s) || email_match s.

Fixpoint scan_clients (name : string) (email company : option string)
    (rows : list ClientRow) : list Scores :=
  match rows with
  | [] => []
  | row :: rows' =>
      if negb (active row) then scan_clients name email company rows'
      else
        let scores := score_row name email company row in
        if over_threshold scores
        then scores :: scan_clients name email company rows'
        else scan_clients name email company rows'
  end.

(** [sorted(duplicates, key=lambda x: x['total_score'], reverse=True)]:
    a stable sort, larger scores first, equal scores in their old order. *)
Fixpoint insert_desc (x : Scores) (l : list Scores) : list Scores :=
  match l with
  | [] => [x]
  | y :: l' =>
      if Qle_bool (total_score y) (total_score x) then x :: l
      else y :: insert_desc x l'
  end.

Fixpoint sorted_desc (l : list Scores) : list Scores :=
  match l with
  | [] => []
  | x :: l' => insert_desc x (sorted_desc l')
  end.

Definition find_potential_duplicates (st : Store) (name : string)
    (email company : option string) : list Scores :=
  sorted_desc (scan_clients name email company (List.filter active (clients st))).

(** [INSERT INTO clients (name, company, email, is_active) VALUES (?, ?, ?, 1)]
    at clock reading [now]. *)
Definition insert_client (client : ClientCreate) (now : Timestamp) (st : Store)
    : ClientRow * Store :=
  let client_id := S (clients_seq st) in
  let row := mkClientRow client_id (cc_name client) (cc_company client)
                         (cc_email client) now (Some true) in
  (row, mkStore (clients st ++ [row]) client_id (interactions st)).

(** [SELECT * FROM clients WHERE id = ?] then [fetchone()]. *)
Definition select_by_id (client_id : nat) (rows : list ClientRow) : option ClientRow :=
  List.find (fun row => row_id row =? client_id) rows.

(** The [with] block of [create_client]: the insert, then the row read back
    by its id.  Were no row read back, the block would fail, roll the insert
    back and raise DatabaseError.  The row holds the fields of the
    ClientCreate, which passed the field checks of ClientBase when it was
    built, so the Client of the row is built without a failure. *)
Definition insert_and_fetch (client : ClientCreate) (now : Timestamp) (st : Store)
    : (DbError + Client) * Store :=
  let '(row, st') := insert_client client now st in
  match select_by_id (row_id row) (clients st') with
  | Some r => (inr (Client_of_row r), st')
  | None => (inl (DatabaseError "Database error"), st)
  end.

Definition create_client (client : ClientCreate) (force : bool) (now : Timestamp)
    (st : Store) : (DbError + Client) * Store :=
  if negb force then
    let duplicates := find_potential_duplicates st (cc_name client) (cc_email client)
                                                (cc_company client) in
    match duplicates with
    | _ :: _ =>
        (inl (DuplicateClientError
                ("Found " ++ Py.str_of_nat (length duplicates)
                 ++ " potential duplicate(s)")
                duplicates), st)
    | [] => insert_and_fetch client now st
    end
  else insert_and_fetch client now st.

(** [Database.get_client].  The Client is built inside the [with] block,
    with its field checks: a row that fails one, as a row can after
    [update_client] has written its name, makes the call raise
    DatabaseError. *)
Definition get_client (st : Store) (client_id : nat) : Failure + option Client :=
  match List.find (fun row => (row_id row =? client_id) && active row) (clients st) with
  | Some row =>
      match Client_of row with
      | inl e => inl (Database_error_validation e)
      | inr c => inr (Some c)
      end
  | None => inr None
  end.

(** [ORDER BY created_at DESC]. *)
Fixpoint insert_newest (x : ClientRow) (l : list ClientRow) : list ClientRow :=
  match l with
  | [] => [x]
  | y :: l' =>
      if String.leb (row_created_at y) (row_created_at x) then x :: l
      else y :: insert_newest x l'
  end.

Fixpoint order_by_created_desc (l : list ClientRow) : list ClientRow :=
  match l with
  | [] => []
  | x :: l' => insert_newest x (order_by_created_desc l')
  end.

(** [Database.get_all_clients]: one Client per row, each with its field
    checks; the first failure leaves the [with] block as a DatabaseError. *)
Definition get_all_clients (st : Store) (include_inactive : bool)
    : Failure + list Client :=
  let rows := if negb include_inactive then List.filter active (clients st)
              else clients st in
  match build_all Client_of (order_by_created_desc rows) with
  | inl e => inl (Database_error_validation e)
  | inr found => inr found
  end.

Definition set_active (flag : bool) (client_id : nat) (row : ClientRow) : ClientRow :=
  if row_id row =? client_id
  then mkClientRow (row_id row) (row_name row) (row_company row) (row_email row)
                   (row_created_at row) (Some flag)
  else row.

(** [cursor.rowcount > 0] for a statement with [WHERE id = ?]. *)
Definition touched (client_id : nat) (rows : list ClientRow) : bool :=
  existsb (fun row => row_id row =? client_id) rows.

(** [delete_client]; the hard delete removes the client row, the other
    tables are left to SQLite's foreign keys. *)
Definition delete_client (client_id : nat) (soft_delete : bool) (st : Store)
    : bool * Store :=
  if soft_delete
  then (touched client_id (clients st),
        mkStore (map (set_active false client_id) (clients st))
                (clients_seq st) (interactions st))
  else (touched client_id (clients st),
        mkStore (List.filter (fun row => negb (row_id row =? client_id)) (clients st))
                (clients_seq st) (interactions st)).

Definition restore_client (client_id : nat) (st : Store) : bool * Store :=
  (touched client_id (clients st),
   mkStore (map (set_active true client_id) (clients st))
           (clients_seq st) (interactions st)).

(** [ORDER BY date DESC] on interactions. *)
Fixpoint insert_latest (x : InteractionRow) (l : list InteractionRow)
    : list InteractionRow :=
  match l with
  | [] => [x]
  | y :: l' =>
      if String.leb (int_date y) (int_date x) then x :: l
      else y :: insert_latest x l'
  end.

Fixpoint order_by_date_desc (l : list InteractionRow) : list InteractionRow :=
  match l with
  | [] => []
  | x :: l' => insert_latest x (order_by_date_desc l')
  end.

(** [Database.get_client_interactions].  The raw text of a stored
    interaction is the one of an InteractionCreate, checked when that was
    built, and no statement of the code changes it: the Interaction of a
    row is the row. *)
Definition get_client_interactions (st : Store) (client_id : nat)
    : list InteractionRow :=
  order_by_date_desc
    (List.filter (fun r => int_client_id r =? client_id) (interactions st)).

End Database.

(** ** memory.py and models.ClientHistory *)
Module Memory.
Import Database.

Record ClientHistory : Type := mkClientHistory {
  h_client : Client;
  h_interactions : list InteractionRow;
  h_total_interactions : nat;
  h_last_contact : option Timestamp
}.

(** [dt.strftime('%Y-%m-%d')] of a stored timestamp: its date part. *)
Definition strftime_ymd (t : Timestamp) : string := String.substring 0 10 t.

(** [l[:n]] and [l[-3:]] with Python's reading of a negative bound. *)
Definition slice_to {A : Type} (n : Z) (l : list A) : list A :=
  if (0 <=? n)%Z then firstn (Z.to_nat n) l
  else firstn (length l - Z.to_nat (- n)) l.

Definition last_three {A : Type} (l : list A) : list A := skipn (length l - 3) l.

Definition nl : string := String (ascii_of_nat 10) EmptyString.

(** The lines appended for one interaction of [enumerate(.., 1)]. *)
Definition interaction_lines (idx : nat) (inter : InteractionRow) : list string :=
  [nl ++ Py.str_of_nat idx ++ ". " ++ strftime_ymd (int_date inter) ++ " - "
      ++ int_deal_stage inter;
   "   Summary: " ++ int_summary inter]
  ++ (if Py.truthy (int_objections inter)
      then ["   Objections: " ++ default EmptyString (int_objections inter)]
      else []).

Fixpoint enumerate_lines (idx : nat) (l : list InteractionRow) : list string :=
  match l with
  | [] => []
  | inter :: l' => interaction_lines idx inter ++ enumerate_lines (S idx) l'
  end.

(** [ClientHistory.to_context_string]. *)
Definition to_context_string (h : ClientHistory) : string :=
  String.concat nl
    (["Client: " ++ name (h_client h) ++ " ("
        ++ (if Py.truthy (company (h_client h))
            then default EmptyString (company (h_client h))
            else "No company") ++ ")";
      "Total interactions: " ++ Py.str_of_nat (h_total_interactions h);
      "Last contact: " ++ match h_last_contact h with
                          | Some t => strftime_ymd t
                          | None => "Never"
                          end;
      nl ++ "Recent History:"]
     ++ enumerate_lines 1 (last_three (h_interactions h))).

(** What [get_client_history] can raise: its own ValueError, and the
    DatabaseError of [get_client]. *)
Inductive MemError : Type :=
| ValueError (message : string)
| Database_error (failure : Failure).

Definition get_client_history (st : Store) (client_id : nat)
    : MemError + ClientHistory :=
  match get_client st client_id with
  | inl failure => inl (Database_error failure)
  | inr None => inl (ValueError ("Client " ++ Py.str_of_nat client_id ++ " not found"))
  | inr (Some client) =>
      let interactions := get_client_interactions st client_id in
      let total := length interactions in
      let last_contact := match interactions with
                          | i0 :: _ => Some (int_date i0)
                          | [] => None
                          end in
      inr (mkClientHistory client interactions total last_contact)
  end.

Definition no_history : string := "New client - no previous history.".

(** [MemoryManager.get_context_for_ai]: [except ValueError] catches the
    error for a client that is not found; a DatabaseError is no ValueError
    and passes through. *)
Definition get_context_for_ai (st : Store) (client_id : nat) (max_interactions : Z)
    : Failure + string :=
  match get_client_history st client_id with
  | inr history =>
      let recent := slice_to max_interactions (h_interactions history) in
      inr (to_context_string
             (mkClientHistory (h_client history) recent (length recent)
                              (h_last_contact history)))
  | inl (ValueError _) => inr no_history
  | inl (Database_error failure) => inl failure
  end.

End Memory.

(** ** json.loads: the values it builds, and a reader

    The reader follows json.loads on texts whose strings stay within the
    characters of the model and that hold no float: an escape above U+00FF
    has no character here and is refused, and a float is kept as the text
    it was read from.  The properties of the validator are stated for any
    reader; this one reads the examples. *)
Module Json.

(** Python values built by [json.loads].  A float is kept as the text it
    was read from; an object is a dict, so each key is bound once. *)
#[warning="-register-all"]
Inductive json : Type :=
| JNull
| JBool (b : bool)
| JInt (z : Z)
| JFloat (text : string)
| JStr (s : string)
| JArr (l : list json)
| JObj (d : gmap string json).

(** [json.JSONDecodeError]: the message and the offset it points at. *)
Record JSONDecodeError : Type := mkJSONDecodeError {
  msg : string;
  pos : nat
}.

Definition Parse (A : Type) : Type := JSONDecodeError + A.

Definition fail {A : Type} (m : string) (p : nat) : Parse A :=
  inl (mkJSONDecodeError m p).

Definition is_ws (c : ascii) : bool :=
  let n := nat_of_ascii c in (n =? 32) || (n =? 9) || (n =? 10) || (n =? 13).

Definition is_digit (c : ascii) : bool :=
  let n := nat_of_ascii c in (48 <=? n) && (n <=? 57).

Definition digit_val (c : ascii) : Z := Z.of_nat (nat_of_ascii c - 48).

(** [WHITESPACE.match(s, end).end()]: the text left and the new offset. *)
Fixpoint skip_ws (s : string) (p : nat) : string * nat :=
  match s with
  | String c s' => if is_ws c then skip_ws s' (S p) else (s, p)
  | EmptyString => (s, p)
  end.

Definition hex_val (c : ascii) : option nat :=
  let n := nat_of_ascii c in
  if (48 <=? n) && (n <=? 57) then Some (n - 48)
  else if (65 <=? n) && (n <=? 70) then Some (n - 55)
  else if (97 <=? n) && (n <=? 102) then Some (n - 87)
  else None.

(** The escape table [BACKSLASH]. *)
Definition unescape (c : ascii) : option ascii :=
  let n := nat_of_ascii c in
  if n =? 34 then Some c
  else if n =? 92 then Some c
  else if n =? 47 then Some c
  else if n =? 98 then Some (ascii_of_nat 8)
  else if n =? 102 then Some (ascii_of_nat 12)
  else if n =? 110 then Some (ascii_of_nat 10)
  else if n =? 114 then Some (ascii_of_nat 13)
  else if n =? 116 then Some (ascii_of_nat 9)
  else None.

(** [scanstring], entered after the opening quote.  An escape [\uXXXX]
    above 255 has no character in the model and is refused. *)
Fixpoint scanstring (s : string) (p begin : nat) (acc : string)
    : Parse (string * string * nat) :=
  match s with
  | EmptyString => fail "Unterminated string starting at" begin
  | String c s' =>
      if nat_of_ascii c =? 34 then inr (acc, s', S p)
      else if nat_of_ascii c =? 92 then
        match s' with
        | EmptyString => fail "Unterminated string starting at" begin
        | String e s'' =>
            if nat_of_ascii e =? 117 then
              match s'' with
              | String h1 (String h2 (String h3 (String h4 s4))) =>
                  match hex_val h1, hex_val h2, hex_val h3, hex_val h4 with
                  | Some v1, Some v2, Some v3, Some v4 =>
                      let uni := ((v1 * 16 + v2) * 16 + v3) * 16 + v4 in
                      if uni <? 256
                      then scanstring s4 (p + 6) begin
                             (acc ++ String (ascii_of_nat uni) EmptyString)
                      else fail "escape outside the modelled characters" (S p)
                  | _, _, _, _ => fail "Invalid \uXXXX escape" (S p)
                  end
              | _ => fail "Invalid \uXXXX escape" (S p)
              end
            else
              match unescape e with
              | Some ch => scanstring s'' (p + 2) begin (acc ++ String ch EmptyString)
              | None => fail "Invalid \escape" (S p)
              end
        end
      else if nat_of_ascii c <? 32 then fail "Invalid control character at" p
      else scanstring s' (S p) begin (acc ++ String c EmptyString)
  end.

(** The digits at the head of [s]: their text, the text left, the offset. *)
Fixpoint take_digits (s : string) (p : nat) (acc : string) : string * string * nat :=
  match s with
  | String c s' =>
      if is_digit c then take_digits s' (S p) (acc ++ String c EmptyString)
      else (acc, s, p)
  | EmptyString => (acc, s, p)
  end.

Fixpoint digits_val (s : string) (acc : Z) : Z :=
  match s with
  | String c s' => digits_val s' (acc * 10 + digit_val c)%Z
  | EmptyString => acc
  end.

(** [NUMBER_RE]: an integer part, then an optional fraction and an optional
    exponent, each taken only when complete. *)
Definition scan_number (s : string) (p : nat) : option (json * string * nat) :=
  let '(neg, s1, p1) :=
    match s with
    | String c s' => if nat_of_ascii c =? 45 then (true, s', S p) else (false, s, p)
    | EmptyString => (false, s, p)
    end in
  let int_part : option (string * string * nat) :=
    match s1 with
    | String c s' =>
        if nat_of_ascii c =? 48 then Some (String c EmptyString, s', S p1)
        else if is_digit c then Some (take_digits s1 p1 EmptyString)
        else None
    | EmptyString => None
    end in
  match int_part with
  | None => None
  | Some (ds, s2, p2) =>
      let '(frac, s3, p3) :=
        match s2 with
        | String c s' =>
            if nat_of_ascii c =? 46 then
              match take_digits s' (S p2) EmptyString with
              | (EmptyString, _, _) => (EmptyString, s2, p2)
              | (fs, r, q) => (String c fs, r, q)
              end
            else (EmptyString, s2, p2)
        | EmptyString => (EmptyString, s2, p2)
        end in
      let '(ex, s4, p4) :=
        match s3 with
        | String c s' =>
            if (nat_of_ascii c =? 101) || (nat_of_ascii c =? 69) then
              let '(sign, s'', q) :=
                match s' with
                | String d r =>
                    if (nat_of_ascii d =? 43) || (nat_of_ascii d =? 45)
                    then (String d EmptyString, r, S (S p3))
                    else (EmptyString, s', S p3)
                | EmptyString => (EmptyString, s', S p3)
                end in
              match take_digits s'' q EmptyString with
              | (EmptyString, _, _) => (EmptyString, s3, p3)
              | (es, r, q') => (String c (sign ++ es), r, q')
              end
            else (EmptyString, s3, p3)
        | EmptyString => (EmptyString, s3, p3)
        end in
      let sign_text := if neg then "-" else EmptyString in
      match frac, ex with
      | EmptyString, EmptyString =>
          let v := digits_val ds 0 in
          Some (JInt (if neg then (- v)%Z else v), s4, p4)
      | _, _ => Some (JFloat (sign_text ++ ds ++ frac ++ ex), s4, p4)
      end
  end.

(** [s[idx:idx+len(w)] == w]. *)
Definition starts (w s : string) : bool := String.prefix w s.

(** [scan_once] with the loops of [JSONArray] ([scan_items]) and
    [JSONObject] ([scan_members]); every call passes on one unit of fuel
    less, and [loads] starts with more than the text can use up. *)
Fixpoint scan_once (fuel : nat) (s : string) (p : nat) : Parse (json * string * nat) :=
  match fuel with
  | 0 => fail "Expecting value" p
  | S fuel' =>
      match s with
      | EmptyString => fail "Expecting value" p
      | String c s' =>
          let n := nat_of_ascii c in
          if n =? 34 then
            match scanstring s' (S p) p EmptyString with
            | inl e => inl e
            | inr (v, r, q) => inr (JStr v, r, q)
            end
          else if n =? 123 then
            let '(s1, p1) := skip_ws s' (S p) in
            match s1 with
            | String c1 r1 =>
                if nat_of_ascii c1 =? 125 then inr (JObj ∅, r1, S p1)
                else scan_members fuel' s1 p1 ∅
            | EmptyString =>
                fail "Expecting property name enclosed in double quotes" p1
            end
          else if n =? 91 then
            let '(s1, p1) := skip_ws s' (S p) in
            match s1 with
            | String c1 r1 =>
                if nat_of_ascii c1 =? 93 then inr (JArr [], r1, S p1)
                else scan_items fuel' s1 p1 []
            | EmptyString => fail "Expecting value" p1
            end
          else if starts "null" s then inr (JNull, Py.drop_str 4 s, p + 4)
          else if starts "true" s then inr (JBool true, Py.drop_str 4 s, p + 4)
          else if starts "false" s then inr (JBool false, Py.drop_str 5 s, p + 5)
          else
            match scan_number s p with
            | Some r => inr r
            | None =>
                if starts "NaN" s then inr (JFloat "nan", Py.drop_str 3 s, p + 3)
                else if starts "Infinity" s
                     then inr (JFloat "inf", Py.drop_str 8 s, p + 8)
                else if starts "-Infinity" s
                     then inr (JFloat "-inf", Py.drop_str 9 s, p + 9)
                else fail "Expecting value" p
            end
      end
  end
with scan_items (fuel : nat) (s : string) (p : nat) (values : list json)
    : Parse (json * string * nat) :=
  match fuel with
  | 0 => fail "Expecting value" p
  | S fuel' =>
      match scan_once fuel' s p with
      | inl e => inl e
      | inr (v, r, q) =>
          let values' := (values ++ [v])%list in
          let '(r1, q1) := skip_ws r q in
          match r1 with
          | String c r2 =>
              if nat_of_ascii c =? 93 then inr (JArr values', r2, S q1)
              else if nat_of_ascii c =? 44 then
                let '(r3, q3) := skip_ws r2 (S q1) in
                scan_items fuel' r3 q3 values'
              else fail "Expecting ',' delimiter" q1
          | EmptyString => fail "Expecting ',' delimiter" q1
          end
      end
  end
with scan_members (fuel : nat) (s : string) (p : nat) (pairs : gmap string json)
    : Parse (json * string * nat) :=
  match fuel with
  | 0 => fail "Expecting value" p
  | S fuel' =>
      match s with
      | String c s' =>
          if nat_of_ascii c =? 34 then
            match scanstring s' (S p) p EmptyString with
            | inl e => inl e
            | inr (key, r, q) =>
                let '(r1, q1) := skip_ws r q in
                match r1 with
                | String c1 r2 =>
                    if nat_of_ascii c1 =? 58 then
                      let '(r3, q3) := skip_ws r2 (S q1) in
                      match scan_once fuel' r3 q3 with
                      | inl e => inl e
                      | inr (v, r4, q4) =>
                          let pairs' := <[key := v]> pairs in
                          let '(r5, q5) := skip_ws r4 q4 in
                          match r5 with
                          | String c2 r6 =>
                              if nat_of_ascii c2 =? 125
                              then inr (JObj pairs', r6, S q5)
                              else if nat_of_ascii c2 =? 44 then
                                let '(r7, q7) := skip_ws r6 (S q5) in
                                scan_members fuel' r7 q7 pairs'
                              else fail "Expecting ',' delimiter" q5
                          | EmptyString => fail "Expecting ',' delimiter" q5
                          end
                      end
                    else fail "Expecting ':' delimiter" q1
                | EmptyString => fail "Expecting ':' delimiter" q1
                end
            end
          else fail "Expecting property name enclosed in double quotes" p
      | EmptyString => fail "Expecting property name enclosed in double quotes" p
      end
  end.

(** [json.loads(s)]: white space, one value, white space, end of text. *)
Definition loads (s : string) : Parse json :=
  let '(s0, p0) := skip_ws s 0 in
  match scan_once (2 * String.length s + 2) s0 p0 with
  | inl e => inl e
  | inr (v, r, q) =>
      let '(r1, q1) := skip_ws r q in
      match r1 with
      | EmptyString => inr v
      | _ => fail "Extra data" q1
      end
  end.

End Json.

(** ** datetime.strptime(v, "%Y-%m-%d") *)
Module Datetime.

Definition digit (c : ascii) : option nat :=
  if Json.is_digit c then Some (nat_of_ascii c - 48) else None.

Definition in_range (lo hi : nat) (c : ascii) : bool :=
  let n := nat_of_ascii c - 48 in Json.is_digit c && (lo <=? n) && (n <=? hi).

Definition val (c : ascii) : nat := nat_of_ascii c - 48.

(** The ways the directive [%m], the pattern [1[0-2]|0[1-9]|[1-9]], can
    match a prefix of [s], in the order the alternatives are tried: the
    month read and the text left. *)
Definition month_alts (s : string) : list (nat * string) :=
  match s with
  | String c1 r1 =>
      (match r1 with
       | String c2 r2 =>
           (if (val c1 =? 1) && Json.is_digit c1 && in_range 0 2 c2
            then [(10 + val c2, r2)] else [])
           ++ (if (val c1 =? 0) && Json.is_digit c1 && in_range 1 9 c2
               then [(val c2, r2)] else [])
       | EmptyString => []
       end)
      ++ (if in_range 1 9 c1 then [(val c1, r1)] else [])
  | EmptyString => []
  end.

(** The same for [%d], the pattern [3[0-1]|[1-2]\d|0[1-9]|[1-9]| [1-9]]. *)
Definition day_alts (s : string) : list (nat * string) :=
  match s with
  | String c1 r1 =>
      (match r1 with
       | String c2 r2 =>
           (if (val c1 =? 3) && Json.is_digit c1 && in_range 0 1 c2
            then [(30 + val c2, r2)] else [])
           ++ (if in_range 1 2 c1 && Json.is_digit c2
               then [(10 * val c1 + val c2, r2)] else [])
           ++ (if (val c1 =? 0) && Json.is_digit c1 && in_range 1 9 c2
               then [(val c2, r2)] else [])
       | EmptyString => []
       end)
      ++ (if in_range 1 9 c1 then [(val c1, r1)] else [])
      ++ (match r1 with
          | String c2 r2 =>
              if (nat_of_ascii c1 =? 32) && in_range 1 9 c2 then [(val c2, r2)] else []
          | EmptyString => []
          end)
  | EmptyString => []
  end.

Definition is_dash (c : ascii) : bool := nat_of_ascii c =? 45.

(** What follows the month: a dash and a day.  The pattern is not anchored
    at the end, so the first day alternative that matches is the one kept. *)
Definition after_month (m : nat) (s : string) : option (nat * nat * string) :=
  match s with
  | String c r =>
      if is_dash c then
        match day_alts r with
        | (d, rest) :: _ => Some (m, d, rest)
        | [] => None
        end
      else None
  | EmptyString => None
  end.

Fixpoint first_month (alts : list (nat * string)) : option (nat * nat * string) :=
  match alts with
  | [] => None
  | (m, r) :: alts' =>
      match after_month m r with
      | Some res => Some res
      | None => first_month alts'
      end
  end.

(** [format_regex.match(data_string)]: year, month, day and the text that
    the match leaves. *)
Definition regex_match (s : string) : option (nat * nat * nat * string) :=
  match s with
  | String y1 (String y2 (String y3 (String y4 (String c r)))) =>
      if Json.is_digit y1 && Json.is_digit y2 && Json.is_digit y3 && Json.is_digit y4
         && is_dash c
      then
        match first_month (month_alts r) with
        | Some (m, d, rest) =>
            Some (((val y1 * 10 + val y2) * 10 + val y3) * 10 + val y4, m, d, rest)
        | None => None
        end
      else None
  | _ => None
  end.

Definition is_leap (y : nat) : bool :=
  (y mod 4 =? 0) && (negb (y mod 100 =? 0) || (y mod 400 =? 0)).

Definition days_in_month (y m : nat) : nat :=
  match m with
  | 2 => if is_leap y then 29 else 28
  | 4 | 6 | 9 | 11 => 30
  | _ => 31
  end.

(** [datetime.strptime(s, "%Y-%m-%d")]: [None] stands for its ValueError
    (no match, unconverted data left, or no such day in the calendar). *)
Definition strptime_ymd (s : string) : option (nat * nat * nat) :=
  match regex_match s with
  | Some (y, m, d, EmptyString) =>
      if (1 <=? y) && (1 <=? d) && (d <=? days_in_month y m) then Some (y, m, d)
      else None
  | _ => None
  end.

End Datetime.

(** ** models.py: the CRMData schema and validate_json_output *)
Module Models.
Import Json.

Inductive DealStage : Type :=
| PROSPECTING | QUALIFICATION | PROPOSAL | NEGOTIATION
| CLOSED_WON | CLOSED_LOST | NURTURE.

Definition DealStage_value (d : DealStage) : string :=
  match d with
  | PROSPECTING => "prospecting"
  | QUALIFICATION => "qualification"
  | PROPOSAL => "proposal"
  | NEGOTIATION => "negotiation"
  | CLOSED_WON => "closed_won"
  | CLOSED_LOST => "closed_lost"
  | NURTURE => "nurture"
  end.

Definition DealStage_members : list DealStage :=
  [PROSPECTING; QUALIFICATION; PROPOSAL; NEGOTIATION; CLOSED_WON; CLOSED_LOST; NURTURE].

Inductive InterestLevel : Type :=
| HOT | WARM | COLD | NEUTRAL.

Definition InterestLevel_value (i : InterestLevel) : string :=
  match i with
  | HOT => "hot"
  | WARM => "warm"
  | COLD => "cold"
  | NEUTRAL => "neutral"
  end.

Definition InterestLevel_members : list InterestLevel := [HOT; WARM; COLD; NEUTRAL].

Record CRMData : Type := mkCRMData {
  summary : string;
  deal_stage : DealStage;
  objections : option string;
  interest_level : InterestLevel;
  next_action : string;
  followup_date : option string
}.

(** One entry of a pydantic ValidationError. *)
Inductive FieldError : Type :=
| field_required
| none_not_allowed
| str_type_expected
| min_length (limit : nat)
| not_enum_member
| validator_error (message : string).

(** What [except Exception] can catch from [CRMData(.. data)]: the TypeError
    for an argument that is no mapping, or the ValidationError with its
    entries, each under the name of its field. *)
Inductive SchemaFailure : Type :=
| not_a_mapping
| validation_error (errors : list (string * FieldError)).

(** The two ValueErrors of [validate_json_output], by their message prefix:
    ["Invalid JSON from AI: "] and ["Schema validation failed: "]. *)
Inductive ValueError : Type :=
| Invalid_JSON_from_AI (e : JSONDecodeError)
| Schema_validation_failed (e : SchemaFailure).

(** [CRMData.validate_date_format]. *)
Definition validate_date_format (v : option string) : FieldError + option string :=
  match v with
  | None => inr v
  | Some s =>
      match Datetime.strptime_ymd s with
      | Some _ => inr v
      | None => inl (validator_error "Date must be in YYYY-MM-DD format")
      end
  end.

(** [CRMData.clean_objections]. *)
Definition clean_objections (v : option string) : FieldError + option string :=
  if Py.truthy v
     && existsb (String.eqb (Py.lower (Py.strip (default EmptyString v))))
                ["none"; "n/a"; "no objections"; EmptyString]
  then inr None
  else inr v.

Section Pydantic.
(** What pydantic's string check makes of a value that is neither a string
    nor null: some versions turn numbers into their text, others refuse. *)
Variable coerce_str : json -> option string.

Definition str_validator (v : json) : FieldError + string :=
  match v with
  | JStr s => inr s
  | _ => match coerce_str v with
         | Some s => inr s
         | None => inl str_type_expected
         end
  end.

(** A required [str] field with [min_length]. *)
Definition required_str (limit : nat) (v : option json) : FieldError + string :=
  match v with
  | None => inl field_required
  | Some JNull => inl none_not_allowed
  | Some x =>
      match str_validator x with
      | inl e => inl e
      | inr s => if String.length s <? limit then inl (min_length limit) else inr s
      end
  end.

(** A required field of an enumeration whose members have the given
    string values. *)
Definition required_enum {E : Type} (members : list E) (value : E -> string)
    (v : option json) : FieldError + E :=
  match v with
  | None => inl field_required
  | Some JNull => inl none_not_allowed
  | Some (JStr s) =>
      match List.find (fun m => String.eqb (value m) s) members with
      | Some m => inr m
      | None => inl not_enum_member
      end
  | Some _ => inl not_enum_member
  end.

(** An [Optional[str]] field with a validator of the class: an absent key
    takes the default without the validator, an explicit null goes to the
    validator as None. *)
Definition optional_str (check : option string -> FieldError + option string)
    (v : option json) : FieldError + option string :=
  match v with
  | None => inr None
  | Some JNull => check None
  | Some x =>
      match str_validator x with
      | inl e => inl e
      | inr s => check (Some s)
      end
  end.

Definition err {A : Type} (loc : string) (r : FieldError + A)
    : list (string * FieldError) :=
  match r with
  | inl e => [(loc, e)]
  | inr _ => []
  end.

(** The CRMData model built from the keyword arguments [data]: the fields
    are checked in the order of the class, every failure is recorded. *)
Definition CRMData_init (data : gmap string json)
    : list (string * FieldError) + CRMData :=
  let r_summary := required_str 10 (data !! "summary") in
  let r_deal_stage := required_enum DealStage_members DealStage_value
                                    (data !! "deal_stage") in
  let r_objections := optional_str clean_objections (data !! "objections") in
  let r_interest_level := required_enum InterestLevel_members InterestLevel_value
                                        (data !! "interest_level") in
  let r_next_action := required_str 5 (data !! "next_action") in
  let r_followup_date := optional_str validate_date_format
                                      (data !! "followup_date") in
  match r_summary, r_deal_stage, r_objections, r_interest_level, r_next_action,
        r_followup_date with
  | inr s, inr d, inr o, inr i, inr n, inr f => inr (mkCRMData s d o i n f)
  | _, _, _, _, _, _ =>
      inl (err "summary" r_summary ++ err "deal_stage" r_deal_stage
           ++ err "objections" r_objections
           ++ err "interest_level" r_interest_level
           ++ err "next_action" r_next_action
           ++ err "followup_date" r_followup_date)%list
  end.

(** The JSON reader, [json.loads]. *)
Variable json_loads : string -> JSONDecodeError + json.

Definition validate_json_output (json_str : string) : ValueError + CRMData :=
  match json_loads json_str with
  | inl e => inl (Invalid_JSON_from_AI e)
  | inr (JObj data) =>
      match CRMData_init data with
      | inr crm => inr crm
      | inl errors => inl (Schema_validation_failed (validation_error errors))
      end
  | inr _ => inl (Schema_validation_failed not_a_mapping)
  end.

End Pydantic.

(** The string check of pydantic 1: numbers and booleans become their
    text; for a float this is the text it was read from, which is the text
    Python gives the float when the literal is written as Python writes
    it.  The properties of the validator are stated for any such check. *)
Definition coerce_v1 (v : json) : option string :=
  match v with
  | JInt z =>
      Some (if (z <? 0)%Z then "-" ++ Py.str_of_nat (Z.to_nat (- z))
            else Py.str_of_nat (Z.to_nat z))
  | JBool true => Some "True"
  | JBool false => Some "False"
  | JFloat t => Some t
  | _ => None
  end.

End Models.

(** ** prompts.py *)
Module Prompts.

Definition nl : string := String (ascii_of_nat 10) EmptyString.
Definition q : string := String (ascii_of_nat 34) EmptyString.

(** A line [    "key": "text",] of the JSON skeleton in the template. *)
Definition field_line (key text : string) (comma : bool) : string :=
  "    " ++ q ++ key ++ q ++ ": " ++ q ++ text ++ q
  ++ (if comma then "," else EmptyString).

(** [CRM_EXTRACTION], cut at its two placeholders. *)
Definition CRM_EXTRACTION_head : string :=
  "You are an expert sales CRM assistant. Analyze the following sales conversation and extract structured data."
  ++ nl ++ nl ++ "CONVERSATION:" ++ nl.

Definition CRM_EXTRACTION_mid : string :=
  nl ++ nl ++ "CLIENT CONTEXT:" ++ nl.

Definition CRM_EXTRACTION_tail : string :=
  nl ++ nl
  ++ String.concat nl
  [ "Extract the following fields and return ONLY a valid JSON object (no markdown, no explanation):";
    EmptyString;
    "{";
    field_line "summary"
      "Brief 2-3 sentence summary of what was discussed and key outcomes" true;
    field_line "deal_stage"
      "One of: prospecting, qualification, proposal, negotiation, closed_won, closed_lost, nurture" true;
    field_line "objections"
      "Any concerns or objections raised by client, or null if none" true;
    field_line "interest_level" "One of: hot, warm, cold, neutral" true;
    field_line "next_action"
      "Specific next step required (e.g., 'Send proposal by Friday', 'Schedule demo next Tuesday')" true;
    field_line "followup_date"
      "Suggested follow-up date in YYYY-MM-DD format, or null if not applicable" false;
    "}";
    EmptyString;
    "Rules:";
    "- Be concise but specific in summaries";
    "- Deal stage must be exact match from list";
    "- Interest level: hot=ready to buy, warm=interested, cold=not interested, neutral=unclear";
    "- Next action must be actionable and specific";
    "- If client mentioned specific dates/times, use those for followup_date" ].

(** [Prompts.get_crm_prompt]: [CRM_EXTRACTION.format(..)]. *)
Definition get_crm_prompt (conversation context : string) : string :=
  CRM_EXTRACTION_head ++ conversation ++ CRM_EXTRACTION_mid ++ context
  ++ CRM_EXTRACTION_tail.

End Prompts.

(** ** ai_crm.py *)
Module AiCrm.
Import Models.

(** [re.search(r'\{.*\}', raw, re.DOTALL)]: the start positions are tried
    from the left; at an opening brace the greedy [.*] runs to the end of the
    text and gives back characters until a closing brace is met, that is, it
    stops at the last closing brace after the start. *)
Fixpoint rfind_char (c : ascii) (s : string) : option nat :=
  match s with
  | EmptyString => None
  | String x s' =>
      match rfind_char c s' with
      | Some k => Some (S k)
      | None => if Ascii.eqb x c then Some 0 else None
      end
  end.

Definition lbrace : ascii := ascii_of_nat 123.
Definition rbrace : ascii := ascii_of_nat 125.

Fixpoint re_search_object (s : string) : option string :=
  match s with
  | EmptyString => None
  | String c s' =>
      if Ascii.eqb c lbrace then
        match rfind_char rbrace s' with
        | Some k => Some (String c (String.substring 0 (S k) s'))
        | None => re_search_object s'
        end
      else re_search_object s'
  end.

Definition fence_json : string := "```json".
Definition fence : string := "```".

(** [CRMExtractor._clean_json_response]. *)
Definition _clean_json_response (raw : string) : string :=
  let raw :=
    if Py.contains fence_json raw
    then Py.item 0 (Py.split fence (Py.item 1 (Py.split fence_json raw)))
    else if Py.contains fence raw
    then Py.item 0 (Py.split fence (Py.item 1 (Py.split fence raw)))
    else raw in
  match re_search_object raw with
  | Some found => found
  | None => Py.strip raw
  end.

(** What [extract] can raise: the ValueError for a provider it does not
    know, a ValueError of the validator, or whatever the call of the model
    raised (TimeoutError, RuntimeError, ImportError). *)
Inductive Error : Type :=
| Unknown_provider (provider : string)
| Validation (e : ValueError)
| Provider_failure (what : string).

(** The generation calls made so far, oldest first: the backend called and
    the prompt sent. *)
Definition World : Type := list (string * string).

(** Code that calls the model and may raise. *)
Definition M (A : Type) : Type := World -> (Error + A) * World.

Definition ret {A : Type} (x : A) : M A := fun w => (inr x, w).
Definition raise {A : Type} (e : Error) : M A := fun w => (inl e, w).
Definition bind {A B : Type} (m : M A) (k : A -> M B) : M B :=
  fun w => match m w with
           | (inr x, w') => k x w'
           | (inl e, w') => (inl e, w')
           end.

Notation "x <- m ;; k" := (bind m (fun x => k))
  (at level 100, m at next level, right associativity).

Section Extractor.
Variable coerce_str : Json.json -> option string.
Variable json_loads : string -> Json.JSONDecodeError + Json.json.

(** [self.provider]. *)
Variable provider : string.

(** The generation capability: what the backend answers to a prompt, given
    the calls made before. *)
Variable respond : World -> string -> string -> string + string.

(** [self._call_ollama], [self._call_transformers], [self._call_llama_cpp]. *)
Definition _call (backend prompt : string) : M string :=
  fun w =>
    (match respond w backend prompt with
     | inl what => inl (Provider_failure what)
     | inr text => inr text
     end,
     (w ++ [(backend, prompt)])%list).

Definition retry_directive : string :=
  Prompts.nl ++ Prompts.nl ++ "CRITICAL: Return ONLY valid JSON. No other text.".

(** [CRMExtractor.extract]. *)
Definition extract (conversation context : string) : M CRMData :=
  let prompt := Prompts.get_crm_prompt conversation context in
  raw_output <-
    (if String.eqb provider "ollama" then _call "ollama" prompt
     else if String.eqb provider "transformers" then _call "transformers" prompt
     else if String.eqb provider "llama_cpp" then _call "llama_cpp" prompt
     else raise (Unknown_provider provider)) ;;
  let cleaned := _clean_json_response raw_output in
  match validate_json_output coerce_str json_loads cleaned with
  | inr data => ret data
  | inl _ =>
      let retry_prompt := prompt ++ retry_directive in
      raw_output <-
        (if String.eqb provider "ollama" then _call "ollama" retry_prompt
         else if String.eqb provider "transformers" then _call "transformers" retry_prompt
         else _call "llama_cpp" retry_prompt) ;;
      let cleaned := _clean_json_response raw_output in
      match validate_json_output coerce_str json_loads cleaned with
      | inr data => ret data
      | inl e => raise (Validation e)
      end
  end.

End Extractor.

End AiCrm.


(* ===================================================================== *)
(** * Part I, continued: further code of the repository *)
(* ===================================================================== *)

(** The views of memory.py, the remaining operations of database.py, the
    follow-up prompts of prompts.py and the generator of ai_followup.py.

    Conventions, besides those above.
    - SQLite as the code opens it: every call of [_get_connection] is a
      connection of its own; a change is seen by other connections once it
      is committed, at the end of the [with] block; [PRAGMA foreign_keys]
      is off, as no connection switches it on, so the REFERENCES clauses of
      the schema are not enforced and nothing cascades.
    - Rows come back in rowid order where the query gives no order;
      [ORDER BY] keeps that order among equal keys, but for the recent
      interactions, which SQLite reads from the end of the index on their
      date.  The properties below speak of the order by the key, not of
      the order among equal keys.
    - The models built from rows ([Client(..)], [Interaction(..)]) apply
      their field checks; a failure inside a [with] block is a
      DatabaseError. *)

(** ** memory.py: the timeline and the interactions of one stage *)
Module MemoryViews.
Import Database Memory.

(** One dict of the timeline. *)
Record TimelineEntry : Type := mkTimelineEntry {
  t_date : Timestamp;
  t_stage : string;
  t_summary : string;
  t_interest : string;
  t_next_action : string
}.

Definition entry_of (inter : InteractionRow) : TimelineEntry :=
  mkTimelineEntry (int_date inter) (int_deal_stage inter) (int_summary inter)
                  (int_interest_level inter) (int_next_action inter).

(** [MemoryManager.get_client_timeline]: the loop appends one dict per
    interaction of [reversed(history.interactions)]. *)
Definition get_client_timeline (st : Store) (client_id : nat)
    : MemError + list TimelineEntry :=
  match get_client_history st client_id with
  | inl e => inl e
  | inr history =>
      inr (fold_left (fun timeline inter => (timeline ++ [entry_of inter])%list)
                     (rev (h_interactions history)) [])
  end.

(** [MemoryManager.get_similar_interactions]. *)
Definition get_similar_interactions (st : Store) (client_id : nat) (deal_stage : string)
    : MemError + list InteractionRow :=
  match get_client_history st client_id with
  | inl e => inl e
  | inr history =>
      inr (List.filter (fun i => String.eqb (int_deal_stage i) deal_stage)
                       (h_interactions history))
  end.

End MemoryViews.

(** ** SQLite's LIKE *)
Module Sqlite.

Definition percent : ascii := ascii_of_nat 37.
Definition underscore : ascii := ascii_of_nat 95.

(** The case folding of LIKE: the letters A to Z only. *)
Definition fold_char (c : ascii) : ascii :=
  let n := nat_of_ascii c in
  if (65 <=? n) && (n <=? 90) then ascii_of_nat (n + 32) else c.

Fixpoint fold (s : string) : string :=
  match s with
  | EmptyString => EmptyString
  | String c s' => String (fold_char c) (fold s')
  end.

(** [text LIKE pattern] with no ESCAPE clause: a percent sign stands for any
    run of characters, an underscore for any one character, every other
    character for itself, ASCII letters in either case. *)
Fixpoint like (pattern : string) : string -> bool :=
  match pattern with
  | EmptyString =>
      fun text => match text with EmptyString => true | String _ _ => false end
  | String p pattern' =>
      if Ascii.eqb p percent then
        fix any_run (text : string) : bool :=
          like pattern' text
          || match text with
             | EmptyString => false
             | String _ text' => any_run text'
             end
      else if Ascii.eqb p underscore then
        fun text =>
          match text with
          | EmptyString => false
          | String _ text' => like pattern' text'
          end
      else
        fun text =>
          match text with
          | EmptyString => false
          | String c text' =>
              Ascii.eqb (fold_char p) (fold_char c) && like pattern' text'
          end
  end.

(** [column LIKE pattern] on a column that may be NULL: NULL is no match. *)
Definition like_null (pattern : string) (column : option string) : bool :=
  match column with
  | Some text => like pattern text
  | None => false
  end.

End Sqlite.

(** ** database.py: search, update, interactions, follow-ups, statistics *)
Module Records.
Import Database.

(** A row of the [followups] table. *)
Record FollowUpRow : Type := mkFollowUpRow {
  fu_id : nat;
  fu_interaction_id : nat;
  fu_email_text : string;
  fu_message_text : string
}.

(** The database file with all its tables: the clients and interactions of
    [Store], the AUTOINCREMENT counter of [interactions], the follow-ups in
    rowid order and their counter. *)
Record Tables : Type := mkTables {
  store : Store;
  interactions_seq : nat;
  followups : list FollowUpRow;
  followups_seq : nat
}.

(** models.InteractionCreate. *)
Record InteractionCreate : Type := mkInteractionCreate {
  ic_client_id : nat;
  ic_raw_text : string;
  ic_summary : string;
  ic_deal_stage : string;
  ic_objections : option string;
  ic_interest_level : string;
  ic_next_action : string;
  ic_followup_date : option string
}.

(** models.Interaction has the columns of a row of [interactions];
    models.FollowUp those of a row of [followups]. *)
Definition Interaction : Type := InteractionRow.
Definition FollowUp : Type := FollowUpRow.

(** [Interaction(..)]: of the field checks, the values read from the
    tables can fail the length of [raw_text] only. *)
Definition Interaction_init (row : InteractionRow) : ValidationError + Interaction :=
  if String.length (int_raw_text row) <? 10
  then inl (too_short "Interaction" "raw_text" 10)
  else inr row.

(** [ORDER BY]: the rows are put in order one after the other;
    [goes_before x y] tells that [x] may stand before [y]. *)
Fixpoint insert_by {A : Type} (goes_before : A -> A -> bool) (x : A) (l : list A)
    : list A :=
  match l with
  | [] => [x]
  | y :: l' => if goes_before x y then x :: l else y :: insert_by goes_before x l'
  end.

Fixpoint order_by {A : Type} (goes_before : A -> A -> bool) (l : list A) : list A :=
  match l with
  | [] => []
  | x :: l' => insert_by goes_before x (order_by goes_before l')
  end.

(** [ORDER BY name]: the texts compared byte by byte. *)
Definition order_by_name (l : list ClientRow) : list ClientRow :=
  order_by (fun x y => String.leb (row_name x) (row_name y)) l.

(** [Database.search_clients]. *)
Definition search_clients (st : Store) (query : string) (include_inactive : bool)
    : Failure + list Client :=
  let pattern := String Sqlite.percent (query ++ String Sqlite.percent EmptyString) in
  let rows :=
    List.filter
      (fun row =>
         (Sqlite.like pattern (row_name row)
          || Sqlite.like_null pattern (row_company row))
         && (include_inactive || active row))
      (clients st) in
  match build_all Client_of (order_by_name rows) with
  | inl e => inl (Database_error_validation e)
  | inr found => inr found
  end.

Definition allowed_fields : list string := ["name"; "company"; "email"].

(** The keyword arguments of [update_client]: a dict from names to values,
    a value being a text or None; [update_fields] is the dict comprehension
    that keeps the allowed names. *)
Definition update_fields (updates : gmap string (option string))
    : gmap string (option string) :=
  filter (fun kv => kv.1 ∈ allowed_fields) updates.

(** [UPDATE clients SET k = ?, .. WHERE id = ?] on one row. *)
Definition set_fields (fields : gmap string (option string)) (client_id : nat)
    (row : ClientRow) : ClientRow :=
  if row_id row =? client_id
  then mkClientRow (row_id row)
                   (match fields !! "name" with
                    | Some (Some v) => v
                    | _ => row_name row
                    end)
                   (match fields !! "company" with
                    | Some v => v
                    | None => row_company row
                    end)
                   (match fields !! "email" with
                    | Some v => v
                    | None => row_email row
                    end)
                   (row_created_at row) (row_is_active row)
  else row.

(** [Database.update_client].  The UPDATE runs on the connection of the
    [with] block and is committed when the block is left; the record
    returned is read by [get_client] inside the block, on a connection of
    its own, which sees the table as last committed, that is, as it was
    before the UPDATE.  A None for the name of a row that the UPDATE reaches
    breaks NOT NULL; a failure inside the block undoes the UPDATE. *)
Definition update_client (st : Store) (client_id : nat)
    (updates : gmap string (option string)) : (Failure + option Client) * Store :=
  let fields := update_fields updates in
  if decide (fields = ∅) then (inr None, st)
  else if touched client_id (clients st)
          && bool_decide (fields !! "name" = Some None)
  then (inl (Database_error_integrity "NOT NULL constraint failed: clients.name"), st)
  else
    match get_client st client_id with
    | inl failure => (inl failure, st)
    | inr found =>
        (inr found,
         mkStore (map (set_fields fields client_id) (clients st))
                 (clients_seq st) (interactions st))
    end.

(** [INSERT INTO interactions (..) VALUES (..)] at clock reading [now]. *)
Definition insert_interaction (interaction : InteractionCreate) (now : Timestamp)
    (db : Tables) : InteractionRow * Tables :=
  let interaction_id := S (interactions_seq db) in
  let row := mkInteractionRow interaction_id (ic_client_id interaction) now
               (ic_raw_text interaction) (ic_summary interaction)
               (ic_deal_stage interaction) (ic_objections interaction)
               (ic_interest_level interaction) (ic_next_action interaction)
               (ic_followup_date interaction) in
  (row,
   mkTables (mkStore (clients (store db)) (clients_seq (store db))
                     (interactions (store db) ++ [row]))
            interaction_id (followups db) (followups_seq db)).

(** [SELECT * FROM interactions WHERE id = ?] then [fetchone()]. *)
Definition select_interaction (interaction_id : nat) (rows : list InteractionRow)
    : option InteractionRow :=
  List.find (fun row => int_id row =? interaction_id) rows.

(** [Database.create_interaction].  The foreign key of [client_id] is not
    enforced: no connection of the code turns [PRAGMA foreign_keys] on. *)
Definition create_interaction (interaction : InteractionCreate) (now : Timestamp)
    (db : Tables) : (Failure + Interaction) * Tables :=
  let '(row, db') := insert_interaction interaction now db in
  match select_interaction (int_id row) (interactions (store db')) with
  | Some r =>
      match Interaction_init r with
      | inl e => (inl (Database_error_validation e), db)
      | inr i => (inr i, db')
      end
  | None => (inl (Database_error_type "dict of None"), db)
  end.

(** [Database.get_interaction]. *)
Definition get_interaction (db : Tables) (interaction_id : nat)
    : Failure + option Interaction :=
  match select_interaction interaction_id (interactions (store db)) with
  | Some r =>
      match Interaction_init r with
      | inl e => inl (Database_error_validation e)
      | inr i => inr (Some i)
      end
  | None => inr None
  end.

(** [Database.delete_interaction]: the rows of [followups] stay, as the
    foreign keys are not enforced. *)
Definition delete_interaction (interaction_id : nat) (db : Tables) : bool * Tables :=
  (existsb (fun row => int_id row =? interaction_id) (interactions (store db)),
   mkTables (mkStore (clients (store db)) (clients_seq (store db))
                     (List.filter (fun row => negb (int_id row =? interaction_id))
                                  (interactions (store db))))
            (interactions_seq db) (followups db) (followups_seq db)).

(** [Database.create_followup]. *)
Definition create_followup (interaction_id : nat) (email message : string)
    (db : Tables) : (Failure + FollowUp) * Tables :=
  let followup_id := S (followups_seq db) in
  let row := mkFollowUpRow followup_id interaction_id email message in
  let rows := (followups db ++ [row])%list in
  match List.find (fun r => fu_id r =? followup_id) rows with
  | Some r => (inr r, mkTables (store db) (interactions_seq db) rows followup_id)
  | None => (inl (Database_error_type "dict of None"), db)
  end.

(** [Database.get_followup]: the first row of the interaction, in rowid
    order. *)
Definition get_followup (db : Tables) (interaction_id : nat) : option FollowUp :=
  List.find (fun r => fu_interaction_id r =? interaction_id) (followups db).

End Records.

(** ** database.py: the queries over several tables *)
Module Reports.
Import Database Records.

(** [interactions i JOIN clients c ON i.client_id = c.id], with the
    condition on the client's flag when there is one. *)
Definition join_clients (keep : ClientRow -> bool) (st : Store)
    : list (InteractionRow * ClientRow) :=
  flat_map
    (fun i =>
       map (fun c => (i, c))
           (List.filter (fun c => (row_id c =? int_client_id i) && keep c)
                        (clients st)))
    (interactions st).

(** [ORDER BY i.date DESC]. *)
Definition newest_interaction_first {A : Type} (date : A -> Timestamp) (l : list A)
    : list A :=
  order_by (fun x y => String.leb (date y) (date x)) l.

(** [LIMIT ?]: a negative bound is no bound. *)
Definition limit_to {A : Type} (limit : Z) (l : list A) : list A :=
  if (limit <? 0)%Z then l else firstn (Z.to_nat limit) l.

(** The body of the loop of [get_recent_interactions] and of
    [get_interactions_needing_followup]: the Client, then the Interaction. *)
Definition pair_of (email : ClientRow -> option string) (now : Timestamp)
    (row : InteractionRow * ClientRow) : ValidationError + Interaction * Client :=
  let '(i, c) := row in
  match Client_init (int_client_id i) (row_name c) (row_company c) (email c) now with
  | inl e => inl e
  | inr client =>
      match Interaction_init i with
      | inl e => inl e
      | inr interaction => inr (interaction, client)
      end
  end.

(** [Database.get_recent_interactions]; [now] is what [datetime.now()]
    reads.  SQLite answers the query by reading the index on [date] from
    its end, so that of two interactions of equal date the one of the
    larger rowid comes first: the rows are put in order from the last. *)
Definition get_recent_interactions (st : Store) (limit : Z) (now : Timestamp)
    : Failure + list (Interaction * Client) :=
  let rows := limit_to limit
                (newest_interaction_first (fun r => int_date (fst r))
                   (rev (join_clients active st))) in
  match build_all (pair_of (fun _ => None) now) rows with
  | inl e => inl (Database_error_validation e)
  | inr results => inr results
  end.

(** [followups f JOIN interactions i ON f.interaction_id = i.id
    JOIN clients c ON i.client_id = c.id]. *)
Definition join_followups (keep : ClientRow -> bool) (db : Tables)
    : list (FollowUpRow * InteractionRow * ClientRow) :=
  flat_map
    (fun f =>
       map (fun ic => (f, fst ic, snd ic))
           (List.filter (fun ic => int_id (fst ic) =? fu_interaction_id f)
                        (join_clients keep (store db))))
    (followups db).

(** The body of the loop of [get_all_followups]: the FollowUp, the
    Interaction with [raw_text=""], the Client. *)
Definition triple_of (now : Timestamp) (row : FollowUpRow * InteractionRow * ClientRow)
    : ValidationError + FollowUp * Interaction * Client :=
  let '(f, i, c) := row in
  let followup := mkFollowUpRow (fu_id f) (fu_interaction_id f) (fu_email_text f)
                                (fu_message_text f) in
  match Interaction_init
          (mkInteractionRow (fu_interaction_id f) (row_id c) (int_date i) EmptyString
                            (int_summary i) (int_deal_stage i) None
                            (int_interest_level i) (int_next_action i) None) with
  | inl e => inl e
  | inr interaction =>
      match Client_init (row_id c) (row_name c) (row_company c) None now with
      | inl e => inl e
      | inr client => inr (followup, interaction, client)
      end
  end.

(** [Database.get_all_followups]. *)
Definition get_all_followups (db : Tables) (include_inactive : bool) (now : Timestamp)
    : Failure + list (FollowUp * Interaction * Client) :=
  let rows := newest_interaction_first (fun r => int_date (snd (fst r)))
                (join_followups (fun c => include_inactive || active c) db) in
  match build_all (triple_of now) rows with
  | inl e => inl (Database_error_validation e)
  | inr results => inr results
  end.

(** [GROUP BY deal_stage] with [COUNT]: one more for the stage of each row. *)
Definition count_stage (counts : gmap string nat) (row : InteractionRow * ClientRow)
    : gmap string nat :=
  let stage := int_deal_stage (fst row) in
  <[stage := S (default 0 (counts !! stage))]> counts.

(** [Database.get_pipeline_stats]. *)
Definition get_pipeline_stats (st : Store) (include_inactive : bool)
    : gmap string nat :=
  fold_left count_stage
            (join_clients (fun c => include_inactive || active c) st) ∅.

(** The dict returned by [get_client_stats]. *)
Record ClientStats : Type := mkClientStats {
  total_interactions : nat;
  last_contact : option Timestamp;
  first_contact : option Timestamp;
  stages_seen : list string
}.

(** [MAX(date)] and [MIN(date)] over texts: NULL over no row. *)
Definition max_text (l : list string) : option string :=
  fold_left (fun acc t =>
               match acc with
               | None => Some t
               | Some m => if String.leb m t then Some t else Some m
               end) l None.

Definition min_text (l : list string) : option string :=
  fold_left (fun acc t =>
               match acc with
               | None => Some t
               | Some m => if String.leb t m then Some t else Some m
               end) l None.

(** [DISTINCT]: each text once, where it comes first. *)
Fixpoint distinct (seen l : list string) : list string :=
  match l with
  | [] => []
  | t :: l' =>
      if existsb (String.eqb t) seen then distinct seen l'
      else t :: distinct (t :: seen) l'
  end.

(** [GROUP_CONCAT(DISTINCT deal_stage)]: NULL over no row, else the texts
    with commas between them. *)
Definition group_concat (l : list string) : option string :=
  match distinct [] l with
  | [] => None
  | texts => Some (String.concat "," texts)
  end.

(** [Database.get_client_stats]. *)
Definition get_client_stats (st : Store) (client_id : nat) : ClientStats :=
  let rows := List.filter (fun r => int_client_id r =? client_id)
                          (interactions st) in
  let stages := group_concat (map int_deal_stage rows) in
  mkClientStats (length rows)
                (max_text (map int_date rows))
                (min_text (map int_date rows))
                (if Py.truthy stages
                 then Py.split "," (default EmptyString stages)
                 else []).

(** SQLite's [date('now')] and [date('now', '+N days')]: a day as year,
    month and day of the month, and its text YYYY-MM-DD. *)
Definition Day : Type := nat * nat * nat.

Definition next_day (t : Day) : Day :=
  let '(y, m, d) := t in
  if d <? Datetime.days_in_month y m then (y, m, S d)
  else if m <? 12 then (y, S m, 1)
  else (S y, 1, 1).

Definition plus_days (n : nat) (t : Day) : Day := Nat.iter n next_day t.

Definition pad (width : nat) (n : nat) : string :=
  let digits := Py.str_of_nat n in
  Nat.iter (width - String.length digits) (String "0") digits.

Definition date_text (t : Day) : string :=
  let '(y, m, d) := t in pad 4 y ++ "-" ++ pad 2 m ++ "-" ++ pad 2 d.

(** SQL [x <= y] on a column that may be NULL and a text. *)
Definition text_le (x : option string) (y : string) : bool :=
  match x with Some s => String.leb s y | None => false end.

Definition text_ge (x : option string) (y : string) : bool :=
  match x with Some s => String.leb y s | None => false end.

(** [Database.get_interactions_needing_followup] for a count of days that
    is not negative; [today] is the day SQLite reads from the clock, [now]
    what [datetime.now()] reads. *)
Definition get_interactions_needing_followup (db : Tables) (days : nat)
    (today : Day) (now : Timestamp) : Failure + list (Interaction * Client) :=
  let due :=
    List.filter
      (fun r : InteractionRow * ClientRow =>
         text_le (int_followup_date (fst r)) (date_text (plus_days days today))
         && text_ge (int_followup_date (fst r)) (date_text today)
         && negb (existsb (fun f => fu_interaction_id f =? int_id (fst r))
                          (followups db)))
      (join_clients active (store db)) in
  let rows := order_by
                (fun x y => String.leb
                              (default EmptyString (int_followup_date (fst x)))
                              (default EmptyString (int_followup_date (fst y))))
                due in
  match build_all (pair_of row_email now) rows with
  | inl e => inl (Database_error_validation e)
  | inr results => inr results
  end.

End Reports.

(** ** prompts.py: the follow-up prompts *)
Module FollowUpPrompts.

Definition nl : string := Prompts.nl.

(** [EMAIL_FOLLOWUP.format(..)], the template cut at its placeholders. *)
Definition email_prompt (client_name company history summary deal_stage
    interest_level next_action objections : string) : string :=
  "You are a professional sales copywriter. Write a follow-up email based on the interaction details."
  ++ nl ++ nl ++ "CLIENT: " ++ client_name
  ++ nl ++ "COMPANY: " ++ company
  ++ nl ++ "HISTORY:" ++ nl ++ history
  ++ nl ++ nl ++ "CURRENT INTERACTION:" ++ nl ++ summary
  ++ nl ++ "Deal Stage: " ++ deal_stage
  ++ nl ++ "Interest Level: " ++ interest_level
  ++ nl ++ "Next Action: " ++ next_action
  ++ nl ++ "Objections: " ++ objections
  ++ nl ++ nl
  ++ String.concat nl
  [ "Write a professional, personalized follow-up email that:";
    "1. References specific points from the conversation";
    "2. Addresses any objections if present";
    "3. Confirms the next action";
    "4. Maintains appropriate tone for the interest level (hot=urgent, warm=friendly, cold=gentle, neutral=professional)";
    "5. Is 3-5 paragraphs max";
    "6. Includes professional signature";
    EmptyString;
    "Return ONLY the email body text, no subject line, no markdown formatting." ].

(** [MESSAGE_FOLLOWUP.format(..)]. *)
Definition message_prompt (client_name summary next_action interest_level : string)
    : string :=
  "You are a sales assistant writing a WhatsApp/SMS follow-up. Create a short, casual message."
  ++ nl ++ nl ++ "CLIENT: " ++ client_name
  ++ nl ++ "CONTEXT: " ++ summary
  ++ nl ++ "NEXT ACTION: " ++ next_action
  ++ nl ++ "INTEREST LEVEL: " ++ interest_level
  ++ nl ++ nl
  ++ String.concat nl
  [ "Write a brief WhatsApp-style message (2-4 sentences) that:";
    "- Is conversational and friendly";
    "- References the discussion";
    "- Confirms next steps";
    "- Uses appropriate urgency based on interest level";
    "- No formal salutation or signature needed";
    "- Under 300 characters if possible, max 500";
    EmptyString;
    "Return ONLY the message text." ].

(** What [format] writes for a value that is a text or None. *)
Definition text_of (v : option string) : string := default "None" v.

(** [Prompts.get_email_prompt]. *)
Definition get_email_prompt (client_name : string) (company : option string)
    (history : string) (summary deal_stage interest_level next_action : option string)
    (objections : option string) : string :=
  let objections_str :=
    if Py.truthy objections
       && Py.nonempty (Py.strip (default EmptyString objections))
    then default EmptyString objections else "None" in
  email_prompt client_name
               (if Py.truthy company then default EmptyString company else "Unknown")
               history (text_of summary) (text_of deal_stage) (text_of interest_level)
               (text_of next_action) objections_str.

(** [Prompts.get_message_prompt]. *)
Definition get_message_prompt (client_name : string)
    (summary next_action interest_level : option string) : string :=
  message_prompt client_name (text_of summary) (text_of next_action)
                 (text_of interest_level).

End FollowUpPrompts.

(** ** ai_followup.py *)
Module AiFollowup.
Import Database.

(** models.FollowUpContent. *)
Record FollowUpContent : Type := mkFollowUpContent {
  email_text : string;
  message_text : string
}.

(** What [generate] can raise: the ValueError for a client that is not
    found or for a provider it does not know, the RuntimeError of a call
    of the model, the ValidationError of FollowUpContent with the fields
    that are too short, and the DatabaseError of a lookup of the client. *)
Inductive Error : Type :=
| Client_not_found (client_id : nat)
| Unknown_provider (provider : string)
| RuntimeError (backend what : string)
| ValidationError (fields : list (string * nat))
| Lookup_failure (failure : Failure).

(** The generation calls made so far, oldest first. *)
Definition World : Type := AiCrm.World.

Definition G (A : Type) : Type := World -> (Error + A) * World.

Definition ret {A : Type} (x : A) : G A := fun w => (inr x, w).
Definition raise {A : Type} (e : Error) : G A := fun w => (inl e, w).
Definition bind {A B : Type} (m : G A) (k : A -> G B) : G B :=
  fun w => match m w with
           | (inr x, w') => k x w'
           | (inl e, w') => (inl e, w')
           end.

(** [crm_data.get(key, default)] on a dict whose values are texts or None. *)
Definition dict_get (crm_data : gmap string (option string)) (key : string)
    (default_value : option string) : option string :=
  match crm_data !! key with
  | Some v => v
  | None => default_value
  end.

(** [FollowUpContent(email_text=.., message_text=..)]: the email has at least
    20 characters, the message at least 10. *)
Definition FollowUpContent_init (email message : string)
    : list (string * nat) + FollowUpContent :=
  match (if String.length email <? 20 then [("email_text", 20)] else [])
        ++ (if String.length message <? 10 then [("message_text", 10)] else []) with
  | [] => inr (mkFollowUpContent email message)
  | errors => inl errors
  end%list.

Section Generator.
(** [self.provider]. *)
Variable provider : string.

(** The generation capability: what the backend answers to a prompt, given
    the calls made before. *)
Variable respond : World -> string -> string -> string + string.

(** What goes wrong, if anything, when the transformers model is loaded. *)
Variable loading : World -> option string.

(** [self._call_ollama] and [self._call_llama_cpp]: the answer stripped;
    every exception becomes a RuntimeError. *)
Definition _call (backend prompt : string) : G string :=
  fun w =>
    (match respond w backend prompt with
     | inl what => inl (RuntimeError backend what)
     | inr text => inr (Py.strip text)
     end,
     (w ++ [(backend, prompt)])%list).

(** [self._call_transformers]: once the model is loaded the name [pipeline]
    is looked up; the module does not import it, so the NameError is raised
    before [self._generator] is set, on every call, and becomes a
    RuntimeError; nothing is generated. *)
Definition _call_transformers (prompt : string) : G string :=
  fun w =>
    (inl (RuntimeError "transformers"
            (match loading w with
             | Some what => what
             | None => "name 'pipeline' is not defined"
             end)),
     w).

(** [self._call_llm]. *)
Definition _call_llm (prompt : string) : G string :=
  if String.eqb provider "ollama" then _call "ollama" prompt
  else if String.eqb provider "transformers" then _call_transformers prompt
  else if String.eqb provider "llama_cpp" then _call "llama_cpp" prompt
  else raise (Unknown_provider provider).

(** [FollowUpGenerator.generate]. *)
Definition generate (st : Store) (client_id : nat)
    (crm_data : gmap string (option string)) : G FollowUpContent :=
  match get_client st client_id with
  | inl failure => raise (Lookup_failure failure)
  | inr None => raise (Client_not_found client_id)
  | inr (Some client) =>
      match Memory.get_context_for_ai st client_id 3 with
      | inl failure => raise (Lookup_failure failure)
      | inr history =>
      let summary := dict_get crm_data "summary" (Some EmptyString) in
      let deal_stage := dict_get crm_data "deal_stage" (Some "prospecting") in
      let interest_level := dict_get crm_data "interest_level" (Some "neutral") in
      let next_action := dict_get crm_data "next_action" (Some "Follow up") in
      let objections := dict_get crm_data "objections" None in
      let email_prompt :=
        FollowUpPrompts.get_email_prompt (name client) (company client) history
          summary deal_stage interest_level next_action objections in
      bind (_call_llm email_prompt) (fun email_text =>
      let message_prompt :=
        FollowUpPrompts.get_message_prompt (name client) summary next_action
                                           interest_level in
      bind (_call_llm message_prompt) (fun message_text =>
      match FollowUpContent_init email_text message_text with
      | inl fields => raise (ValidationError fields)
      | inr content => ret content
      end))
      end
  end.

End Generator.

End AiFollowup.

(** ** Python floats: IEEE 754 binary64 *)
Module Float64.

Local Open Scope Z_scope.

(** A float is the rational number it stands for.  An operation on floats
    returns the float nearest to the exact result, the one with the even
    significand when two are equally near: [round] maps a rational to that
    float.  The significand has 53 bits; the range of the exponent is not
    limited here, as the scores computed below stay within the range of
    binary64 for every text of fewer than 2^1000 characters. *)

(** The largest [d] with [2 ^ d <= p / q], for [p] and [q] above 0. *)
Definition ilog2 (p q : Z) : Z :=
  let d := Z.log2 p - Z.log2 q in
  if 0 <=? d
  then (if q * 2 ^ d <=? p then d else d - 1)
  else (if q <=? p * 2 ^ (- d) then d else d - 1).

(** The integer nearest to [a / b], the even one at a tie. *)
Definition round_half_even (a b : Z) : Z :=
  let k := a / b in
  match 2 * (a mod b) ?= b with
  | Lt => k
  | Gt => k + 1
  | Eq => if Z.even k then k else k + 1
  end.

(** [p / q] is written [m * 2 ^ e] with [2 ^ 52 <= m < 2 ^ 53], and [m] is
    rounded to an integer. *)
Definition round_pos (p q : Z) : Q :=
  let e := ilog2 p q - 52 in
  if 0 <=? e
  then inject_Z (round_half_even p (q * 2 ^ e) * 2 ^ e)
  else Qred (round_half_even (p * 2 ^ (- e)) q # Z.to_pos (2 ^ (- e))).

Definition round (x : Q) : Q :=
  match Qnum x with
  | Z0 => 0%Q
  | Zpos p => round_pos (Zpos p) (Zpos (Qden x))
  | Zneg p => Qopp (round_pos (Zpos p) (Zpos (Qden x)))
  end.

(** [float(n)] of an int, as in [2.0 * n] and [x / n]. *)
Definition of_nat (n : nat) : Q := round (inject_Z (Z.of_nat n)).

(** [x * y], [x + y] and [x / y] on floats. *)
Definition mul (x y : Q) : Q := round (x * y).
Definition add (x y : Q) : Q := round (x + y).
Definition div (x y : Q) : Q := round (x / y).

End Float64.

(** ** database.py: the duplicate scores as floats *)
Module DuplicateScores.
Import Database.

(** [Database] above computes the scores of the duplicate detector in
    exact arithmetic.  Here the detector is given once more with the
    arithmetic of the code, every operation rounded as a float operation
    is; the two differ where the rounding moves a score across the
    threshold. *)

(** The literals [0.7] and [0.3]. *)
Definition lit_0_7 : Q := Float64.round (7 # 10).
Definition lit_0_3 : Q := Float64.round (3 # 10).

(** [SequenceMatcher.ratio()]: [2.0 * matches / length], and [1.0] when
    the length is 0. *)
Definition ratio (a b : list ascii) : Q :=
  let length := length a + length b in
  if length =? 0 then 1%Q
  else Float64.div (Float64.mul 2 (Float64.of_nat (Difflib.matches a b)))
                   (Float64.of_nat length).

(** [_calculate_similarity]. *)
Definition _calculate_similarity (str1 str2 : option string) : Q :=
  match str1, str2 with
  | Some s1, Some s2 =>
      if negb (Py.nonempty s1) || negb (Py.nonempty s2) then 0%Q
      else Float64.mul (ratio (list_ascii_of_string (Py.lower s1))
                              (list_ascii_of_string (Py.lower s2))) 100
  | _, _ => 0%Q
  end.

(** The body of the [for row in rows] loop up to the threshold test. *)
Definition score_row (name : string) (email company : option string)
    (row : ClientRow) : Scores :=
  let name_sim := _calculate_similarity (Some name) (Some (row_name row)) in
  let both_emails := Py.truthy email && Py.truthy (row_email row) in
  let matched :=
    both_emails &&
    match email, row_email row with
    | Some e, Some e' => String.eqb (Py.lower e) (Py.lower e')
    | _, _ => false
    end in
  let email_sim :=
    if matched then None
    else if both_emails then Some (_calculate_similarity email (row_email row))
    else None in
  let company_sim :=
    if Py.truthy company && Py.truthy (row_company row)
    then _calculate_similarity company (row_company row) else 0%Q in
  let total :=
    if matched then 100%Q
    else Float64.add (Float64.mul name_sim lit_0_7)
                     (Float64.mul company_sim lit_0_3) in
  mkScores (row_id row) (row_name row) (row_company row) (row_email row)
           name_sim matched company_sim total email_sim.

(** [total_score >= DUPLICATE_SIMILARITY_THRESHOLD or email_match]: a float
    and an int are compared by their values. *)
Definition over_threshold (s : Scores) : bool :=
  Qle_bool Config.DUPLICATE_SIMILARITY_THRESHOLD (total_score s) || email_match s.

Fixpoint scan_clients (name : string) (email company : option string)
    (rows : list ClientRow) : list Scores :=
  match rows with
  | [] => []
  | row :: rows' =>
      if negb (active row) then scan_clients name email company rows'
      else
        let scores := score_row name email company row in
        if over_threshold scores
        then scores :: scan_clients name email company rows'
        else scan_clients name email company rows'
  end.

(** [Database.find_potential_duplicates]; the sort is [sorted_desc] of
    above. *)
Definition find_potential_duplicates (st : Store) (name : string)
    (email company : option string) : list Scores :=
  sorted_desc (scan_clients name email company (List.filter active (clients st))).

End DuplicateScores.
(* ===================================================================== *)
(** * Part II: the notions the properties are stated with *)
(* ===================================================================== *)

(** ** The record store *)
Module DatabaseSpec.
Import Database.

(** The primary key: no two rows share an id. *)
Definition ids_unique (st : Store) : Prop := List.NoDup (map row_id (clients st)).

(** AUTOINCREMENT: no row carries an id above the counter. *)
Definition seq_bounds (st : Store) : Prop :=
  Forall (fun r => row_id r <= clients_seq st) (clients st).

Definition empty_store : Store := mkStore [] 0 [].

(** A row written from a ClientCreate that passed its field checks: the
    name has 1 to 100 characters, company and email at most 100. *)
Definition fits (limit : nat) (v : option string) : bool :=
  match v with Some s => String.length s <=? limit | None => true end.

Definition row_fits (row : ClientRow) : bool :=
  (1 <=? String.length (row_name row)) && (String.length (row_name row) <=? 100)
  && fits 100 (row_company row) && fits 100 (row_email row).

Definition clients_fit (st : Store) : Prop :=
  Forall (fun row => row_fits row = true) (clients st).

Definition deleted_row : ClientRow :=
  mkClientRow 1 "Sarah Jones" None (Some "sarah@acme.com") "2025-01-01 09:00:00"
              (Some false).

Definition store_with_deleted : Store := mkStore [deleted_row] 1 [].

Definition active_row : ClientRow :=
  mkClientRow 1 "Sarah Jones" (Some "Acme") (Some "sarah@acme.com")
              "2025-01-01 09:00:00" (Some true).

Definition store_with_active : Store := mkStore [active_row] 1 [].

(** The claim's reading of an email match: the two emails are equal once
    case is folded. *)
Definition claimed_email_match (email : option string) (row : ClientRow) : bool :=
  match email, row_email row with
  | Some e, Some e' => String.eqb (Py.lower e) (Py.lower e')
  | _, _ => false
  end.

(** The reading that holds of the code: both emails are present and not
    empty, and equal once case is folded. *)
Definition present_email_match (email : option string) (row : ClientRow) : bool :=
  match email, row_email row with
  | Some e, Some e' =>
      Py.nonempty e && Py.nonempty e' && String.eqb (Py.lower e) (Py.lower e')
  | _, _ => false
  end.

(** The company similarity of the claim: 0 when either company is absent. *)
Definition company_part (company : option string) (row : ClientRow) : Q :=
  match company, row_company row with
  | Some c, Some c' => _calculate_similarity (Some c) (Some c')
  | _, _ => 0%Q
  end.

(** The total score of the claim, for a given reading of the email match. *)
Definition expected_total (matches : option string -> ClientRow -> bool)
    (name : string) (email company : option string) (row : ClientRow) : Q :=
  if matches email row then 100%Q
  else (0.7 * _calculate_similarity (Some name) (Some (row_name row))
        + 0.3 * company_part company row)%Q.

(** The records the claim wants returned. *)
Definition expected_selected (matches : option string -> ClientRow -> bool)
    (name : string) (email company : option string) (row : ClientRow) : bool :=
  active row
  && (Qle_bool 85 (expected_total matches name email company row)
      || matches email row).

(** Larger total scores first. *)
Definition score_ge (x y : Scores) : Prop := (total_score y <= total_score x)%Q.

Definition blank_email_row : ClientRow :=
  mkClientRow 1 "Bob Stone" None (Some EmptyString) "2025-01-01 09:00:00" (Some true).

Definition store_blank_email : Store := mkStore [blank_email_row] 1 [].

Definition jon_row : ClientRow :=
  mkClientRow 1 "Jon Smith" (Some "Acme") None "2025-01-01 09:00:00" (Some true).

Definition store_jon : Store := mkStore [jon_row] 1 [].

End DatabaseSpec.

(** ** The client context *)
Module MemorySpec.
Import Database DatabaseSpec.

(** Newest first. *)
Definition newer_or_same (x y : InteractionRow) : Prop :=
  String.leb (int_date y) (int_date x) = true.

Definition visit (n : nat) (day stage : string) : InteractionRow :=
  mkInteractionRow n 1 (day ++ " 10:00:00") "We talked about the offer."
                   "Talked about the offer" stage None "warm" "Call again" None.

Definition store_with_history : Store :=
  mkStore [active_row] 1
          [visit 1 "2025-01-05" "prospecting"; visit 2 "2025-01-12" "qualification";
           visit 3 "2025-01-19" "proposal"; visit 4 "2025-01-26" "negotiation"].

End MemorySpec.

(** ** The validator *)
Module ModelsSpec.
Import Json Models.

(** The claim's reading of an empty objection: the text, case folded, is
    one of the four. *)
Definition claimed_no_objection (v : string) : bool :=
  existsb (String.eqb (Py.lower v)) ["none"; "n/a"; "no objections"; EmptyString].

(** The reading that holds of the code: the text, stripped of the white
    space around it and case folded, is one of the four. *)
Definition stripped_no_objection (v : string) : bool :=
  existsb (String.eqb (Py.lower (Py.strip v)))
          ["none"; "n/a"; "no objections"; EmptyString].

(** The fields of the validator example of the specification, with a given
    objections value and follow-up date. *)
Definition example_data (objections followup_date : json) : gmap string json :=
  <["summary" := JStr "Discussed pricing options in detail"]>
  (<["deal_stage" := JStr "proposal"]>
  (<["objections" := objections]>
  (<["interest_level" := JStr "warm"]>
  (<["next_action" := JStr "Send proposal Friday"]>
  (<["followup_date" := followup_date]> ∅))))).

Definition example_record (objections followup_date : option string) : CRMData :=
  mkCRMData "Discussed pricing options in detail" PROPOSAL objections WARM
            "Send proposal Friday" followup_date.

(** A date written YYYY-MM-DD: four digits, a dash, two digits, a dash, two
    digits, naming a day of the calendar. *)
Definition iso_calendar_date (s : string) : bool :=
  match s with
  | String y1 (String y2 (String y3 (String y4 (String d1
      (String m1 (String m2 (String d2 (String a1 (String a2 EmptyString))))))))) =>
      let year := ((Datetime.val y1 * 10 + Datetime.val y2) * 10 + Datetime.val y3) * 10
                  + Datetime.val y4 in
      let month := Datetime.val m1 * 10 + Datetime.val m2 in
      let day := Datetime.val a1 * 10 + Datetime.val a2 in
      forallb is_digit [y1; y2; y3; y4; m1; m2; a1; a2]
      && Datetime.is_dash d1 && Datetime.is_dash d2
      && (1 <=? year) && (1 <=? month) && (month <=? 12)
      && (1 <=? day) && (day <=? Datetime.days_in_month year month)
  | _ => false
  end.

(** A JSON member ["key":"text"]. *)
Definition member (key text : string) : string :=
  Prompts.q ++ key ++ Prompts.q ++ ":" ++ Prompts.q ++ text ++ Prompts.q.

Definition short_date_input : string :=
  "{" ++ member "summary" "Discussed pricing options in detail" ++ ","
  ++ member "deal_stage" "proposal" ++ ","
  ++ member "interest_level" "warm" ++ ","
  ++ member "next_action" "Send proposal Friday" ++ ","
  ++ member "followup_date" "2025-3-1" ++ "}".

(** The validator example of the specification. *)
Definition example_object : string :=
  "{" ++ member "summary" "Discussed pricing options in detail" ++ ","
  ++ member "deal_stage" "proposal" ++ ","
  ++ member "objections" "none" ++ ","
  ++ member "interest_level" "warm" ++ ","
  ++ member "next_action" "Send proposal Friday" ++ ","
  ++ member "followup_date" "2025-03-10" ++ "}".

(** The same object with another objections text and no follow-up date. *)
Definition object_with_objections (objections : string) : string :=
  "{" ++ member "summary" "Discussed pricing options in detail" ++ ","
  ++ member "deal_stage" "proposal" ++ ","
  ++ member "objections" objections ++ ","
  ++ member "interest_level" "warm" ++ ","
  ++ member "next_action" "Send proposal Friday" ++ "}".

(** The same object with another deal stage and follow-up date. *)
Definition variant_object (deal_stage followup_date : string) : string :=
  "{" ++ member "summary" "Discussed pricing options in detail" ++ ","
  ++ member "deal_stage" deal_stage ++ ","
  ++ member "interest_level" "warm" ++ ","
  ++ member "next_action" "Send proposal Friday" ++ ","
  ++ member "followup_date" followup_date ++ "}".

Definition example_raw : string :=
  "Here is the data:" ++ Prompts.nl ++ "```json" ++ Prompts.nl ++ example_object
  ++ Prompts.nl ++ "```".

End ModelsSpec.

(** ** Cutting a text at a separator *)
Module PySpec.
Import Py.

(** The text before and the text after the first occurrence of [sep]. *)
Fixpoint cut (sep s : string) : option (string * string) :=
  if String.prefix sep s then Some (EmptyString, drop_str (String.length sep) s)
  else match s with
       | EmptyString => None
       | String c s' =>
           match cut sep s' with
           | Some (before, after) => Some (String c before, after)
           | None => None
           end
       end.

(** The text before the first occurrence of [sep]; all of the text when
    [sep] does not occur. *)
Definition before_first (sep s : string) : string :=
  match cut sep s with
  | Some (before, _) => before
  | None => s
  end.

End PySpec.

(** ** The cleaning step and the pipeline *)
Module AiCrmSpec.
Import Models AiCrm.

Fixpoint has_char (c : ascii) (s : string) : bool :=
  match s with
  | EmptyString => false
  | String x s' => Ascii.eqb x c || has_char c s'
  end.

(** Step 2 of the validator on a text [t]: the object from the first opening
    brace to the last closing brace, with whatever commentary stands before
    and after it dropped; the stripped text when there is no such pair of
    braces. *)
Inductive object_of (t : string) : string -> Prop :=
| object_found lead inner trail :
    t = lead ++ String lbrace (inner ++ String rbrace trail) ->
    has_char lbrace lead = false -> has_char rbrace trail = false ->
    object_of t (String lbrace (inner ++ String rbrace EmptyString))
| object_missing :
    (forall lead inner trail,
        t <> lead ++ String lbrace (inner ++ String rbrace trail)) ->
    object_of t (Py.strip t).

(** Step 1 of the validator on a raw text: the body of the first fence.
    For a text with a fence tagged [json], the text after the first tag, cut
    at the next tag and then at the first fence; else, for a text with a
    fence, the text after the first fence, cut at the next; else the text
    itself. *)
Definition fence_body (raw : string) : string :=
  match PySpec.cut fence_json raw with
  | Some (_, after) =>
      PySpec.before_first fence (PySpec.before_first fence_json after)
  | None =>
      match PySpec.cut fence raw with
      | Some (_, after) => PySpec.before_first fence after
      | None => raw
      end
  end.

(** No occurrence of the marker [marker0 ++ z] begins inside [pre],
    whatever follows. *)
Definition none_begins (marker0 : string) (z : ascii) (pre : string) : Prop :=
  Py.contains (marker0 ++ String z EmptyString) (pre ++ marker0) = false.

Definition json_tag_n : ascii := ascii_of_nat 110.
Definition backtick : ascii := ascii_of_nat 96.

Definition known_provider (provider : string) : Prop :=
  provider = "ollama" \/ provider = "transformers" \/ provider = "llama_cpp".

(** Step 3 of the pipeline on a raw output. *)
Definition validated (coerce_str : Json.json -> option string)
    (json_loads : string -> Json.JSONDecodeError + Json.json)
    (raw_output : string) : ValueError + CRMData :=
  validate_json_output coerce_str json_loads (_clean_json_response raw_output).

(** A model that answers every prompt with the same text. *)
Definition always (text : string) : World -> string -> string -> string + string :=
  fun _ _ _ => inr text.

(** A model whose first answer is [first] and whose later answers are
    [later]. *)
Definition first_then (first later : string)
    : World -> string -> string -> string + string :=
  fun w _ _ => match w with [] => inr first | _ => inr later end.

(** The claim's reading of the failure: the last raw output can be read off
    the error that [extract] raises when both attempts fail validation. *)
Definition error_carries_last_output (raw_of : Error -> string) : Prop :=
  forall respond conversation context raw1 raw2 e w,
    respond [] "ollama" (Prompts.get_crm_prompt conversation context) = inr raw1 ->
    respond [("ollama", Prompts.get_crm_prompt conversation context)] "ollama"
            (Prompts.get_crm_prompt conversation context ++ retry_directive)
    = inr raw2 ->
    extract coerce_v1 Json.loads "ollama" respond conversation context [] = (inl e, w) ->
    raw_of e = raw2.

End AiCrmSpec.

(** ** The sequence matcher *)
Module DifflibSpec.
Import Difflib.

(** A row of the table after [n] rows: no length exceeds the number of
    rows, nor the room to the left of its column. *)
Definition row_ok (blo n : nat) (m : gmap nat nat) : Prop :=
  forall j v, m !! j = Some v -> v <= n /\ v + blo <= j + 1.

(** The best block after [n] rows. *)
Definition best_ok (alo blo bhi n : nat) (m : Match) : Prop :=
  let '(i, j, k) := m in
  alo <= i /\ blo <= j /\ i + k <= alo + n /\ j + k <= bhi.

(** The block lies inside the two ranges. *)
Definition inside (alo blo bhi ahi : nat) (m : Match) : Prop :=
  let '(i, j, k) := m in
  alo <= i /\ blo <= j /\ i + k <= ahi /\ j + k <= bhi.


Definition ordered (q : Range) : Prop :=
  let '(alo, ahi, blo, bhi) := q in alo <= ahi /\ blo <= bhi.

Definition total (l : list Match) : nat := list_sum (map size l).

(** The turns of the work loop a range can still cause. *)
Definition weight (q : Range) : nat :=
  let '(alo, ahi, _, _) := q in 2 * (ahi - alo) + 1.

(** The character of [a] at [j] is in [b2j] when [a] is matched against
    itself. *)
Definition kept (a : list ascii) (j : nat) : bool :=
  match a !! j with
  | Some c => negb (popular a c)
  | None => false
  end.

(** The number of kept characters in a row that ends at [j]. *)
Fixpoint run (a : list ascii) (j : nat) : nat :=
  match j with
  | 0 => if kept a 0 then 1 else 0
  | S j' => if kept a (S j') then S (run a j') else 0
  end.

Definition run_before (a : list ascii) (j : nat) : nat :=
  match j with
  | 0 => 0
  | S j' => run a j'
  end.

(** The row handed to row [i]: no length exceeds the run that ends where
    the row or the column does, and the diagonal holds the run. *)
Definition prev_ok (a : list ascii) (i : nat) (m : gmap nat nat) : Prop :=
  (forall j v, m !! j = Some v -> v <= run_before a i /\ v <= run a j)
  /\ (forall i', i = S i' -> kept a i' = true -> m !! i' = Some (run a i')).

(** The best block before row [i]: on the diagonal, and at least as long
    as every run met so far. *)
Definition diag_ok (a : list ascii) (i : nat) (best : Match) : Prop :=
  let '(bi, bj, bk) := best in
  bi = bj /\ bi + bk <= i /\ forall i', i' < i -> run a i' <= bk.

(** The entries a row adds for the columns [js]. *)
Definition fill (m : gmap nat nat) (js : list nat) (newm : gmap nat nat)
    : gmap nat nat :=
  fold_left (fun acc j => <[j := j2len_get m j + 1]> acc) js newm.

End DifflibSpec.


(** ** Further notions on the record store *)
Module StoreSpec.
Import Database DatabaseSpec.

(** The order of the client list: newer creation times first. *)
Definition newest_first (c c' : Client) : Prop :=
  String.leb (created_at c') (created_at c) = true.

Definition newest_row_first (r r' : ClientRow) : Prop :=
  String.leb (row_created_at r') (row_created_at r) = true.

(** SQL [is_active = 0]: the rows a soft delete has marked. *)
Definition soft_deleted (row : ClientRow) : bool := negb (active row).

Definition new_sarah : ClientCreate :=
  mkClientCreate "Sarah Jones" (Some "Acme") (Some "sarah@acme.com").

Definition shouting_sarah : ClientCreate :=
  mkClientCreate "S. Jones" None (Some "SARAH@ACME.COM").

End StoreSpec.

(** ** Further notions on the client context *)
Module MemoryViewsSpec.
Import Database Memory MemoryViews.

(** The order of the timeline: older dates first. *)
Definition older_or_same (x y : TimelineEntry) : Prop :=
  String.leb (t_date x) (t_date y) = true.

(** The interactions stored for a client. *)
Definition of_client (st : Store) (client_id : nat) (r : InteractionRow) : Prop :=
  In r (interactions st) /\ int_client_id r = client_id.

(** The message of the ValueError for a client that is not found. *)
Definition not_found (client_id : nat) : MemError :=
  ValueError ("Client " ++ Py.str_of_nat client_id ++ " not found").

End MemoryViewsSpec.

(** ** Further inputs of the validator *)
Module ValidatorExamples.
Import ModelsSpec.

(** An object with a summary of nine characters and no next action. *)
Definition short_summary_object : string :=
  "{" ++ member "summary" "Too short" ++ ","
  ++ member "deal_stage" "proposal" ++ ","
  ++ member "interest_level" "warm" ++ "}".

End ValidatorExamples.

(** ** Notions on the further tables *)
Module RecordsSpec.
Import Database Records Reports DatabaseSpec.

(** An interaction written from an InteractionCreate that passed its field
    check: the raw text has at least 10 characters. *)
Definition raw_texts_fit (st : Store) : Prop :=
  Forall (fun i => 10 <= String.length (int_raw_text i)) (interactions st).

(** A query with no wildcard of LIKE in it. *)
Fixpoint wildcard_free (query : string) : bool :=
  match query with
  | EmptyString => true
  | String c query' =>
      negb (Ascii.eqb c Sqlite.percent) && negb (Ascii.eqb c Sqlite.underscore)
      && wildcard_free query'
  end.

(** The query is part of the text, the case of ASCII letters apart. *)
Definition part_of (query text : string) : bool :=
  Py.contains (Sqlite.fold query) (Sqlite.fold text).

Definition part_of_null (query : string) (column : option string) : bool :=
  match column with Some text => part_of query text | None => false end.

(** The order of the search result: names ascending. *)
Definition name_le (c c' : Client) : Prop := String.leb (name c) (name c') = true.

(** AUTOINCREMENT on the further tables. *)
Definition interactions_bound (db : Tables) : Prop :=
  Forall (fun i => int_id i <= interactions_seq db) (interactions (store db)).

Definition followups_bound (db : Tables) : Prop :=
  Forall (fun f => fu_id f <= followups_seq db) (followups db).

(** The rows of an interaction's client that a query lists. *)
Definition listed (keep : ClientRow -> bool) (st : Store) (i : InteractionRow) : bool :=
  existsb (fun c => (row_id c =? int_client_id i) && keep c) (clients st).

Definition anyone (c : ClientRow) : bool := true.

(** A follow-up whose interaction and client are stored, the client being
    one the query lists. *)
Definition followup_listed (include_inactive : bool) (db : Tables) : Prop :=
  exists f i c,
    In f (followups db) /\ In i (interactions (store db))
    /\ In c (clients (store db))
    /\ int_id i = fu_interaction_id f /\ row_id c = int_client_id i
    /\ (include_inactive || active c) = true.

(** The number of interactions in a stage whose client a query lists. *)
Definition in_stage (keep : ClientRow -> bool) (st : Store) (stage : string) : nat :=
  length (List.filter
            (fun i => String.eqb (int_deal_stage i) stage && listed keep st i)
            (interactions st)).

(** The store with the interactions of one client left out. *)
Definition without_interactions_of (client_id : nat) (st : Store) : Store :=
  mkStore (clients st) (clients_seq st)
          (List.filter (fun i => negb (int_client_id i =? client_id)) (interactions st)).

(** The record that the joined queries build for the client of a row. *)
Definition joined_client (email : ClientRow -> option string) (now : Timestamp)
    (i : InteractionRow) (c : ClientRow) : Client :=
  mkClient (int_client_id i) (row_name c) (row_company c) (email c) now.

End RecordsSpec.

(** ** Example tables *)
Module RecordsExamples.
Import Database Records DatabaseSpec MemorySpec.

Definition tables_with_history : Tables := mkTables store_with_history 4 [] 0.

Definition new_visit : InteractionCreate :=
  mkInteractionCreate 1 "We agreed on the price." "Agreed on the price" "closed_won"
                      None "hot" "Send the contract" (Some "2025-02-03").

Definition thanks : FollowUpRow := mkFollowUpRow 1 4 "Thank you for your time today." "Thanks!".

Definition tables_with_followup : Tables :=
  mkTables store_with_history 4 [thanks] 1.

(** An interaction to follow up on 3 February 2025, and one whose date the
    validator let through with a month and a day of one digit. *)
Definition due_visit (n : nat) (followup_date : string) : InteractionRow :=
  mkInteractionRow n 1 "2025-01-26 10:00:00" "We talked about the offer."
                   "Talked about the offer" "proposal" None "warm" "Call again"
                   (Some followup_date).

Definition tables_with_due : Tables :=
  mkTables (mkStore [active_row] 1 [due_visit 1 "2025-02-03"; due_visit 2 "2025-2-3"])
           2 [] 0.

End RecordsExamples.

(** ** Notions on the follow-up generator *)
Module AiFollowupSpec.
Import Database AiFollowup.

(** The providers whose calls generate text. *)
Definition generating (provider : string) : Prop :=
  provider = "ollama" \/ provider = "llama_cpp".

(** The two prompts that [generate] sends for a client, the context text
    of the client and a dict. *)
Definition email_prompt_for (client : Client) (history : string)
    (crm_data : gmap string (option string)) : string :=
  FollowUpPrompts.get_email_prompt (name client) (company client) history
    (dict_get crm_data "summary" (Some EmptyString))
    (dict_get crm_data "deal_stage" (Some "prospecting"))
    (dict_get crm_data "interest_level" (Some "neutral"))
    (dict_get crm_data "next_action" (Some "Follow up"))
    (dict_get crm_data "objections" None).

Definition message_prompt_for (client : Client)
    (crm_data : gmap string (option string)) : string :=
  FollowUpPrompts.get_message_prompt (name client)
    (dict_get crm_data "summary" (Some EmptyString))
    (dict_get crm_data "next_action" (Some "Follow up"))
    (dict_get crm_data "interest_level" (Some "neutral")).

(** A model that answers every prompt with the same text. *)
Definition always (text : string) : World -> string -> string -> string + string :=
  fun _ _ _ => inr text.

Definition loads_fine : World -> option string := fun _ => None.

Definition deal : gmap string (option string) :=
  {[ "summary" := Some "Talked about the offer"; "next_action" := Some "Call again" ]}.

End AiFollowupSpec.

(** ** Notions on the duplicate scores *)
Module DuplicateScoresSpec.
Import Database DatabaseSpec.

(** The company similarity: 0 when either company is absent. *)
Definition company_part (company : option string) (row : ClientRow) : Q :=
  match company, row_company row with
  | Some c, Some c' => DuplicateScores._calculate_similarity (Some c) (Some c')
  | _, _ => 0%Q
  end.

(** The weighted sum as floats give it: each product is rounded, then the
    sum. *)
Definition weighted (name_similarity company_similarity : Q) : Q :=
  Float64.add (Float64.mul name_similarity (Float64.round (7 # 10)))
              (Float64.mul company_similarity (Float64.round (3 # 10))).

(** The total score that holds of the code. *)
Definition rounded_total (name : string) (email company : option string)
    (row : ClientRow) : Q :=
  if present_email_match email row then 100%Q
  else weighted (DuplicateScores._calculate_similarity (Some name) (Some (row_name row)))
                (company_part company row).

(** The records returned. *)
Definition selected (name : string) (email company : option string)
    (row : ClientRow) : bool :=
  active row
  && (Qle_bool 85 (rounded_total name email company row)
      || present_email_match email row).

Definition smyth_row : ClientRow :=
  mkClientRow 1 "John Smyth" (Some "Acme Widget Company") None
              "2025-01-01 09:00:00" (Some true).

Definition store_smyth : Store := mkStore [smyth_row] 1 [].

End DuplicateScoresSpec.
(* ===================================================================== *)
(** * Part III: properties *)
(* ===================================================================== *)

(** ** The record store *)
Module DatabaseProofs.
Import Database DatabaseSpec.

Lemma row_id_set_active flag i r : row_id (set_active flag i r) = row_id r.
Proof. unfold set_active. destruct (row_id r =? i); reflexivity. Qed.



Lemma map_row_id_set_active flag i l :
  map row_id (map (set_active flag i) l) = map row_id l.
Proof.
  induction l as [|r l IH]; simpl; [reflexivity|].
  now rewrite row_id_set_active, IH.
Qed.


Lemma set_active_other flag i r : row_id r <> i -> set_active flag i r = r.
Proof.
  intros H. unfold set_active.
  destruct (Nat.eqb_spec (row_id r) i); [contradiction|reflexivity].
Qed.

(** With unique ids a lookup by id that also tests [p] finds the row of that
    id, or nothing when the row fails [p]. *)
Lemma find_by_id (p : ClientRow -> bool) l row :
  List.NoDup (map row_id l) -> In row l ->
  List.find (fun r => (row_id r =? row_id row) && p r) l
  = if p row then Some row else None.
Proof.
  induction l as [|a l IH]; simpl; intros Hnd Hin; [contradiction|].
  inversion Hnd as [|? ? Hnotin Hnd']; subst.
  destruct Hin as [->|Hin].
  - rewrite Nat.eqb_refl. simpl. destruct (p row) eqn:Hp; [reflexivity|].
    destruct (List.find _ l) as [x|] eqn:Hf; [|reflexivity].
    apply find_some in Hf as [Hx Hfx].
    apply andb_prop in Hfx as [Hid _]. apply Nat.eqb_eq in Hid.
    exfalso. apply Hnotin. rewrite <- Hid. now apply in_map.
  - destruct (Nat.eqb_spec (row_id a) (row_id row)) as [Heq|Hne]; simpl.
    + exfalso. apply Hnotin. rewrite Heq. now apply in_map.
    + now apply IH.
Qed.

Lemma In_insert_newest x y l : In y (insert_newest x l) <-> y = x \/ In y l.
Proof.
  induction l as [|a l IH]; simpl.
  - intuition.
  - destruct (String.leb _ _); simpl; [intuition|].
    rewrite IH. intuition.
Qed.

Lemma In_order_by_created_desc y l : In y (order_by_created_desc l) <-> In y l.
Proof.
  induction l as [|a l IH]; simpl; [reflexivity|].
  rewrite In_insert_newest, IH. intuition.
Qed.

(** A row that passes the field checks gives its Client. *)
Lemma Client_of_fits row :
  row_fits row = true -> Client_of row = inr (Client_of_row row).
Proof.
  unfold row_fits, Client_of, Client_init, Client_of_row, max_length, fits.
  intros H. apply andb_prop in H as [H He]. apply andb_prop in H as [H Hc].
  apply andb_prop in H as [H1 H2].
  apply Nat.leb_le in H1, H2.
  replace (String.length (row_name row) <? 1) with false
    by (symmetry; apply Nat.ltb_ge; lia).
  replace (100 <? String.length (row_name row)) with false
    by (symmetry; apply Nat.ltb_ge; lia).
  destruct (row_company row) as [c|], (row_email row) as [e|]; simpl;
    repeat match goal with
           | Hx : (String.length ?s <=? 100) = true |- _ =>
               apply Nat.leb_le in Hx;
               replace (100 <? String.length s) with false
                 by (symmetry; apply Nat.ltb_ge; lia)
           end; reflexivity.
Qed.

(** The Client that is built has the fields of the row. *)
Lemma Client_of_built row c : Client_of row = inr c -> c = Client_of_row row.
Proof.
  unfold Client_of, Client_init, Client_of_row.
  destruct (_ ++ _)%list; [|discriminate]. intros H. now inversion H.
Qed.

(** A row that fails a field check gives no Client. *)
Lemma Client_of_misfit row :
  row_fits row = false -> exists e, Client_of row = inl e.
Proof.
  intros H. destruct (Client_of row) as [e|c] eqn:Hc; [eauto|].
  exfalso. revert Hc H.
  unfold row_fits, Client_of, Client_init, max_length, fits.
  destruct (Nat.ltb_spec (String.length (row_name row)) 1) as [H1|H1];
    [discriminate|].
  destruct (Nat.ltb_spec 100 (String.length (row_name row))) as [H2|H2];
    [discriminate|].
  replace (1 <=? String.length (row_name row)) with true
    by (symmetry; apply Nat.leb_le; lia).
  replace (String.length (row_name row) <=? 100) with true
    by (symmetry; apply Nat.leb_le; lia).
  destruct (row_company row) as [co|]; simpl.
  - destruct (Nat.ltb_spec 100 (String.length co)) as [H3|H3]; [discriminate|].
    replace (String.length co <=? 100) with true
      by (symmetry; apply Nat.leb_le; lia).
    destruct (row_email row) as [em|]; simpl; [|discriminate].
    destruct (Nat.ltb_spec 100 (String.length em)) as [H4|H4]; [discriminate|].
    replace (String.length em <=? 100) with true
      by (symmetry; apply Nat.leb_le; lia).
    discriminate.
  - destruct (row_email row) as [em|]; simpl; [|discriminate].
    destruct (Nat.ltb_spec 100 (String.length em)) as [H4|H4]; [discriminate|].
    replace (String.length em <=? 100) with true
      by (symmetry; apply Nat.leb_le; lia).
    discriminate.
Qed.

Lemma build_all_fits rows :
  Forall (fun row => row_fits row = true) rows ->
  build_all Client_of rows = inr (map Client_of_row rows).
Proof.
  induction 1 as [|row rows Hrow _ IH]; simpl; [reflexivity|].
  now rewrite (Client_of_fits row Hrow), IH.
Qed.

Lemma build_all_built rows found :
  build_all Client_of rows = inr found -> found = map Client_of_row rows.
Proof.
  revert found. induction rows as [|row rows IH]; simpl; intros found H.
  - now inversion H.
  - destruct (Client_of row) as [e|c] eqn:Hc; [discriminate|].
    destruct (build_all Client_of rows) as [e|cs]; [discriminate|].
    inversion H; subst. now rewrite (Client_of_built row c Hc), (IH cs eq_refl).
Qed.

(** What [get_client] answers for a stored row. *)
Lemma get_client_stored st row :
  ids_unique st -> In row (clients st) ->
  get_client st (row_id row)
  = if active row
    then match Client_of row with
         | inl e => inl (Database_error_validation e)
         | inr c => inr (Some c)
         end
    else inr None.
Proof.
  intros Hnd Hin. unfold get_client.
  rewrite (find_by_id active _ row Hnd Hin).
  destruct (active row); reflexivity.
Qed.

Lemma get_client_fits st row :
  ids_unique st -> In row (clients st) -> row_fits row = true ->
  get_client st (row_id row)
  = inr (if active row then Some (Client_of_row row) else None).
Proof.
  intros Hnd Hin Hfit. rewrite (get_client_stored st row Hnd Hin).
  rewrite (Client_of_fits row Hfit). now destruct (active row).
Qed.

(** No active row of the id: [get_client] returns None. *)
Lemma get_client_none st client_id :
  (forall row, In row (clients st) -> row_id row = client_id -> active row = false) ->
  get_client st client_id = inr None.
Proof.
  intros H. unfold get_client.
  destruct (List.find _ (clients st)) as [r|] eqn:Hf; [|reflexivity].
  apply find_some in Hf as [Hin Hr]. apply andb_prop in Hr as [Hid Ha].
  apply Nat.eqb_eq in Hid. rewrite (H r Hin Hid) in Ha. discriminate.
Qed.

(** The list of clients, when every listed row passes the field checks. *)
Lemma get_all_clients_fit st include_inactive :
  clients_fit st ->
  get_all_clients st include_inactive
  = inr (map Client_of_row
             (order_by_created_desc
                (if negb include_inactive then List.filter active (clients st)
                 else clients st))).
Proof.
  intros Hfit. unfold get_all_clients. rewrite build_all_fits; [reflexivity|].
  unfold clients_fit in Hfit. rewrite List.Forall_forall in *.
  intros row Hin. apply (proj1 (In_order_by_created_desc _ _)) in Hin.
  apply Hfit. destruct include_inactive; simpl in Hin; [exact Hin|].
  now apply filter_In in Hin as [Hin _].
Qed.

(** A list of clients that is returned holds the records of the rows the
    query selects. *)
Lemma get_all_clients_built st include_inactive found :
  get_all_clients st include_inactive = inr found ->
  found = map Client_of_row
              (order_by_created_desc
                 (if negb include_inactive then List.filter active (clients st)
                  else clients st)).
Proof.
  unfold get_all_clients. destruct (build_all _ _) as [e|cs] eqn:Hb; [discriminate|].
  intros H. inversion H; subst. now apply build_all_built.
Qed.

(** The list of clients with [include_inactive] false holds the active rows
    and no other. *)
Lemma get_all_clients_active st found c :
  get_all_clients st false = inr found ->
  In c found
  <-> exists row, In row (clients st) /\ active row = true /\ c = Client_of_row row.
Proof.
  intros H. apply get_all_clients_built in H. subst found. simpl.
  rewrite in_map_iff. split.
  - intros (r & <- & Hr). apply (proj1 (In_order_by_created_desc _ _)) in Hr.
    apply filter_In in Hr as [Hr Ha]. eauto.
  - intros (r & Hr & Ha & ->). exists r. split; [reflexivity|].
    apply (proj2 (In_order_by_created_desc _ _)). apply filter_In. auto.
Qed.

(** The two invariants hold of the empty store and are kept by every
    operation on clients. *)
Lemma empty_store_ok : ids_unique empty_store /\ seq_bounds empty_store.
Proof. split; constructor. Qed.

Lemma insert_client_ok client now st :
  ids_unique st -> seq_bounds st ->
  ids_unique (snd (insert_client client now st))
  /\ seq_bounds (snd (insert_client client now st)).
Proof.
  unfold ids_unique, seq_bounds, insert_client. simpl. intros Hnd Hb. split.
  - rewrite map_app. simpl. apply List.NoDup_app; [assumption| |].
    + repeat constructor. intros [].
    + intros x Hx [<-|[]]. apply in_map_iff in Hx as (r & Hr & Hin).
      rewrite List.Forall_forall in Hb. specialize (Hb _ Hin). simpl in Hb. lia.
  - apply List.Forall_app. split.
    + eapply List.Forall_impl; [|exact Hb]. simpl. intros; lia.
    + repeat constructor.
Qed.

Lemma soft_delete_ok i st :
  ids_unique st -> seq_bounds st ->
  ids_unique (snd (delete_client i true st))
  /\ seq_bounds (snd (delete_client i true st)).
Proof.
  unfold ids_unique, seq_bounds, delete_client. simpl. intros Hnd Hb. split.
  - now rewrite map_row_id_set_active.
  - rewrite List.Forall_forall in *. intros x Hx.
    apply in_map_iff in Hx as (r & <- & Hr).
    rewrite row_id_set_active. now apply Hb.
Qed.

Lemma restore_ok i st :
  ids_unique st -> seq_bounds st ->
  ids_unique (snd (restore_client i st)) /\ seq_bounds (snd (restore_client i st)).
Proof.
  unfold ids_unique, seq_bounds, restore_client. simpl. intros Hnd Hb. split.
  - now rewrite map_row_id_set_active.
  - rewrite List.Forall_forall in *. intros x Hx.
    apply in_map_iff in Hx as (r & <- & Hr).
    rewrite row_id_set_active. now apply Hb.
Qed.

Lemma select_fresh i l row :
  ~ In i (map row_id l) -> row_id row = i ->
  select_by_id i (l ++ [row]) = Some row.
Proof.
  unfold select_by_id. intros Hfresh Hid.
  induction l as [|a l IH]; simpl.
  - rewrite Hid, Nat.eqb_refl. reflexivity.
  - destruct (Nat.eqb_spec (row_id a) i) as [Heq|Hne].
    + exfalso. apply Hfresh. left. exact Heq.
    + apply IH. intros H. apply Hfresh. now right.
Qed.

Lemma fresh_id st : seq_bounds st -> ~ In (S (clients_seq st)) (map row_id (clients st)).
Proof.
  unfold seq_bounds. rewrite List.Forall_forall. intros Hb Hin.
  apply in_map_iff in Hin as (r & Hr & Hin).
  specialize (Hb _ Hin). simpl in Hb. lia.
Qed.

(** *** Soft delete and restore *)



(** *** Creation behind the duplicate guard *)

(** C8: without [force], [create_client] raises DuplicateClientError with
    the list that [find_potential_duplicates] returned and leaves the store
    as it was, exactly when that list is not empty; in the other case, and
    always with [force], it appends the client as a new row with the active
    flag set, under an id no row had, and returns the record of that row. *)
Theorem create_client_guard (st : Store) (client : ClientCreate) (force : bool)
    (now : Timestamp) :
  seq_bounds st ->
  let duplicates := find_potential_duplicates st (cc_name client) (cc_email client)
                                              (cc_company client) in
  (force = false -> duplicates <> [] ->
     exists message,
       create_client client force now st
       = (inl (DuplicateClientError message duplicates), st))
  /\ (force = true \/ duplicates = [] ->
        exists row,
          create_client client force now st
          = (inr (Client_of_row row),
             mkStore (clients st ++ [row]) (row_id row) (interactions st))
          /\ row_is_active row = Some true
          /\ row_name row = cc_name client
          /\ row_company row = cc_company client
          /\ row_email row = cc_email client
          /\ row_created_at row = now
          /\ ~ In (row_id row) (map row_id (clients st))).
Proof.
  intros Hb duplicates. split.
  - intros -> Hne. unfold create_client. simpl. fold duplicates.
    destruct duplicates as [|d ds]; [contradiction|]. eauto.
  - intros Hcase.
    set (row := mkClientRow (S (clients_seq st)) (cc_name client) (cc_company client)
                            (cc_email client) now (Some true)).
    exists row. pose proof (fresh_id st Hb) as Hfresh.
    assert (Hsel : select_by_id (row_id row) (clients st ++ [row]) = Some row)
      by (apply select_fresh; [exact Hfresh|reflexivity]).
    split; [|repeat split; exact Hfresh].
    assert (Hins : insert_and_fetch client now st
                   = (inr (Client_of_row row),
                      mkStore (clients st ++ [row]) (row_id row) (interactions st))).
    { unfold insert_and_fetch, insert_client. fold row. simpl clients.
      change (S (clients_seq st)) with (row_id row). now rewrite Hsel. }
    unfold create_client. fold duplicates.
    destruct Hcase as [-> | ->]; [exact Hins|].
    destruct (negb force); exact Hins.
Qed.

Lemma create_client_guard_witness :
  exists row,
    create_client (mkClientCreate "Sarah Jones" None None) true "2025-01-02 10:00:00"
                  store_with_active
    = (inr (Client_of_row row),
       mkStore (clients store_with_active ++ [row]) (row_id row) [])
    /\ row_is_active row = Some true.
Proof.
  assert (Hb : seq_bounds store_with_active) by (repeat constructor).
  destruct (proj2 (create_client_guard store_with_active
                     (mkClientCreate "Sarah Jones" None None) true
                     "2025-01-02 10:00:00" Hb) (or_introl eq_refl))
    as (row & Heq & Hact & _).
  exists row. split; assumption.
Defined.

(** *** The duplicate detector *)

Lemma Qle_bool_proper x y y' : (y == y')%Q -> Qle_bool x y = Qle_bool x y'.
Proof.
  intros Heq. destruct (Qle_bool x y) eqn:H1, (Qle_bool x y') eqn:H2; try reflexivity.
  - apply Qle_bool_iff in H1. rewrite Heq in H1. apply Qle_bool_iff in H1. congruence.
  - apply Qle_bool_iff in H2. rewrite <- Heq in H2. apply Qle_bool_iff in H2. congruence.
Qed.



Lemma score_row_email_match name email company row :
  email_match (score_row name email company row) = present_email_match email row.
Proof.
  unfold score_row, present_email_match. simpl.
  destruct email as [e|], (row_email row) as [e'|]; simpl;
    try reflexivity; try (now rewrite andb_false_r).
Qed.

Lemma score_row_company name email company row :
  company_similarity (score_row name email company row) = company_part company row.
Proof.
  unfold score_row, company_part. simpl.
  destruct company as [c|], (row_company row) as [c'|]; simpl;
    try reflexivity; try (now rewrite andb_false_r).
  destruct c; simpl; [reflexivity|].
  destruct c'; simpl; reflexivity.
Qed.

Lemma score_row_total name email company row :
  (total_score (score_row name email company row)
   == expected_total present_email_match name email company row)%Q.
Proof.
  pose proof (score_row_email_match name email company row) as Hm.
  pose proof (score_row_company name email company row) as Hc.
  unfold expected_total. rewrite <- Hm, <- Hc. unfold score_row. simpl.
  match goal with |- context [if ?b then _ else _] => destruct b end.
  - reflexivity.
  - ring.
Qed.

Lemma over_threshold_score_row name email company row :
  active row = true ->
  over_threshold (score_row name email company row)
  = expected_selected present_email_match name email company row.
Proof.
  intros Ha. unfold over_threshold, expected_selected.
  rewrite Ha, score_row_email_match.
  rewrite (Qle_bool_proper _ _ _ (score_row_total name email company row)).
  reflexivity.
Qed.

Lemma scan_clients_filter name email company rows :
  scan_clients name email company (List.filter active rows)
  = map (score_row name email company)
        (List.filter (expected_selected present_email_match name email company) rows).
Proof.
  induction rows as [|r rows IH]; simpl; [reflexivity|].
  destruct (active r) eqn:Ha; simpl.
  - rewrite Ha. simpl. rewrite (over_threshold_score_row _ _ _ _ Ha).
    destruct (expected_selected _ _ _ _ r); simpl; now rewrite IH.
  - unfold expected_selected at 1. rewrite Ha. simpl. exact IH.
Qed.

Lemma insert_desc_perm x l : Permutation (insert_desc x l) (x :: l).
Proof.
  induction l as [|y l IH]; simpl; [reflexivity|].
  destruct (Qle_bool _ _); [reflexivity|].
  rewrite IH. apply perm_swap.
Qed.

Lemma sorted_desc_perm l : Permutation (sorted_desc l) l.
Proof.
  induction l as [|x l IH]; simpl; [reflexivity|].
  rewrite insert_desc_perm. now apply perm_skip.
Qed.

Lemma insert_desc_sorted x l : Sorted score_ge l -> Sorted score_ge (insert_desc x l).
Proof.
  induction l as [|y l IH]; simpl; intros Hs.
  - repeat constructor.
  - destruct (Qle_bool (total_score y) (total_score x)) eqn:Hle.
    + constructor; [exact Hs|]. constructor. now apply Qle_bool_iff.
    + assert (Hyx : score_ge y x).
      { unfold score_ge. apply Qlt_le_weak. apply Qnot_le_lt. intros H.
        apply Qle_bool_iff in H. congruence. }
      inversion Hs as [|? ? Hs' Hhd]; subst. constructor; [now apply IH|].
      destruct l as [|z l]; simpl.
      * now constructor.
      * destruct (Qle_bool (total_score z) (total_score x)); constructor;
          [exact Hyx|now inversion Hhd].
Qed.

Lemma sorted_desc_sorted l : Sorted score_ge (sorted_desc l).
Proof.
  induction l as [|x l IH]; simpl; [constructor|].
  now apply insert_desc_sorted.
Qed.

(** The duplicate examples of the specification in exact arithmetic: the
    same email in another case is a match of score 100, whatever the
    company; the score of a near name and company is the weighted sum, here
    above the threshold. *)
Example sarah_email_match :
  map (fun s => (email_match s, total_score s))
      (find_potential_duplicates store_with_active "Sarah Jones"
                                 (Some "SARAH@ACME.COM") (Some "Other Corp"))
  = [(true, 100%Q)].
Proof. vm_compute. reflexivity. Qed.

Example jon_smith_score :
  exists s,
    find_potential_duplicates store_jon "John Smith" None (Some "Acme Inc") = [s]
    /\ (name_similarity s == 1800 # 19)%Q
    /\ (company_similarity s == 200 # 3)%Q
    /\ (total_score s == 0.7 * (1800 # 19) + 0.3 * (200 # 3))%Q
    /\ (85 <= total_score s)%Q.
Proof.
  eexists. split; [vm_compute; reflexivity|].
  repeat split; vm_compute; try reflexivity; discriminate.
Qed.

End DatabaseProofs.

(** ** The client context for the model *)
Module MemoryProofs.
Import Database Memory DatabaseSpec MemorySpec DatabaseProofs.

Lemma In_insert_latest x y l : In y (insert_latest x l) <-> y = x \/ In y l.
Proof.
  induction l as [|a l IH]; simpl.
  - intuition.
  - destruct (String.leb _ _); simpl; [intuition|].
    rewrite IH. intuition.
Qed.

Lemma In_order_by_date_desc y l : In y (order_by_date_desc l) <-> In y l.
Proof.
  induction l as [|a l IH]; simpl; [reflexivity|].
  rewrite In_insert_latest, IH. intuition.
Qed.

Lemma insert_latest_sorted x l :
  Sorted newer_or_same l -> Sorted newer_or_same (insert_latest x l).
Proof.
  induction l as [|y l IH]; simpl; intros Hs.
  - repeat constructor.
  - destruct (String.leb (int_date y) (int_date x)) eqn:Hle.
    + constructor; [exact Hs|]. now constructor.
    + assert (Hyx : newer_or_same y x).
      { unfold newer_or_same.
        destruct (String.leb_total (int_date x) (int_date y)) as [H|H];
          [exact H|congruence]. }
      inversion Hs as [|? ? Hs' Hhd]; subst. constructor; [now apply IH|].
      destruct l as [|z l]; simpl.
      * now constructor.
      * destruct (String.leb (int_date z) (int_date x)); constructor;
          [exact Hyx|now inversion Hhd].
Qed.

Lemma order_by_date_desc_sorted l : Sorted newer_or_same (order_by_date_desc l).
Proof.
  induction l as [|x l IH]; simpl; [constructor|].
  now apply insert_latest_sorted.
Qed.



End MemoryProofs.

(** ** The structured-output validator *)
Module ModelsProofs.
Import Json Datetime Models ModelsSpec.

Section Validator.
Variable coerce_str : json -> option string.
Variable json_loads : string -> JSONDecodeError + json.

(** An accepted input passed the check of each field, and the record
    holds what the checks returned. *)
Lemma CRMData_init_accepts data crm :
  CRMData_init coerce_str data = inr crm ->
  required_str coerce_str 10 (data !! "summary") = inr (summary crm)
  /\ required_enum DealStage_members DealStage_value (data !! "deal_stage")
     = inr (deal_stage crm)
  /\ optional_str coerce_str clean_objections (data !! "objections")
     = inr (objections crm)
  /\ required_enum InterestLevel_members InterestLevel_value
                   (data !! "interest_level") = inr (interest_level crm)
  /\ required_str coerce_str 5 (data !! "next_action") = inr (next_action crm)
  /\ optional_str coerce_str validate_date_format (data !! "followup_date")
     = inr (followup_date crm).
Proof.
  unfold CRMData_init.
  destruct (required_str coerce_str 10 _), (required_enum DealStage_members _ _),
    (optional_str coerce_str clean_objections _),
    (required_enum InterestLevel_members _ _), (required_str coerce_str 5 _),
    (optional_str coerce_str validate_date_format _);
    intros H; inversion H; subst; simpl; repeat split.
Qed.

(** A field whose check fails is named in the errors of the rejection. *)
Lemma CRMData_init_rejects data :
  forall loc e,
    In (loc, e)
       (err "summary" (required_str coerce_str 10 (data !! "summary"))
        ++ err "deal_stage"
             (required_enum DealStage_members DealStage_value (data !! "deal_stage"))
        ++ err "objections"
             (optional_str coerce_str clean_objections (data !! "objections"))
        ++ err "interest_level"
             (required_enum InterestLevel_members InterestLevel_value
                            (data !! "interest_level"))
        ++ err "next_action" (required_str coerce_str 5 (data !! "next_action"))
        ++ err "followup_date"
             (optional_str coerce_str validate_date_format
                           (data !! "followup_date")))%list ->
    exists errors, CRMData_init coerce_str data = inl errors /\ In (loc, e) errors.
Proof.
  intros loc e. unfold CRMData_init.
  destruct (required_str coerce_str 10 _), (required_enum DealStage_members _ _),
    (optional_str coerce_str clean_objections _),
    (required_enum InterestLevel_members _ _), (required_str coerce_str 5 _),
    (optional_str coerce_str validate_date_format _);
    simpl; intros H; try contradiction; eauto.
Qed.

Lemma required_enum_not_member {E : Type} (members : list E) (value : E -> string)
    (v : option json) :
  (forall m, In m members -> v <> Some (JStr (value m))) ->
  exists e, required_enum members value v = inl e.
Proof.
  intros H. unfold required_enum. destruct v as [[| | | |s| |]|]; eauto.
  destruct (List.find _ members) as [m|] eqn:Hf; eauto.
  apply find_some in Hf as [Hin Heq]. apply String.eqb_eq in Heq.
  exfalso. apply (H m Hin). now rewrite Heq.
Qed.

(** The enumeration checks accept exactly the listed values. *)
Lemma required_enum_member {E : Type} (members : list E) (value : E -> string)
    (v : option json) (m : E) :
  required_enum members value v = inr m ->
  In m members /\ v = Some (JStr (value m)).
Proof.
  unfold required_enum. destruct v as [[| | | |s| |]|]; try discriminate.
  destruct (List.find _ members) as [m'|] eqn:Hf; [|discriminate].
  intros H. inversion H; subst. apply find_some in Hf as [Hin Heq].
  apply String.eqb_eq in Heq. now rewrite Heq.
Qed.

(** The rejections of the validator: an input that [json.loads] refuses
    fails with the ValueError of the parse; an object whose [deal_stage]
    or [interest_level] is none of the listed values, or whose
    [followup_date] is a string that [strptime] refuses, fails with the
    ValueError of the schema, and the field is named in it. *)
Lemma validate_json_output_rejects (json_str : string) :
  (forall e, json_loads json_str = inl e ->
     validate_json_output coerce_str json_loads json_str
     = inl (Invalid_JSON_from_AI e))
  /\ (forall data, json_loads json_str = inr (JObj data) ->
        ((forall m, data !! "deal_stage" <> Some (JStr (DealStage_value m))) ->
         exists errors e,
           validate_json_output coerce_str json_loads json_str
           = inl (Schema_validation_failed (validation_error errors))
           /\ In ("deal_stage", e) errors)
        /\ ((forall m, data !! "interest_level"
                       <> Some (JStr (InterestLevel_value m))) ->
            exists errors e,
              validate_json_output coerce_str json_loads json_str
              = inl (Schema_validation_failed (validation_error errors))
              /\ In ("interest_level", e) errors)
        /\ (forall v, data !! "followup_date" = Some (JStr v) ->
              Datetime.strptime_ymd v = None ->
              exists errors,
                validate_json_output coerce_str json_loads json_str
                = inl (Schema_validation_failed (validation_error errors))
                /\ In ("followup_date",
                       validator_error "Date must be in YYYY-MM-DD format")
                      errors)).
Proof.
  split.
  - intros e He. unfold validate_json_output. now rewrite He.
  - intros data Hd. unfold validate_json_output. rewrite Hd.
    split; [|split].
    + intros Hbad.
      destruct (required_enum_not_member DealStage_members DealStage_value
                  (data !! "deal_stage")) as [e He]; [intros m _; apply Hbad|].
      destruct (CRMData_init_rejects data "deal_stage" e) as (errors & -> & Hin).
      { rewrite He. simpl. apply in_or_app. right. now left. }
      eauto.
    + intros Hbad.
      destruct (required_enum_not_member InterestLevel_members InterestLevel_value
                  (data !! "interest_level")) as [e He]; [intros m _; apply Hbad|].
      destruct (CRMData_init_rejects data "interest_level" e)
        as (errors & -> & Hin).
      { rewrite He. simpl. do 3 (apply in_or_app; right). now left. }
      eauto.
    + intros v Hv Hbad.
      destruct (CRMData_init_rejects data "followup_date"
                  (validator_error "Date must be in YYYY-MM-DD format"))
        as (errors & -> & Hin).
      { rewrite Hv. simpl. unfold validate_date_format. rewrite Hbad. simpl.
        do 5 (apply in_or_app; right). now left. }
      eauto.
Qed.

(** *** The objections field *)

Lemma clean_objections_nonempty c v :
  clean_objections (Some (String c v))
  = inr (if stripped_no_objection (String c v) then None else Some (String c v)).
Proof.
  unfold clean_objections, stripped_no_objection.
  change (Py.truthy (Some (String c v))) with true.
  change (default EmptyString (Some (String c v))) with (String c v).
  rewrite andb_true_l. destruct (existsb _ _); reflexivity.
Qed.

(** C5, amended: for an accepted input whose objections field is a string
    that is not empty, the record has objections absent when the string,
    stripped of surrounding white space and case folded, is "none", "n/a",
    "no objections" or empty, and has the string unchanged otherwise; an
    absent or null objections field gives objections absent. *)
Theorem objections_normalized (data : gmap string json) (crm : CRMData) :
  CRMData_init coerce_str data = inr crm ->
  (forall v, data !! "objections" = Some (JStr v) -> v <> EmptyString ->
     objections crm = if stripped_no_objection v then None else Some v)
  /\ (data !! "objections" = None \/ data !! "objections" = Some JNull ->
      objections crm = None).
Proof.
  intros Hok. apply CRMData_init_accepts in Hok as (_ & _ & Hobj & _).
  split.
  - intros v Hv Hne. rewrite Hv in Hobj.
    change (clean_objections (Some v) = inr (objections crm)) in Hobj.
    destruct v as [|c v]; [contradiction|].
    rewrite clean_objections_nonempty in Hobj. now inversion Hobj.
  - intros [Hv|Hv]; rewrite Hv in Hobj; simpl in Hobj;
      inversion Hobj; reflexivity.
Qed.

End Validator.

(** C5, as stated, fails on both sides: the empty string is one of the four
    texts and is returned as it is, not as absent; the text " None " is none
    of the four and is not returned unchanged. *)
Lemma objections_claim_fails :
  (claimed_no_objection EmptyString = true
   /\ CRMData_init coerce_v1 (example_data (JStr EmptyString) JNull)
      = inr (example_record (Some EmptyString) None))
  /\ (claimed_no_objection " None " = false
      /\ CRMData_init coerce_v1 (example_data (JStr " None ") JNull)
         = inr (example_record None None)).
Proof. vm_compute. repeat split. Qed.

Lemma objections_normalized_witness :
  objections (example_record None None)
  = if stripped_no_objection " None " then None else Some " None ".
Proof.
  apply (proj1 (objections_normalized coerce_v1 (example_data (JStr " None ") JNull)
                  (example_record None None) eq_refl) " None " eq_refl).
  discriminate.
Defined.

(** The white space that is stripped includes the no-break space, here
    written with its escape. *)
Example objections_no_break_space :
  validate_json_output coerce_v1 Json.loads (object_with_objections "\u00a0none")
  = inr (example_record None None)
  /\ Py.strip (String (ascii_of_nat 160) "none") = "none".
Proof. vm_compute. split; reflexivity. Qed.

(** *** The follow-up date *)

Lemma in_range_val lo hi c :
  in_range lo hi c = is_digit c && (lo <=? val c) && (val c <=? hi).
Proof. reflexivity. Qed.

Lemma digit_val_le c : is_digit c = true -> val c <= 9.
Proof.
  unfold is_digit, val. intros H. apply andb_prop in H as [_ H].
  apply Nat.leb_le in H. lia.
Qed.

Lemma month_alts_two m1 m2 rest :
  is_digit m1 = true -> is_digit m2 = true ->
  1 <= val m1 * 10 + val m2 <= 12 ->
  exists more,
    month_alts (String m1 (String m2 rest)) = (val m1 * 10 + val m2, rest) :: more.
Proof.
  intros H1 H2 Hm. unfold month_alts. rewrite !in_range_val, H1, H2.
  pose proof (digit_val_le m1 H1). pose proof (digit_val_le m2 H2).
  destruct (Nat.eqb_spec (val m1) 1) as [E1|N1].
  - replace (val m2 <=? 2) with true by (symmetry; apply Nat.leb_le; lia).
    rewrite E1. cbn [andb Nat.leb app Nat.mul Nat.add]. eauto.
  - assert (E0 : val m1 = 0) by lia. rewrite E0.
    replace (1 <=? val m2) with true by (symmetry; apply Nat.leb_le; lia).
    replace (val m2 <=? 9) with true by (symmetry; apply Nat.leb_le; lia).
    cbn [andb Nat.leb Nat.eqb app Nat.mul Nat.add]. eauto.
Qed.

Lemma day_alts_two a1 a2 :
  is_digit a1 = true -> is_digit a2 = true ->
  1 <= val a1 * 10 + val a2 <= 31 ->
  exists more,
    day_alts (String a1 (String a2 EmptyString))
    = (val a1 * 10 + val a2, EmptyString) :: more.
Proof.
  intros H1 H2 Hd. unfold day_alts. rewrite !in_range_val, H1, H2.
  pose proof (digit_val_le a1 H1). pose proof (digit_val_le a2 H2).
  destruct (Nat.eqb_spec (val a1) 3) as [E3|N3].
  - replace (val a2 <=? 1) with true by (symmetry; apply Nat.leb_le; lia).
    rewrite E3. cbn [andb Nat.leb app Nat.mul Nat.add]. eauto.
  - cbn [andb app].
    destruct (Nat.leb_spec 1 (val a1)) as [G1|L1].
    + replace (val a1 <=? 2) with true by (symmetry; apply Nat.leb_le; lia).
      cbn [andb app]. replace (10 * val a1) with (val a1 * 10) by lia. eauto.
    + assert (E0 : val a1 = 0) by lia. rewrite E0.
      replace (1 <=? val a2) with true by (symmetry; apply Nat.leb_le; lia).
      replace (val a2 <=? 9) with true by (symmetry; apply Nat.leb_le; lia).
      cbn [andb Nat.leb Nat.eqb app Nat.mul Nat.add]. eauto.
Qed.

Lemma days_in_month_le y m : days_in_month y m <= 31.
Proof.
  unfold days_in_month.
  do 12 (destruct m as [|m]; [try lia; destruct (is_leap y); lia|]). lia.
Qed.

(** Every date written YYYY-MM-DD passes [strptime]: the check of the code
    admits them all. *)
Lemma iso_date_accepted s :
  iso_calendar_date s = true -> exists ymd, strptime_ymd s = Some ymd.
Proof.
  unfold iso_calendar_date.
  destruct s as [|y1 [|y2 [|y3 [|y4 [|d1 [|m1 [|m2 [|d2 [|a1 [|a2 [|? ?]]]]]]]]]]];
    try discriminate.
  intros H. do 7 (apply andb_prop in H as [H ?]).
  cbn [forallb] in H. do 8 (apply andb_prop in H as [? H]).
  repeat match goal with
         | Hx : (_ <=? _) = true |- _ => apply Nat.leb_le in Hx
         end.
  pose proof (days_in_month_le
                (((val y1 * 10 + val y2) * 10 + val y3) * 10 + val y4)
                (val m1 * 10 + val m2)) as Hdim.
  destruct (month_alts_two m1 m2 (String d2 (String a1 (String a2 EmptyString))))
    as [more Hmonth]; [assumption|assumption|lia|].
  destruct (day_alts_two a1 a2) as [more' Hday]; [assumption|assumption|lia|].
  unfold strptime_ymd, regex_match.
  repeat match goal with
         | Hx : is_digit _ = true |- _ => rewrite Hx
         end.
  match goal with Hx : is_dash d1 = true |- _ => rewrite Hx end.
  cbn [andb]. rewrite Hmonth. cbn [first_month]. unfold after_month.
  match goal with Hx : is_dash d2 = true |- _ => rewrite Hx end.
  rewrite Hday.
  repeat match goal with
         | Hx : _ <= _ |- _ => apply Nat.leb_le in Hx; rewrite Hx
         end.
  cbn [andb]. eauto.
Qed.
(** C3, at the failing input: the follow-up date "2025-3-1" is not written
    YYYY-MM-DD, and the validator accepts the input and returns the date as
    it came; a date with a blank in the day, "2025-03- 5", passes the check
    of the field as well. *)
Theorem short_date_accepted :
  iso_calendar_date "2025-3-1" = false
  /\ validate_json_output coerce_v1 Json.loads short_date_input
     = inr (example_record None (Some "2025-3-1"))
  /\ iso_calendar_date "2025-03- 5" = false
  /\ validate_date_format (Some "2025-03- 5") = inr (Some "2025-03- 5").
Proof. vm_compute. repeat split. Qed.

(** The two rejections of the specification's examples. *)
Example rejects_maybe :
  exists errors e,
    validate_json_output coerce_v1 Json.loads (variant_object "maybe" "2025-03-10")
    = inl (Schema_validation_failed (validation_error errors))
    /\ In ("deal_stage", e) errors.
Proof. eexists. eexists. split; [vm_compute; reflexivity|]. now left. Qed.

Example rejects_slash_date :
  exists errors e,
    validate_json_output coerce_v1 Json.loads (variant_object "proposal" "03/10/2025")
    = inl (Schema_validation_failed (validation_error errors))
    /\ In ("followup_date", e) errors.
Proof. eexists. eexists. split; [vm_compute; reflexivity|]. now left. Qed.

Example rejects_unparsable :
  validate_json_output coerce_v1 Json.loads "Sure, here it is"
  = inl (Invalid_JSON_from_AI (Json.mkJSONDecodeError "Expecting value" 0)).
Proof. vm_compute. reflexivity. Qed.

End ModelsProofs.

(** ** Python strings: cutting at a separator *)
Module PyProofs.
Import Py PySpec.

#[local] Arguments String.append !s1 s2 : simpl nomatch.

Lemma app_nil_r (s : string) : s ++ EmptyString = s.
Proof. induction s as [|c s IH]; simpl; [reflexivity|now rewrite IH]. Qed.

Lemma app_assoc (x y z : string) : (x ++ y) ++ z = x ++ y ++ z.
Proof. induction x as [|c x IH]; simpl; [reflexivity|now rewrite IH]. Qed.

Lemma length_app (x y : string) :
  String.length (x ++ y) = String.length x + String.length y.
Proof. induction x as [|c x IH]; simpl; [reflexivity|now rewrite IH]. Qed.

Lemma prefix_nil (s : string) : String.prefix EmptyString s = true.
Proof. now destruct s. Qed.

Lemma prefix_app (sep rest : string) : String.prefix sep (sep ++ rest) = true.
Proof.
  induction sep as [|c sep IH]; simpl; [apply prefix_nil|].
  destruct (ascii_dec c c); [exact IH|contradiction].
Qed.

(** A separator no longer than [x] is a prefix of [x ++ y] only when it is
    one of [x]. *)
Lemma prefix_long (sep x y : string) :
  String.length sep <= String.length x ->
  String.prefix sep (x ++ y) = String.prefix sep x.
Proof.
  revert x. induction sep as [|c sep IH]; intros x Hlen; simpl.
  - now rewrite !prefix_nil.
  - destruct x as [|d x]; simpl in *; [lia|].
    destruct (ascii_dec c d); [apply IH; lia|reflexivity].
Qed.

Lemma drop_str_app (sep rest : string) : drop_str (String.length sep) (sep ++ rest) = rest.
Proof. induction sep as [|c sep IH]; simpl; [now destruct rest|exact IH]. Qed.

Lemma contains_cons sep c s :
  contains sep (String c s)
  = if String.prefix sep (String c s) then true else contains sep s.
Proof. reflexivity. Qed.

Lemma cut_cons sep c s :
  cut sep (String c s)
  = if String.prefix sep (String c s)
    then Some (EmptyString, drop_str (String.length sep) (String c s))
    else match cut sep s with
         | Some (before, after) => Some (String c before, after)
         | None => None
         end.
Proof. reflexivity. Qed.

Lemma contains_cut (sep s : string) :
  contains sep s = match cut sep s with Some _ => true | None => false end.
Proof.
  induction s as [|c s IH].
  - destruct sep; reflexivity.
  - rewrite contains_cons, cut_cons.
    destruct (String.prefix sep (String c s)); [reflexivity|].
    rewrite IH. destruct (cut sep s) as [[? ?]|]; reflexivity.
Qed.

Lemma prefix_app_r (p u v : string) :
  String.prefix p u = true -> String.prefix p (u ++ v) = true.
Proof.
  revert u. induction p as [|c p IH]; intros u; simpl; [intros _; apply prefix_nil|].
  destruct u as [|d u]; simpl; [discriminate|].
  destruct (ascii_dec c d); [apply IH|discriminate].
Qed.

Lemma contains_app_false (sep x y : string) :
  contains sep (x ++ y) = false -> contains sep x = false.
Proof.
  induction x as [|c x IH].
  - destruct sep as [|a sep]; [|reflexivity].
    intros H. destruct y; simpl in H; discriminate.
  - change (String c x ++ y) with (String c (x ++ y)).
    rewrite !contains_cons.
    destruct (String.prefix sep (String c x)) eqn:Hpre.
    + change (String c (x ++ y)) with (String c x ++ y).
      rewrite (prefix_app_r _ _ y Hpre). discriminate.
    + destruct (String.prefix sep (String c (x ++ y))); [discriminate|exact IH].
Qed.

(** The first occurrence of [sep0 ++ z] in [pre ++ sep ++ rest] is the one
    written there when no occurrence begins inside [pre]. *)
Lemma cut_first (sep0 : string) (z : ascii) (pre rest : string) :
  let sep := sep0 ++ String z EmptyString in
  contains sep (pre ++ sep0) = false ->
  cut sep (pre ++ sep ++ rest) = Some (pre, rest).
Proof.
  intros sep. induction pre as [|c pre IH]; intros Hno.
  - change (EmptyString ++ sep ++ rest) with (sep ++ rest).
    assert (Hp := prefix_app sep rest).
    destruct (sep ++ rest) as [|d t] eqn:Hs.
    + destruct sep0; discriminate.
    + rewrite cut_cons, Hp, <- Hs, drop_str_app. reflexivity.
  - change (String c pre ++ sep0) with (String c (pre ++ sep0)) in Hno.
    rewrite contains_cons in Hno.
    destruct (String.prefix sep (String c (pre ++ sep0))) eqn:Hpre; [discriminate|].
    change (String c pre ++ sep ++ rest) with (String c (pre ++ sep ++ rest)).
    rewrite cut_cons.
    assert (Hsame : String.prefix sep (String c (pre ++ sep ++ rest)) = false).
    { rewrite <- Hpre. subst sep.
      replace (String c (pre ++ (sep0 ++ String z EmptyString) ++ rest))
        with (String c (pre ++ sep0) ++ String z rest).
      - apply prefix_long. simpl. rewrite !length_app. simpl. lia.
      - simpl. f_equal. rewrite !app_assoc. reflexivity. }
    rewrite Hsame, (IH Hno). reflexivity.
Qed.

(** A text without [p] has no longer marker that begins with [p]. *)
Lemma contains_longer (p q s : string) :
  contains p s = false -> contains (p ++ q) s = false.
Proof.
  assert (Hp : forall p s, String.prefix (p ++ q) s = true -> String.prefix p s = true).
  { clear. induction p as [|c p IH]; intros s; [intros _; apply prefix_nil|].
    destruct s as [|d s]; simpl; [discriminate|].
    destruct (ascii_dec c d); [apply IH|discriminate]. }
  induction s as [|c s IH].
  - destruct p; [discriminate|reflexivity].
  - rewrite !contains_cons.
    destruct (String.prefix p (String c s)) eqn:H1; [discriminate|].
    destruct (String.prefix (p ++ q) (String c s)) eqn:H2; [|exact IH].
    apply Hp in H2. congruence.
Qed.

Lemma cut_none (sep s : string) : contains sep s = false -> cut sep s = None.
Proof. rewrite contains_cut. destruct (cut sep s); [discriminate|reflexivity]. Qed.

Lemma split_go_skip (sep s : string) (k : nat) (cur : string) :
  split_go sep s k cur = split_go sep (drop_str k s) 0 cur.
Proof.
  revert k. induction s as [|c s IH]; intros [|k]; simpl; try reflexivity.
  apply IH.
Qed.

Lemma split_go_cons sep c s cur :
  split_go sep (String c s) 0 cur
  = if String.prefix sep (String c s)
    then cur :: split_go sep s (String.length sep - 1) EmptyString
    else split_go sep s 0 (cur ++ String c EmptyString).
Proof. reflexivity. Qed.

(** [split] cuts at the first occurrence and goes on with what follows. *)
Lemma split_go_cut (sep : string) :
  sep <> EmptyString ->
  forall s cur,
    split_go sep s 0 cur
    = match cut sep s with
      | None => [cur ++ s]
      | Some (before, after) => (cur ++ before) :: split_go sep after 0 EmptyString
      end.
Proof.
  intros Hne. induction s as [|c s IH]; intros cur.
  - destruct sep; [contradiction|]. simpl. now rewrite app_nil_r.
  - rewrite split_go_cons, cut_cons.
    destruct (String.prefix sep (String c s)) eqn:Hpre.
    + rewrite app_nil_r, split_go_skip. destruct sep as [|a sep]; [contradiction|].
      simpl. now rewrite Nat.sub_0_r.
    + rewrite IH. destruct (cut sep s) as [[before after]|].
      * rewrite app_assoc. reflexivity.
      * rewrite app_assoc. reflexivity.
Qed.

(** [s.split(sep)[0]] and [s.split(sep)[1]]. *)
Lemma item_0_split (sep s : string) :
  sep <> EmptyString ->
  item 0 (split sep s)
  = match cut sep s with Some (before, _) => before | None => s end.
Proof.
  intros Hne. unfold split. rewrite (split_go_cut sep Hne).
  destruct (cut sep s) as [[before after]|]; reflexivity.
Qed.

Lemma item_1_split (sep s before after : string) :
  sep <> EmptyString -> cut sep s = Some (before, after) ->
  item 1 (split sep s) = item 0 (split sep after).
Proof.
  intros Hne Hcut. unfold split. rewrite (split_go_cut sep Hne), Hcut. reflexivity.
Qed.

Lemma prefix_drop (sep t : string) :
  String.prefix sep t = true -> t = sep ++ drop_str (String.length sep) t.
Proof.
  revert t. induction sep as [|x sep IH]; intros t Hp; [reflexivity|].
  destruct t as [|y t]; simpl in Hp; [discriminate Hp|].
  destruct (ascii_dec x y) as [->|]; [|discriminate Hp].
  simpl. f_equal. now apply IH.
Qed.

Lemma cut_app (sep s before after : string) :
  cut sep s = Some (before, after) -> s = before ++ sep ++ after.
Proof.
  revert before. induction s as [|c s IH]; intros before.
  - destruct sep; simpl; [|discriminate].
    intros H. inversion H; subst. reflexivity.
  - rewrite cut_cons. destruct (String.prefix sep (String c s)) eqn:Hp.
    + intros H. inversion H; subst. now apply prefix_drop.
    + destruct (cut sep s) as [[b a]|]; [|discriminate].
      intros H. inversion H; subst. simpl. f_equal. now apply IH.
Qed.

(** Nothing of the separator stands before its first occurrence. *)
Lemma cut_before_free (sep s before after : string) :
  sep <> EmptyString ->
  cut sep s = Some (before, after) -> contains sep before = false.
Proof.
  intros Hne. revert before. induction s as [|c s IH]; intros before.
  - destruct sep; [contradiction|discriminate].
  - rewrite cut_cons. destruct (String.prefix sep (String c s)) eqn:Hp.
    + intros H. inversion H; subst. destruct sep; [contradiction|reflexivity].
    + destruct (cut sep s) as [[b a]|] eqn:Hcut; [|discriminate].
      intros H. inversion H; subst. rewrite contains_cons.
      destruct (String.prefix sep (String c b)) eqn:Hpb.
      * apply cut_app in Hcut. subst s.
        apply (prefix_app_r _ _ (sep ++ after)) in Hpb.
        change (String c b ++ sep ++ after) with (String c (b ++ sep ++ after)) in Hpb.
        congruence.
      * now apply IH.
Qed.

(** The text before the first occurrence of a separator holds none. *)
Lemma before_first_free (sep s : string) :
  sep <> EmptyString ->
  cut sep s <> None -> cut sep (before_first sep s) = None.
Proof.
  intros Hne Hcut. unfold before_first.
  destruct (cut sep s) as [[before after]|] eqn:H; [|contradiction].
  apply cut_none. now apply (cut_before_free sep s before after).
Qed.

End PyProofs.

(** ** The cleaning step and the extraction pipeline *)
Module AiCrmProofs.
Import Models ModelsSpec AiCrm PySpec AiCrmSpec PyProofs.

#[local] Arguments String.append !s1 s2 : simpl nomatch.

Lemma has_char_app c x y : has_char c (x ++ String c y) = true.
Proof.
  induction x as [|d x IH]; simpl.
  - now rewrite Ascii.eqb_refl.
  - rewrite IH. apply orb_true_r.
Qed.

Lemma rfind_char_none c s : rfind_char c s = None <-> has_char c s = false.
Proof.
  induction s as [|x s IH]; simpl; [tauto|].
  destruct (rfind_char c s) as [k|].
  - split; [discriminate|]. intros H. apply orb_false_elim in H as [_ H].
    apply IH in H. discriminate.
  - destruct (Ascii.eqb x c); simpl; [split; discriminate|].
    split; intros _; [now apply IH|reflexivity].
Qed.

Lemma rfind_char_app c inner trail :
  has_char c trail = false ->
  rfind_char c (inner ++ String c trail) = Some (String.length inner).
Proof.
  intros Hno. induction inner as [|x inner IH]; simpl.
  - apply rfind_char_none in Hno. rewrite Hno, Ascii.eqb_refl. reflexivity.
  - now rewrite IH.
Qed.

Lemma substring_app c inner trail :
  String.substring 0 (S (String.length inner)) (inner ++ String c trail)
  = inner ++ String c EmptyString.
Proof.
  induction inner as [|x inner IH]; simpl.
  - now destruct trail.
  - now rewrite IH.
Qed.

(** The greedy match: from the first opening brace to the last closing
    brace. *)
Lemma re_search_object_greedy lead inner trail :
  has_char lbrace lead = false -> has_char rbrace trail = false ->
  re_search_object (lead ++ String lbrace (inner ++ String rbrace trail))
  = Some (String lbrace (inner ++ String rbrace EmptyString)).
Proof.
  intros Hlead Htrail. induction lead as [|x lead IH]; simpl.
  - rewrite (rfind_char_app _ _ _ Htrail), substring_app. reflexivity.
  - simpl in Hlead. apply orb_false_elim in Hlead as [Hx Hlead].
    rewrite Hx. now apply IH.
Qed.

(** No match means that no opening brace has a closing brace after it. *)
Lemma re_search_object_none t :
  re_search_object t = None ->
  forall lead inner trail, t <> lead ++ String lbrace (inner ++ String rbrace trail).
Proof.
  intros Hnone lead inner trail ->. revert Hnone.
  induction lead as [|x lead IH]; simpl.
  - destruct (rfind_char rbrace (inner ++ String rbrace trail)) eqn:Hr;
      [discriminate|].
    apply rfind_char_none in Hr. now rewrite has_char_app in Hr.
  - destruct (Ascii.eqb x lbrace); [|exact IH].
    destruct (rfind_char rbrace _) eqn:Hr; [discriminate|]. intros _.
    apply rfind_char_none in Hr.
    change (lead ++ String lbrace (inner ++ String rbrace trail))
      with (lead ++ String lbrace EmptyString ++ inner ++ String rbrace trail) in Hr.
    rewrite <- !app_assoc in Hr. now rewrite has_char_app in Hr.
Qed.

Lemma re_search_object_some t found :
  re_search_object t = Some found ->
  exists lead inner trail,
    t = lead ++ String lbrace (inner ++ String rbrace trail)
    /\ has_char lbrace lead = false /\ has_char rbrace trail = false
    /\ found = String lbrace (inner ++ String rbrace EmptyString).
Proof.
  assert (Hr : forall s k, rfind_char rbrace s = Some k ->
             exists inner trail, s = inner ++ String rbrace trail
               /\ has_char rbrace trail = false
               /\ String.substring 0 (S k) s = inner ++ String rbrace EmptyString).
  { induction s as [|x s IHs]; simpl; intros k; [discriminate|].
    destruct (rfind_char rbrace s) as [k'|] eqn:Hk.
    - intros H. inversion H; subst.
      destruct (IHs k' eq_refl) as (inner & trail & -> & Hno & Hsub).
      exists (String x inner), trail. simpl in *. now rewrite Hsub.
    - destruct (Ascii.eqb_spec x rbrace) as [->|]; [|discriminate].
      intros H. inversion H; subst. exists EmptyString, s.
      apply rfind_char_none in Hk. simpl. now destruct s. }
  induction t as [|x t IH]; simpl; [discriminate|].
  destruct (Ascii.eqb_spec x lbrace) as [->|Hne].
  - destruct (rfind_char rbrace t) as [k|] eqn:Hk.
    + intros H. inversion H; subst.
      destruct (Hr t k Hk) as (inner & trail & -> & Hno & Hsub).
      exists EmptyString, inner, trail. simpl. now rewrite Hsub.
    + intros H. destruct (IH H) as (lead & inner & trail & -> & Hl & Ht & ->).
      apply rfind_char_none in Hk.
      change (lead ++ String lbrace (inner ++ String rbrace trail))
        with (lead ++ String lbrace EmptyString ++ inner ++ String rbrace trail) in Hk.
      rewrite <- !app_assoc in Hk. now rewrite has_char_app in Hk.
  - intros H. destruct (IH H) as (lead & inner & trail & -> & Hl & Ht & ->).
    exists (String x lead), inner, trail. simpl. rewrite Hl.
    destruct (Ascii.eqb_spec x lbrace); [contradiction|]. auto.
Qed.

Lemma object_of_search t :
  object_of t (match re_search_object t with
               | Some found => found
               | None => Py.strip t
               end).
Proof.
  destruct (re_search_object t) as [found|] eqn:Hs.
  - destruct (re_search_object_some t found Hs) as (lead & inner & trail & H & Hl & Ht & ->).
    now apply (object_found t lead inner trail).
  - apply object_missing. now apply re_search_object_none.
Qed.

(** The cleaning step, read off the first occurrences of the fences. *)
Lemma clean_json_response_body (raw : string) :
  object_of (fence_body raw) (_clean_json_response raw).
Proof.
  assert (Hj : fence_json <> EmptyString) by discriminate.
  assert (Hf : fence <> EmptyString) by discriminate.
  unfold _clean_json_response, fence_body. rewrite !contains_cut.
  destruct (cut fence_json raw) as [[pre after]|] eqn:Hcut.
  - rewrite (item_1_split _ _ _ _ Hj Hcut), (item_0_split _ _ Hj),
      (item_0_split _ _ Hf).
    apply object_of_search.
  - destruct (cut fence raw) as [[pre after]|] eqn:Hcut2.
    + rewrite (item_1_split _ _ _ _ Hf Hcut2), !(item_0_split _ _ Hf).
      fold (before_first fence after).
      destruct (cut fence after) as [[body post]|] eqn:Hcut3.
      * rewrite (before_first_free fence after Hf) by (rewrite Hcut3; discriminate).
        apply object_of_search.
      * unfold before_first. rewrite !Hcut3. apply object_of_search.
    + apply object_of_search.
Qed.

(** C4: for every raw text the cleaning step takes the body of a Markdown
    fence when there is one, the fence tagged [json] before any untagged
    fence, and the whole text when there is none; of that body it returns
    the object from the first opening brace to the last closing brace,
    dropping the commentary before and after it (the stripped body when it
    has no such braces).  The body is the text after the first tag, cut at
    the next tag and at the first fence, for a text with a tagged fence;
    the text between the first fence and the next for a text with
    untagged fences only; where no fence closes the body, it runs to the
    end of the text.  For a text with one closed tagged fence, or with
    closed untagged fences only, the body is what stands between the
    fence and the fence that closes it. *)
Theorem clean_json_response_fenced :
  (forall raw, object_of (fence_body raw) (_clean_json_response raw))
  /\ (forall pre rest,
        none_begins "```jso" json_tag_n pre ->
        fence_body (pre ++ fence_json ++ rest)
        = before_first fence (before_first fence_json rest))
  /\ (forall pre rest,
        Py.contains fence_json (pre ++ fence ++ rest) = false ->
        none_begins "``" backtick pre ->
        fence_body (pre ++ fence ++ rest) = before_first fence rest)
  /\ (forall raw, Py.contains fence raw = false -> fence_body raw = raw)
  /\ (forall pre body post,
        (none_begins "```jso" json_tag_n pre ->
         Py.contains fence_json (body ++ fence ++ post) = false ->
         none_begins "``" backtick body ->
         object_of body
           (_clean_json_response (pre ++ fence_json ++ body ++ fence ++ post)))
        /\ (Py.contains fence_json (pre ++ fence ++ body ++ fence ++ post) = false ->
            none_begins "``" backtick pre ->
            none_begins "``" backtick body ->
            object_of body
              (_clean_json_response (pre ++ fence ++ body ++ fence ++ post)))
        /\ (Py.contains fence body = false ->
            object_of body (_clean_json_response body))).
Proof.
  assert (Hj : fence_json <> EmptyString) by discriminate.
  assert (Hf : fence <> EmptyString) by discriminate.
  assert (Htagged : forall pre rest,
             none_begins "```jso" json_tag_n pre ->
             fence_body (pre ++ fence_json ++ rest)
             = before_first fence (before_first fence_json rest)).
  { intros pre rest Hpre. unfold fence_body.
    pose proof (cut_first "```jso" json_tag_n pre rest Hpre) as Hcut.
    change ("```jso" ++ String json_tag_n EmptyString) with fence_json in Hcut.
    now rewrite Hcut. }
  assert (Hplain : forall pre rest,
             Py.contains fence_json (pre ++ fence ++ rest) = false ->
             none_begins "``" backtick pre ->
             fence_body (pre ++ fence ++ rest) = before_first fence rest).
  { intros pre rest Hno Hpre. unfold fence_body.
    rewrite (cut_none _ _ Hno).
    pose proof (cut_first "``" backtick pre rest Hpre) as Hcut.
    change ("``" ++ String backtick EmptyString) with fence in Hcut.
    now rewrite Hcut. }
  assert (Hnone : forall raw, Py.contains fence raw = false -> fence_body raw = raw).
  { intros raw Hno. unfold fence_body.
    rewrite (cut_none fence_json raw)
      by (apply (contains_longer fence "json"); exact Hno).
    now rewrite (cut_none _ _ Hno). }
  assert (Hclosed : forall body post,
             none_begins "``" backtick body ->
             before_first fence (body ++ fence ++ post) = body).
  { intros body post Hbody. unfold before_first.
    pose proof (cut_first "``" backtick body post Hbody) as Hcut.
    change ("``" ++ String backtick EmptyString) with fence in Hcut.
    now rewrite Hcut. }
  split; [exact clean_json_response_body|].
  split; [exact Htagged|]. split; [exact Hplain|]. split; [exact Hnone|].
  intros pre body post. split; [|split].
  - intros Hpre Hpost Hbody.
    rewrite <- (Hclosed body post Hbody) at 1.
    replace (before_first fence (body ++ fence ++ post))
      with (fence_body (pre ++ fence_json ++ body ++ fence ++ post)).
    + apply clean_json_response_body.
    + rewrite (Htagged pre _ Hpre). f_equal. unfold before_first.
      now rewrite (cut_none _ _ Hpost).
  - intros Hno Hpre Hbody.
    rewrite <- (Hclosed body post Hbody) at 1.
    rewrite <- (Hplain pre _ Hno Hpre). apply clean_json_response_body.
  - intros Hno. rewrite <- (Hnone body Hno) at 1. apply clean_json_response_body.
Qed.

Example clean_example : _clean_json_response example_raw = example_object.
Proof. vm_compute. reflexivity. Qed.

Example validate_example :
  validate_json_output coerce_v1 Json.loads (_clean_json_response example_raw)
  = inr (mkCRMData "Discussed pricing options in detail" PROPOSAL None WARM
                   "Send proposal Friday" (Some "2025-03-10")).
Proof. vm_compute. reflexivity. Qed.

(** The tagged fence is taken although an untagged one comes first. *)
Example clean_prefers_tagged :
  _clean_json_response "See ``` {old} ``` and then ```json {new} ``` done" = "{new}".
Proof. vm_compute. reflexivity. Qed.

Lemma clean_json_response_fenced_witness :
  object_of (Prompts.nl ++ example_object ++ Prompts.nl)
            (_clean_json_response example_raw)
  /\ object_of " {unclosed} and more" (_clean_json_response "```json {unclosed} and more").
Proof.
  split.
  - apply (proj1 (proj2 (proj2 (proj2 (proj2 clean_json_response_fenced)))
                    ("Here is the data:" ++ Prompts.nl)
                    (Prompts.nl ++ example_object ++ Prompts.nl) EmptyString));
      vm_compute; reflexivity.
  - apply (proj1 clean_json_response_fenced "```json {unclosed} and more").
Defined.

(** A fence that is not closed, and two tagged fences: the body runs to the
    end of the text, and the first tagged fence is the one taken. *)
Example clean_unclosed_fence :
  _clean_json_response "```json {unclosed} and more" = "{unclosed}".
Proof. vm_compute. reflexivity. Qed.

Example clean_two_tagged_fences :
  _clean_json_response "```json {one} ``` then ```json {two} ```" = "{one}".
Proof. vm_compute. reflexivity. Qed.

(** *** The bounded retry of [extract] *)

Section Retry.
Variable coerce_str : Json.json -> option string.
Variable json_loads : string -> Json.JSONDecodeError + Json.json.
Variable provider : string.
Variable respond : World -> string -> string -> string + string.

(** C1, amended: [extract] makes one generation call and returns the
    validated record when the first output passes validation; when it
    fails validation, [extract] makes one further call, with the same
    prompt and the stricter directive appended, and returns the record
    when that second output validates; when both fail, it raises the
    ValueError of the validator for the second output, which carries the
    reason of that failure and not the raw output, after exactly two
    calls. *)
Theorem extract_bounded_retry (conversation context : string) (w : World)
    (raw1 : string) :
  known_provider provider ->
  let prompt := Prompts.get_crm_prompt conversation context in
  let retry_prompt :=
    prompt ++ Prompts.nl ++ Prompts.nl
    ++ "CRITICAL: Return ONLY valid JSON. No other text." in
  let w1 := (w ++ [(provider, prompt)])%list in
  let w2 := (w1 ++ [(provider, retry_prompt)])%list in
  respond w provider prompt = inr raw1 ->
  (forall crm, validated coerce_str json_loads raw1 = inr crm ->
     extract coerce_str json_loads provider respond conversation context w
     = (inr crm, w1))
  /\ (forall e1 raw2,
        validated coerce_str json_loads raw1 = inl e1 ->
        respond w1 provider retry_prompt = inr raw2 ->
        (forall crm, validated coerce_str json_loads raw2 = inr crm ->
           extract coerce_str json_loads provider respond conversation context w
           = (inr crm, w2))
        /\ (forall e2, validated coerce_str json_loads raw2 = inl e2 ->
              extract coerce_str json_loads provider respond conversation context w
              = (inl (Validation e2), w2))).
Proof.
  intros Hp prompt retry_prompt w1 w2 Hfirst.
  assert (Hroute :
            (if String.eqb provider "ollama"
             then _call respond "ollama" prompt
             else if String.eqb provider "transformers"
                  then _call respond "transformers" prompt
                  else if String.eqb provider "llama_cpp"
                       then _call respond "llama_cpp" prompt
                       else raise (Unknown_provider provider)) w
            = (inr raw1, w1)).
  { subst w1. destruct Hp as [->|[->| ->]]; simpl; unfold _call;
      now rewrite Hfirst. }
  assert (Hretry : forall raw2,
            respond w1 provider retry_prompt = inr raw2 ->
            (if String.eqb provider "ollama"
             then _call respond "ollama" (prompt ++ retry_directive)
             else if String.eqb provider "transformers"
                  then _call respond "transformers" (prompt ++ retry_directive)
                  else _call respond "llama_cpp" (prompt ++ retry_directive)) w1
            = (inr raw2, w2)).
  { intros raw2 Hsecond. subst w2.
    change (prompt ++ retry_directive) with retry_prompt.
    destruct Hp as [->|[->| ->]]; simpl; unfold _call; now rewrite Hsecond. }
  unfold validated. split.
  - intros crm Hok. unfold extract, bind. fold prompt. rewrite Hroute, Hok.
    reflexivity.
  - intros e1 raw2 Hbad Hsecond. split.
    + intros crm Hok. unfold extract, bind. fold prompt.
      rewrite Hroute, Hbad, (Hretry raw2 Hsecond), Hok. reflexivity.
    + intros e2 Hbad2. unfold extract, bind. fold prompt.
      rewrite Hroute, Hbad, (Hretry raw2 Hsecond), Hbad2. reflexivity.
Qed.

End Retry.

Lemma extract_bounded_retry_witness :
  extract coerce_v1 Json.loads "ollama" (first_then "Sure, here it is" example_raw)
          "Call with Sarah about pricing" "New client" []
  = (inr (mkCRMData "Discussed pricing options in detail" PROPOSAL None WARM
                    "Send proposal Friday" (Some "2025-03-10")),
     [("ollama", Prompts.get_crm_prompt "Call with Sarah about pricing" "New client");
      ("ollama",
       Prompts.get_crm_prompt "Call with Sarah about pricing" "New client"
       ++ Prompts.nl ++ Prompts.nl
       ++ "CRITICAL: Return ONLY valid JSON. No other text.")]).
Proof.
  refine (proj1 (proj2 (extract_bounded_retry coerce_v1 Json.loads "ollama"
                          (first_then "Sure, here it is" example_raw)
                          "Call with Sarah about pricing" "New client" []
                          "Sure, here it is" (or_introl eq_refl) eq_refl)
                   (Invalid_JSON_from_AI (Json.mkJSONDecodeError "Expecting value" 0))
                   example_raw _ eq_refl) _ _);
    vm_compute; reflexivity.
Defined.

(** C1, as stated, fails: two runs whose outputs differ end in the same
    error, so the error does not carry the last raw output. *)
Lemma error_drops_last_output :
  extract coerce_v1 Json.loads "ollama" (always "I cannot help with that.")
          "Call with Sarah" "New client" []
  = extract coerce_v1 Json.loads "ollama" (always "Sorry, no data.")
            "Call with Sarah" "New client" []
  /\ forall raw_of, ~ error_carries_last_output raw_of.
Proof.
  split; [vm_compute; reflexivity|].
  intros raw_of H.
  pose proof (H (always "I cannot help with that.") "Call with Sarah" "New client"
                "I cannot help with that." "I cannot help with that."
                (Validation (Invalid_JSON_from_AI
                               (Json.mkJSONDecodeError "Expecting value" 0)))
                _ eq_refl eq_refl ltac:(vm_compute; reflexivity)) as H1.
  pose proof (H (always "Sorry, no data.") "Call with Sarah" "New client"
                "Sorry, no data." "Sorry, no data."
                (Validation (Invalid_JSON_from_AI
                               (Json.mkJSONDecodeError "Expecting value" 0)))
                _ eq_refl eq_refl ltac:(vm_compute; reflexivity)) as H2.
  rewrite H1 in H2. discriminate.
Qed.

End AiCrmProofs.

(** ** The sequence matcher *)
Module DifflibProofs.
Import Difflib DifflibSpec.

Lemma size_triple (i j k : nat) : size (i, j, k) = k.
Proof. reflexivity. Qed.

(** *** Where the longest match lies *)
Section Bounds.
Variables a b : list ascii.
Variables alo blo bhi : nat.

Lemma j2len_get_bound n m j :
  row_ok blo n m -> blo <= j -> j2len_get m j <= n /\ j2len_get m j + blo <= j.
Proof.
  intros Hm Hj. destruct j as [|j']; simpl; [lia|].
  destruct (m !! j') as [v|] eqn:Hv; simpl; [|lia].
  destruct (Hm _ _ Hv). lia.
Qed.

Lemma best_ok_mono n n' m : n <= n' -> best_ok alo blo bhi n m -> best_ok alo blo bhi n' m.
Proof. destruct m as [[i j] k]. unfold best_ok. lia. Qed.

Lemma scan_row_ok n j2len js :
  row_ok blo n j2len ->
  forall newj2len best,
    row_ok blo (S n) newj2len -> best_ok alo blo bhi (S n) best ->
    row_ok blo (S n) (fst (scan_row (alo + n) blo bhi j2len js newj2len best))
    /\ best_ok alo blo bhi (S n) (snd (scan_row (alo + n) blo bhi j2len js newj2len best)).
Proof.
  intros Hprev. induction js as [|j js IH]; intros newj2len best Hnew Hbest; simpl.
  - auto.
  - destruct (Nat.ltb_spec j blo) as [|Hlo]; [now apply IH|].
    destruct (Nat.leb_spec bhi j) as [|Hhi]; [auto|].
    destruct (j2len_get_bound n j2len j Hprev Hlo) as [Hk1 Hk2].
    apply IH.
    + intros j' v. rewrite lookup_insert.
      destruct (decide (j = j')) as [<-|].
      * intros H; inversion H; subst. lia.
      * apply Hnew.
    + destruct (Nat.ltb_spec (size best) (j2len_get j2len j + 1)); [|exact Hbest].
      unfold best_ok. lia.
Qed.

Lemma scan_rows_ok len :
  forall n j2len best,
    row_ok blo n j2len -> best_ok alo blo bhi n best ->
    best_ok alo blo bhi (n + len) (scan_rows a b (seq (alo + n) len) blo bhi j2len best).
Proof.
  induction len as [|len IH]; intros n j2len best Hrow Hbest; simpl.
  - now rewrite Nat.add_0_r.
  - pose proof (scan_row_ok n j2len (row_of a b (alo + n)) Hrow ∅ best) as Hstep.
    destruct (scan_row (alo + n) blo bhi j2len (row_of a b (alo + n)) ∅ best)
      as [newj2len best'] eqn:Hscan.
    destruct Hstep as [Hrow' Hbest'].
    + intros j v. rewrite lookup_empty. discriminate.
    + apply (best_ok_mono n); [lia|exact Hbest].
    + simpl in Hrow', Hbest'. replace (S (alo + n)) with (alo + S n) by lia.
      replace (n + S len) with (S n + len) by lia. now apply IH.
Qed.

Lemma extend_back_inside ahi junk fuel :
  forall m, inside alo blo bhi ahi m -> inside alo blo bhi ahi (extend_back a b fuel junk alo blo m).
Proof.
  induction fuel as [|fuel IH]; intros [[i j] k] Hm; simpl; [exact Hm|].
  destruct (_ && _ && _ && _) eqn:Hc; [|exact Hm].
  apply andb_prop in Hc as [Hc _]. apply andb_prop in Hc as [Hc _].
  apply andb_prop in Hc as [Hi Hj].
  apply Nat.ltb_lt in Hi, Hj. apply IH. unfold inside in *. lia.
Qed.

Lemma extend_fwd_inside ahi junk fuel :
  forall m, inside alo blo bhi ahi m -> inside alo blo bhi ahi (extend_fwd a b fuel junk ahi bhi m).
Proof.
  induction fuel as [|fuel IH]; intros [[i j] k] Hm; simpl; [exact Hm|].
  destruct (_ && _ && _ && _) eqn:Hc; [|exact Hm].
  apply andb_prop in Hc as [Hc _]. apply andb_prop in Hc as [Hc _].
  apply andb_prop in Hc as [Hi Hj].
  apply Nat.ltb_lt in Hi, Hj. apply IH. unfold inside in *. lia.
Qed.

(** The fuel of the two loops is enough: more of it changes nothing. *)
Lemma extend_back_fuel junk fuel extra :
  forall m, fst (fst m) - alo <= fuel ->
    extend_back a b (fuel + extra) junk alo blo m = extend_back a b fuel junk alo blo m.
Proof.
  induction fuel as [|fuel IH]; intros [[i j] k] Hm; simpl in *.
  - destruct extra as [|extra]; simpl; [reflexivity|].
    destruct (Nat.ltb_spec alo i); [lia|reflexivity].
  - destruct (_ && _ && _ && _) eqn:Hc; [|reflexivity].
    apply IH. simpl. lia.
Qed.

Lemma extend_fwd_fuel ahi junk fuel extra :
  forall m, ahi - (fst (fst m) + size m) <= fuel ->
    extend_fwd a b (fuel + extra) junk ahi bhi m = extend_fwd a b fuel junk ahi bhi m.
Proof.
  induction fuel as [|fuel IH]; intros [[i j] k] Hm; simpl in *.
  - destruct extra as [|extra]; simpl; [reflexivity|].
    destruct (Nat.ltb_spec (i + k) ahi); [|reflexivity].
    unfold size in Hm. simpl in Hm. lia.
  - destruct (_ && _ && _ && _) eqn:Hc; [|reflexivity].
    apply IH. unfold size in *. simpl in *. lia.
Qed.

Lemma find_longest_match_inside ahi :
  alo <= ahi -> blo <= bhi -> inside alo blo bhi ahi (find_longest_match a b alo ahi blo bhi).
Proof.
  intros Ha Hb. unfold find_longest_match.
  apply extend_fwd_inside, extend_back_inside, extend_fwd_inside, extend_back_inside.
  pose proof (scan_rows_ok (ahi - alo) 0 ∅ (alo, blo, 0)) as H.
  rewrite Nat.add_0_r in H.
  destruct (scan_rows a b (seq alo (ahi - alo)) blo bhi ∅ (alo, blo, 0))
    as [[i j] k].
  unfold best_ok, inside in *.
  assert (alo <= i /\ blo <= j /\ i + k <= alo + (0 + (ahi - alo)) /\ j + k <= bhi).
  { apply H; [|lia]. intros j' v. rewrite lookup_empty. discriminate. }
  lia.
Qed.

End Bounds.

(** *** The blocks cover no more than the shorter text *)
Section Blocks.
Variables a b : list ascii.



(** The fuel of the work loop is enough: more of it changes nothing, so
    the loop of [get_matching_blocks] ends on an empty work list. *)
Lemma blocks_loop_fuel fuel extra :
  forall queue found,
    List.Forall ordered queue -> list_sum (map weight queue) <= fuel ->
    blocks_loop a b (fuel + extra) queue found = blocks_loop a b fuel queue found.
Proof.
  induction fuel as [|fuel IH]; intros queue found Hq Hw.
  - destruct queue as [|[[[alo ahi] blo] bhi] queue]; [|simpl in Hw; lia].
    destruct extra; reflexivity.
  - simpl. destruct queue as [|[[[alo ahi] blo] bhi] queue]; [reflexivity|].
    inversion Hq as [|? ? Ho Hq']; subst. simpl in Ho. destruct Ho as [Ha Hb].
    pose proof (find_longest_match_inside a b alo blo bhi ahi Ha Hb) as Hin.
    destruct (find_longest_match a b alo ahi blo bhi) as [[i j] k].
    unfold inside in Hin. simpl in Hw.
    destruct (Nat.eqb_spec k 0) as [->|Hk].
    + apply IH; [exact Hq'|lia].
    + apply IH.
      * destruct (_ && _); destruct (_ && _); repeat constructor;
          try assumption; simpl; lia.
      * destruct ((alo <? i) && (blo <? j)); destruct ((i + k <? ahi) && (j + k <? bhi));
          simpl; lia.
Qed.





End Blocks.


(** *** A text against itself *)
Section Self.
Variable a : list ascii.

Lemma run_eq j : run a j = if kept a j then S (run_before a j) else 0.
Proof. destruct j; reflexivity. Qed.

Lemma run_le j : run a j <= S j.
Proof.
  induction j as [|j IH]; simpl.
  - destruct (kept a 0); lia.
  - destruct (kept a (S j)); lia.
Qed.

Lemma get_prev_le i m j :
  prev_ok a i m -> j2len_get m j <= run_before a i /\ j2len_get m j <= run_before a j.
Proof.
  intros [Hm _]. destruct j as [|j']; simpl; [lia|].
  destruct (m !! j') as [v|] eqn:Hv; simpl; [|lia].
  destruct (Hm _ _ Hv). lia.
Qed.

Lemma get_prev_diag i m : prev_ok a i m -> j2len_get m i = run_before a i.
Proof.
  intros Hm. pose proof (get_prev_le i m i Hm) as [Hle _].
  destruct Hm as [_ Hd]. destruct i as [|i']; [reflexivity|]. simpl in *.
  destruct (kept a i') eqn:Hk.
  - now rewrite (Hd i' eq_refl Hk).
  - rewrite run_eq, Hk in Hle |- *. lia.
Qed.

Lemma fill_lookup m js :
  forall newm j v,
    fill m js newm !! j = Some v ->
    newm !! j = Some v \/ (In j js /\ v = j2len_get m j + 1).
Proof.
  induction js as [|j0 js IH]; intros newm j v; simpl; [auto|].
  intros H. apply IH in H as [H|[Hin ->]]; [|auto].
  rewrite lookup_insert in H. destruct (decide (j0 = j)) as [->|]; [|auto].
  inversion H. auto.
Qed.

Lemma fill_lookup_notin m js :
  forall newm j, ~ In j js -> fill m js newm !! j = newm !! j.
Proof.
  induction js as [|j0 js IH]; intros newm j Hnot; simpl; [reflexivity|].
  rewrite IH by (intros H; apply Hnot; now right).
  apply lookup_insert_ne. intros ->. apply Hnot. now left.
Qed.

(** Columns whose length does not beat the best leave it as it is. *)
Lemma scan_row_quiet i m js2 js :
  forall newm best,
    List.Forall (fun j => j < length a /\ j2len_get m j + 1 <= size best) js ->
    scan_row i 0 (length a) m (js ++ js2) newm best
    = scan_row i 0 (length a) m js2 (fill m js newm) best.
Proof.
  induction js as [|j js IH]; intros newm best Hall; simpl; [reflexivity|].
  inversion Hall as [|? ? [Hj Hk] Hall']; subst.
  destruct (Nat.leb_spec (length a) j); [lia|].
  destruct (Nat.ltb_spec (size best) (j2len_get m j + 1)); [lia|].
  now apply IH.
Qed.

Lemma indices_from_elem c l :
  forall s j, In j (indices_from c l s) -> s <= j /\ l !! (j - s) = Some c.
Proof.
  induction l as [|x l IH]; intros s j; simpl; [contradiction|].
  assert (Hrest : In j (indices_from c l (S s)) ->
                  s <= j /\ (x :: l) !! (j - s) = Some c).
  { intros H. apply IH in H as [Hle Hl]. split; [lia|].
    replace (j - s) with (S (j - S s)) by lia. exact Hl. }
  destruct (Ascii.eqb_spec x c) as [->|]; [|exact Hrest].
  intros [<-|H]; [|now apply Hrest].
  rewrite Nat.sub_diag. auto.
Qed.

Lemma indices_from_split c l :
  forall s i, s <= i -> l !! (i - s) = Some c ->
    exists js1 js2,
      indices_from c l s = (js1 ++ i :: js2)%list
      /\ List.Forall (fun j => j < i) js1 /\ List.Forall (fun j => i < j) js2.
Proof.
  induction l as [|x l IH]; intros s i Hle Hl; [discriminate|].
  destruct (Nat.eq_dec i s) as [->|Hne].
  - rewrite Nat.sub_diag in Hl. inversion Hl; subst. simpl.
    rewrite Ascii.eqb_refl. exists [], (indices_from c l (S s)).
    repeat split; [constructor|].
    apply List.Forall_forall. intros j Hj. apply indices_from_elem in Hj. lia.
  - replace (i - s) with (S (i - S s)) in Hl by lia. simpl in Hl.
    destruct (IH (S s) i ltac:(lia) Hl) as (js1 & js2 & Heq & H1 & H2).
    simpl. rewrite Heq. destruct (Ascii.eqb x c).
    + exists (s :: js1), js2. repeat split; [|exact H2].
      constructor; [lia|exact H1].
    + exists js1, js2. auto.
Qed.

(** One row of the table. *)
Lemma scan_row_self i m best :
  i < length a -> prev_ok a i m -> diag_ok a i best ->
  prev_ok a (S i) (fst (scan_row i 0 (length a) m (row_of a a i) ∅ best))
  /\ diag_ok a (S i) (snd (scan_row i 0 (length a) m (row_of a a i) ∅ best)).
Proof.
  intros Hi Hm Hbest. destruct best as [[bi bj] bk].
  destruct Hbest as (Hd & Hin & Hruns).
  destruct (lookup_lt_is_Some_2 a i Hi) as [c Hc].
  unfold row_of, b2j. rewrite Hc.
  destruct (popular a c) eqn:Hpop.
  - assert (Hk : kept a i = false) by (unfold kept; now rewrite Hc, Hpop).
    simpl. split.
    + split; [intros j v; rewrite lookup_empty; discriminate|].
      intros i' Heq. inversion Heq; subst. congruence.
    + repeat split; [exact Hd|lia|]. intros i' Hlt.
      destruct (Nat.eq_dec i' i) as [->|]; [|apply Hruns; lia].
      rewrite run_eq, Hk. lia.
  - assert (Hk : kept a i = true) by (unfold kept; now rewrite Hc, Hpop).
    assert (Hkept : forall j, In j (indices_from c a 0) ->
                              j < length a /\ kept a j = true).
    { intros j Hj. apply indices_from_elem in Hj as [_ Hj].
      rewrite Nat.sub_0_r in Hj. split; [now apply lookup_lt_Some in Hj|].
      unfold kept. now rewrite Hj, Hpop. }
    destruct (indices_from_split c a 0 i ltac:(lia)) as (js1 & js2 & Heq & H1 & H2);
      [now rewrite Nat.sub_0_r|].
    rewrite Heq in *.
    assert (Hrun_i : j2len_get m i + 1 = run a i).
    { rewrite (get_prev_diag i m Hm), run_eq, Hk. lia. }
    assert (Hcol : forall j, In j (js1 ++ i :: js2) ->
               j2len_get m j + 1 <= run a i /\ j2len_get m j + 1 <= run a j).
    { intros j Hj. destruct (Hkept j Hj) as [_ Hkj].
      destruct (get_prev_le i m j Hm). rewrite (run_eq i), (run_eq j), Hk, Hkj. lia. }
    rewrite scan_row_quiet.
    2:{ apply List.Forall_forall. intros j Hj.
        assert (Hj' : In j (js1 ++ i :: js2)) by (apply in_or_app; now left).
        split; [apply Hkept, Hj'|].
        rewrite List.Forall_forall in H1. specialize (H1 j Hj).
        destruct (Hcol j Hj'). rewrite size_triple. specialize (Hruns j H1). lia. }
    change (i :: js2) with ([i] ++ js2)%list.
    simpl app at 1. simpl scan_row.
    destruct (Nat.leb_spec (length a) i); [lia|].
    rewrite Hrun_i.
    set (best' := if bk <? run a i then (i + 1 - run a i, i + 1 - run a i, run a i)
                  else (bi, bj, bk)).
    assert (Hbest' : diag_ok a (S i) best' /\ run a i <= size best').
    { subst best'. pose proof (run_le i).
      destruct (Nat.ltb_spec bk (run a i)); simpl;
        repeat split; try lia; try exact Hd; intros i' Hlt;
        (destruct (Nat.eq_dec i' i) as [->|]; [lia|]);
        specialize (Hruns i' ltac:(lia)); lia. }
    destruct Hbest' as [Hdiag Hsize].
    rewrite <- (app_nil_r js2), scan_row_quiet.
    2:{ apply List.Forall_forall. intros j Hj.
        assert (Hj' : In j (js1 ++ i :: js2))
          by (apply in_or_app; right; now right).
        split; [apply Hkept, Hj'|]. destruct (Hcol j Hj'). lia. }
    simpl. split; [|exact Hdiag]. split.
    + intros j v Hv. apply fill_lookup in Hv as [Hv|[Hj ->]].
      * rewrite lookup_insert in Hv. destruct (decide (i = j)) as [<-|].
        -- inversion Hv. simpl. lia.
        -- apply fill_lookup in Hv as [Hv|[Hj ->]].
           ++ rewrite lookup_empty in Hv. discriminate.
           ++ simpl. apply Hcol. apply in_or_app. now left.
      * simpl. apply Hcol. apply in_or_app. right. now right.
    + intros i' Hsucc _. inversion Hsucc; subst i'.
      rewrite fill_lookup_notin.
      * apply lookup_insert_eq.
      * intros Hj. rewrite List.Forall_forall in H2. specialize (H2 i Hj). lia.
Qed.

Lemma scan_rows_self len :
  forall i m best,
    i + len = length a -> prev_ok a i m -> diag_ok a i best ->
    diag_ok a (length a) (scan_rows a a (seq i len) 0 (length a) m best).
Proof.
  induction len as [|len IH]; intros i m best Hlen Hm Hbest; simpl.
  - now replace (length a) with i by lia.
  - pose proof (scan_row_self i m best ltac:(lia) Hm Hbest) as [Hm' Hbest'].
    destruct (scan_row i 0 (length a) m (row_of a a i) ∅ best) as [newm best'].
    apply IH; [lia|exact Hm'|exact Hbest'].
Qed.

Lemma extend_back_self fuel :
  forall d k, d <= fuel -> d <= length a ->
    extend_back a a fuel false 0 0 (d, d, k) = (0, 0, k + d).
Proof.
  induction fuel as [|fuel IH]; intros d k Hd Hlen; simpl.
  - replace d with 0 by lia. now rewrite Nat.add_0_r.
  - destruct d as [|d]; simpl; [now rewrite Nat.add_0_r|].
    rewrite Nat.sub_0_r.
    destruct (lookup_lt_is_Some_2 a d ltac:(lia)) as [c Hc].
    rewrite Hc. simpl. rewrite Ascii.eqb_refl.
    rewrite IH by lia. f_equal. lia.
Qed.

Lemma extend_fwd_self fuel :
  forall k, length a - k <= fuel -> k <= length a ->
    extend_fwd a a fuel false (length a) (length a) (0, 0, k) = (0, 0, length a).
Proof.
  induction fuel as [|fuel IH]; intros k Hk Hlen; simpl.
  - f_equal. lia.
  - destruct (Nat.ltb_spec k (length a)) as [Hlt|Hge]; simpl.
    + destruct (lookup_lt_is_Some_2 a k Hlt) as [c Hc].
      rewrite Hc. simpl. rewrite Ascii.eqb_refl. apply IH; lia.
    + f_equal. lia.
Qed.

(** The longest match of a text with itself is the whole text. *)
Lemma find_longest_match_self :
  find_longest_match a a 0 (length a) 0 (length a) = (0, 0, length a).
Proof.
  unfold find_longest_match.
  replace (length a - 0) with (length a) by lia.
  pose proof (scan_rows_self (length a) 0 ∅ (0, 0, 0) eq_refl) as H.
  destruct (scan_rows a a (seq 0 (length a)) 0 (length a) ∅ (0, 0, 0))
    as [[bi bj] bk].
  destruct H as (-> & Hin & _).
  - split; [intros j v; rewrite lookup_empty; discriminate|discriminate].
  - repeat split; [lia|]. intros i' Hlt. lia.
  - cbn [fst snd]. rewrite (Nat.sub_0_r bj), extend_back_self by lia.
    cbn [fst snd size]. rewrite extend_fwd_self by lia.
    cbn [fst snd size]. rewrite Nat.sub_diag. reflexivity.
Qed.

Lemma matches_self : matches a a = length a.
Proof.
  unfold matches, get_matching_blocks.
  replace (2 * length a + 1) with (S (2 * length a)) by lia.
  cbn [blocks_loop]. rewrite find_longest_match_self.
  destruct (length a) as [|n] eqn:Hn.
  - destruct (2 * 0); reflexivity.
  - cbn [Nat.eqb]. rewrite Nat.ltb_irrefl. cbn [andb].
    replace (0 + S n <? S n) with false by (symmetry; apply Nat.ltb_ge; lia).
    cbn [andb]. destruct (2 * S n); simpl; lia.
Qed.

End Self.

End DifflibProofs.

(** ** The similarity scorer *)
Module SimilarityProofs.
Import Database DifflibSpec DifflibProofs.


Lemma ratio_self (a : list ascii) : (Difflib.ratio a a == 1)%Q.
Proof.
  unfold Difflib.ratio. rewrite matches_self.
  destruct (Nat.eqb_spec (length a + length a) 0) as [|Hlen]; [reflexivity|].
  replace (Z.of_nat (length a + length a)) with (2 * Z.of_nat (length a))%Z by lia.
  rewrite inject_Z_mult. change (inject_Z 2) with 2%Q.
  apply Qmult_inv_r. intros H.
  change 2%Q with (inject_Z 2) in H. rewrite <- inject_Z_mult in H.
  unfold Qeq, inject_Z in H. cbn [Qnum Qden] in H. lia.
Qed.




(** The case folding is that of [str.lower], which reaches the accented
    capitals: U+00C0 and U+00E0 are one letter to the scorer. *)
Example similarity_folds_accented :
  (_calculate_similarity (Some (String (ascii_of_nat 192) "propos"))
                         (Some (String (ascii_of_nat 224) "PROPOS")) == 100)%Q.
Proof. vm_compute. reflexivity. Qed.

End SimilarityProofs.

(* ===================================================================== *)
(** * Part IV: further properties of the code *)
(* ===================================================================== *)

(** ** Sorted lists *)
Module ListFacts.

Lemma Sorted_snoc {A : Type} (R : A -> A -> Prop) (l : list A) (x : A) :
  Sorted R l -> (forall pre y, l = (pre ++ [y])%list -> R y x) ->
  Sorted R (l ++ [x])%list.
Proof.
  induction l as [|a l IH]; intros Hs Hl; simpl.
  - repeat constructor.
  - inversion Hs as [|? ? Hs' Hhd]; subst. constructor.
    + apply IH; [exact Hs'|]. intros pre y ->. now apply (Hl (a :: pre) y).
    + destruct l as [|b l]; simpl.
      * constructor. now apply (Hl [] a).
      * constructor. now inversion Hhd.
Qed.

Lemma Sorted_rev {A : Type} (R : A -> A -> Prop) (l : list A) :
  Sorted R l -> Sorted (fun x y => R y x) (rev l).
Proof.
  induction 1 as [|x l Hs IH Hhd]; simpl; [constructor|].
  apply Sorted_snoc; [exact IH|].
  intros pre y Hrev.
  assert (Hl : l = y :: rev pre).
  { rewrite <- (rev_involutive l), Hrev, rev_app_distr. reflexivity. }
  subst l. now inversion Hhd.
Qed.

Lemma Sorted_image {A B : Type} (R : A -> A -> Prop) (S : B -> B -> Prop)
    (f : A -> B) (l : list A) :
  (forall x y, R x y -> S (f x) (f y)) -> Sorted R l -> Sorted S (map f l).
Proof.
  intros Hf. induction 1 as [|x l Hs IH Hhd]; simpl; constructor; [exact IH|].
  destruct Hhd; simpl; constructor. now apply Hf.
Qed.

Lemma Sorted_filter_trans {A : Type} (R : A -> A -> Prop) (p : A -> bool)
    (l : list A) :
  (forall x y z, R x y -> R y z -> R x z) ->
  Sorted R l -> Sorted R (List.filter p l).
Proof.
  intros Htrans Hs.
  apply Sorted_StronglySorted in Hs; [|exact Htrans].
  apply StronglySorted_Sorted.
  induction Hs as [|x l Hs IH Hall]; simpl; [constructor|].
  destruct (p x); [|exact IH].
  constructor; [exact IH|].
  rewrite List.Forall_forall in *. intros y Hy.
  apply filter_In in Hy as [Hy _]. now apply Hall.
Qed.

(** The order of [ORDER BY] on text columns is transitive. *)
Lemma string_leb_trans (x y z : string) :
  String.leb x y = true -> String.leb y z = true -> String.leb x z = true.
Proof.
  unfold String.leb. revert y z.
  induction x as [|a x IH]; intros [|b y] [|c z]; simpl; try congruence.
  unfold Ascii.compare.
  destruct (N.compare_spec (N_of_ascii a) (N_of_ascii b)) as [Hab|Hab|Hab];
    destruct (N.compare_spec (N_of_ascii b) (N_of_ascii c)) as [Hbc|Hbc|Hbc];
    try congruence;
    destruct (N.compare_spec (N_of_ascii a) (N_of_ascii c)) as [Hac|Hac|Hac];
    try congruence; try lia.
  apply IH.
Qed.

End ListFacts.

(** ** database.py: the client table under its operations *)
Module StoreProofs.
Import Database DatabaseSpec StoreSpec DatabaseProofs.

Lemma hard_delete_ids i l :
  List.NoDup (map row_id l) ->
  List.NoDup (map row_id (List.filter (fun row => negb (row_id row =? i)) l)).
Proof.
  induction l as [|r l IH]; simpl; intros Hnd; [constructor|].
  inversion Hnd as [|? ? Hnotin Hnd']; subst.
  destruct (negb (row_id r =? i)); simpl; [|now apply IH].
  constructor; [|now apply IH].
  intros Hin. apply Hnotin. apply in_map_iff in Hin as (x & Hx & Hin).
  apply filter_In in Hin as [Hin _]. apply in_map_iff. eauto.
Qed.

Lemma hard_delete_ok i st :
  ids_unique st -> seq_bounds st ->
  ids_unique (snd (delete_client i false st))
  /\ seq_bounds (snd (delete_client i false st)).
Proof.
  unfold ids_unique, seq_bounds, delete_client. simpl. intros Hnd Hb. split.
  - now apply hard_delete_ids.
  - rewrite List.Forall_forall in *. intros x Hx.
    apply filter_In in Hx as [Hx _]. now apply Hb.
Qed.

Lemma insert_and_fetch_store client now st :
  snd (insert_and_fetch client now st) = snd (insert_client client now st)
  \/ snd (insert_and_fetch client now st) = st.
Proof.
  unfold insert_and_fetch.
  destruct (insert_client client now st) as [row st'] eqn:Hins. simpl.
  destruct (select_by_id _ _); simpl; auto.
Qed.

Lemma create_client_store client force now st :
  snd (create_client client force now st) = snd (insert_client client now st)
  \/ snd (create_client client force now st) = st.
Proof.
  unfold create_client.
  destruct (negb force); [|apply insert_and_fetch_store].
  destruct (find_potential_duplicates _ _ _ _); [apply insert_and_fetch_store|].
  now right.
Qed.

(** X1. The primary key and the AUTOINCREMENT counter: every operation on
    the client table leaves the ids of the rows distinct and none of them
    above the counter, and never lowers the counter. *)
Theorem store_invariants_kept (st : Store) :
  ids_unique st -> seq_bounds st ->
  (forall client force now,
     let st' := snd (create_client client force now st) in
     ids_unique st' /\ seq_bounds st' /\ clients_seq st <= clients_seq st')
  /\ (forall client_id soft_delete,
        let st' := snd (delete_client client_id soft_delete st) in
        ids_unique st' /\ seq_bounds st' /\ clients_seq st' = clients_seq st)
  /\ (forall client_id,
        let st' := snd (restore_client client_id st) in
        ids_unique st' /\ seq_bounds st' /\ clients_seq st' = clients_seq st).
Proof.
  intros Hnd Hb. split; [|split].
  - intros client force now st'. subst st'.
    destruct (create_client_store client force now st) as [-> | ->].
    + destruct (insert_client_ok client now st Hnd Hb) as [H1 H2].
      repeat split; try assumption. simpl. lia.
    + repeat split; auto.
  - intros i [|] st'; subst st'.
    + destruct (soft_delete_ok i st Hnd Hb). repeat split; assumption.
    + destruct (hard_delete_ok i st Hnd Hb). repeat split; assumption.
  - intros i st'. subst st'.
    destruct (restore_ok i st Hnd Hb). repeat split; assumption.
Qed.

Lemma store_invariants_kept_witness :
  let st := snd (create_client new_sarah false "2025-02-01 08:00:00" empty_store) in
  ids_unique (snd (delete_client 1 false st))
  /\ seq_bounds (snd (delete_client 1 false st)).
Proof.
  intros st.
  destruct (store_invariants_kept empty_store) as (Hc & _); [constructor|constructor|].
  destruct (Hc new_sarah false "2025-02-01 08:00:00") as (H1 & H2 & _).
  destruct (store_invariants_kept st H1 H2) as (_ & Hd & _).
  destruct (Hd 1 false) as (H3 & H4 & _). split; assumption.
Defined.

Lemma touched_spec i l : touched i l = true <-> In i (map row_id l).
Proof.
  unfold touched. rewrite existsb_exists, in_map_iff. split.
  - intros (r & Hr & Hid). apply Nat.eqb_eq in Hid. eauto.
  - intros (r & Hid & Hr). exists r. split; [exact Hr|now apply Nat.eqb_eq].
Qed.

Lemma map_set_active_absent flag i l :
  ~ In i (map row_id l) -> map (set_active flag i) l = l.
Proof.
  induction l as [|r l IH]; simpl; intros Hn; [reflexivity|].
  rewrite set_active_other by (intros H; apply Hn; now left).
  rewrite IH; [reflexivity|]. intros H. apply Hn. now right.
Qed.

Lemma filter_absent i l :
  ~ In i (map row_id l) ->
  List.filter (fun row => negb (row_id row =? i)) l = l.
Proof.
  induction l as [|r l IH]; simpl; intros Hn; [reflexivity|].
  destruct (Nat.eqb_spec (row_id r) i) as [Heq|Hne]; simpl.
  - exfalso. apply Hn. now left.
  - rewrite IH; [reflexivity|]. intros H. apply Hn. now right.
Qed.

(** On an id that no row has nothing is touched. *)
Lemma unknown_id_absent (st : Store) (client_id : nat) :
  ~ In client_id (map row_id (clients st)) ->
  restore_client client_id st = (false, st).
Proof.
  intros Hn.
  assert (Ht : touched client_id (clients st) = false).
  { destruct (touched client_id (clients st)) eqn:Ht; [|reflexivity].
    apply touched_spec in Ht. contradiction. }
  destruct st as [rows n ints]. unfold restore_client. simpl in *.
  rewrite Ht. now rewrite map_set_active_absent.
Qed.

(** X2. What [delete_client] and [restore_client] return tells whether a
    row has the id; for an id that no row has they return False and leave
    the store as it was. *)
Theorem unknown_id_leaves_store (st : Store) (client_id : nat) :
  (forall soft_delete,
     fst (delete_client client_id soft_delete st) = true
     <-> In client_id (map row_id (clients st)))
  /\ (fst (restore_client client_id st) = true
      <-> In client_id (map row_id (clients st)))
  /\ (~ In client_id (map row_id (clients st)) ->
      (forall soft_delete, delete_client client_id soft_delete st = (false, st))
      /\ restore_client client_id st = (false, st)).
Proof.
  split; [|split].
  - intros [|]; simpl; apply touched_spec.
  - simpl. apply touched_spec.
  - intros Hn.
    assert (Ht : touched client_id (clients st) = false).
    { destruct (touched client_id (clients st)) eqn:Ht; [|reflexivity].
      apply touched_spec in Ht. contradiction. }
    destruct st as [rows n ints]. simpl in *. split.
    + intros [|]; unfold delete_client; simpl; rewrite Ht.
      * now rewrite map_set_active_absent.
      * now rewrite filter_absent.
    + unfold restore_client. simpl. rewrite Ht.
      now rewrite map_set_active_absent.
Qed.

Lemma create_client_forced client now st :
  seq_bounds st ->
  create_client client true now st
  = (inr (Client_of_row (fst (insert_client client now st))),
     snd (insert_client client now st)).
Proof.
  intros Hb. unfold create_client, insert_and_fetch, insert_client. simpl.
  erewrite select_fresh; [reflexivity|now apply fresh_id|reflexivity].
Qed.

(** X3. A hard delete is final, and the id is not handed out again: the
    client is gone from the lookup by id and from the list of clients, the
    inactive ones included; [restore_client] finds nothing to restore; and
    a client created afterwards gets the id after the counter, above the id
    of the deleted client. *)
Theorem hard_delete_is_final (st : Store) (row : ClientRow) :
  seq_bounds st -> In row (clients st) ->
  let st1 := snd (delete_client (row_id row) false st) in
  fst (delete_client (row_id row) false st) = true
  /\ get_client st1 (row_id row) = inr None
  /\ (forall include_inactive found c,
        get_all_clients st1 include_inactive = inr found ->
        In c found -> id c <> row_id row)
  /\ restore_client (row_id row) st1 = (false, st1)
  /\ (forall client now,
        exists c st2,
          create_client client true now st1 = (inr c, st2)
          /\ id c = S (clients_seq st) /\ row_id row < id c).
Proof.
  intros Hb Hin st1.
  assert (Hgone : ~ In (row_id row) (map row_id (clients st1))).
  { subst st1. simpl. intros H. apply in_map_iff in H as (r & Hid & Hr).
    apply filter_In in Hr as [_ Hr]. apply negb_true_iff in Hr.
    apply Nat.eqb_neq in Hr. contradiction. }
  assert (Hb1 : seq_bounds st1).
  { subst st1. unfold seq_bounds in *. simpl.
    rewrite List.Forall_forall in *. intros x Hx.
    apply filter_In in Hx as [Hx _]. now apply Hb. }
  split; [|split; [|split; [|split]]].
  - simpl. apply touched_spec. now apply in_map.
  - unfold get_client.
    destruct (List.find _ (clients st1)) as [r|] eqn:Hf; [|reflexivity].
    apply find_some in Hf as [Hr Hp]. apply andb_prop in Hp as [Hid _].
    apply Nat.eqb_eq in Hid. exfalso. apply Hgone. rewrite <- Hid.
    now apply in_map.
  - intros inc found c Hfound Hc Hid.
    apply get_all_clients_built in Hfound. subst found.
    apply in_map_iff in Hc as (r & <- & Hr).
    apply (proj1 (In_order_by_created_desc _ _)) in Hr.
    assert (Hr' : In r (clients st1)).
    { destruct (negb inc); [now apply filter_In in Hr as [Hr _]|exact Hr]. }
    apply Hgone. simpl in Hid. rewrite <- Hid. now apply in_map.
  - now apply (unknown_id_absent st1).
  - intros client now. rewrite (create_client_forced client now st1 Hb1).
    eexists _, _. split; [reflexivity|]. simpl. split; [reflexivity|].
    unfold seq_bounds in Hb. rewrite List.Forall_forall in Hb.
    specialize (Hb _ Hin). simpl in Hb. lia.
Qed.

Lemma hard_delete_is_final_witness :
  get_client (snd (delete_client 1 false store_with_active)) 1 = inr None
  /\ restore_client 1 (snd (delete_client 1 false store_with_active))
     = (false, snd (delete_client 1 false store_with_active)).
Proof.
  destruct (hard_delete_is_final store_with_active active_row)
    as (_ & H1 & _ & H2 & _).
  - repeat constructor.
  - left. reflexivity.
  - split; [exact H1|exact H2].
Defined.

Lemma set_active_twice f g i r :
  set_active f i (set_active g i r) = set_active f i r.
Proof.
  unfold set_active. destruct (Nat.eqb_spec (row_id r) i) as [Heq|Hne]; simpl.
  - rewrite Heq, Nat.eqb_refl. reflexivity.
  - destruct (Nat.eqb_spec (row_id r) i); [contradiction|reflexivity].
Qed.

Lemma map_set_active_twice f g i l :
  map (set_active f i) (map (set_active g i) l) = map (set_active f i) l.
Proof.
  rewrite map_map. apply map_ext. intros r. apply set_active_twice.
Qed.

(** X4. Soft delete and restore of one client compose to the one applied
    last: doing either twice is doing it once, and either one undoes the
    other's mark whatever came before. *)
Theorem soft_delete_restore_last_wins (st : Store) (client_id : nat) :
  let deleted s := snd (delete_client client_id true s) in
  let restored s := snd (restore_client client_id s) in
  deleted (deleted st) = deleted st
  /\ restored (restored st) = restored st
  /\ deleted (restored st) = deleted st
  /\ restored (deleted st) = restored st.
Proof.
  simpl. unfold delete_client, restore_client. simpl.
  rewrite !map_set_active_twice. repeat split.
Qed.

Lemma insert_newest_perm x l : Permutation (insert_newest x l) (x :: l).
Proof.
  induction l as [|y l IH]; simpl; [reflexivity|].
  destruct (String.leb _ _); [reflexivity|].
  rewrite IH. apply perm_swap.
Qed.

Lemma order_by_created_desc_perm l : Permutation (order_by_created_desc l) l.
Proof.
  induction l as [|x l IH]; simpl; [reflexivity|].
  rewrite insert_newest_perm. now apply perm_skip.
Qed.

Lemma insert_newest_sorted x l :
  Sorted newest_row_first l -> Sorted newest_row_first (insert_newest x l).
Proof.
  induction l as [|y l IH]; simpl; intros Hs.
  - repeat constructor.
  - destruct (String.leb (row_created_at y) (row_created_at x)) eqn:Hle.
    + constructor; [exact Hs|]. now constructor.
    + assert (Hyx : newest_row_first y x).
      { unfold newest_row_first.
        destruct (String.leb_total (row_created_at x) (row_created_at y)) as [H|H];
          [exact H|congruence]. }
      inversion Hs as [|? ? Hs' Hhd]; subst. constructor; [now apply IH|].
      destruct l as [|z l]; simpl.
      * now constructor.
      * destruct (String.leb (row_created_at z) (row_created_at x)); constructor;
          [exact Hyx|now inversion Hhd].
Qed.

Lemma order_by_created_desc_sorted l :
  Sorted newest_row_first (order_by_created_desc l).
Proof.
  induction l as [|x l IH]; simpl; [constructor|].
  now apply insert_newest_sorted.
Qed.

Lemma Sorted_Client_of_row l :
  Sorted newest_row_first l -> Sorted newest_first (map Client_of_row l).
Proof.
  induction 1 as [|r l Hs IH Hhd]; simpl; constructor; [exact IH|].
  destruct Hhd; simpl; constructor. assumption.
Qed.

Lemma filter_split_length {A : Type} (p : A -> bool) (l : list A) :
  length l = length (List.filter p l) + length (List.filter (fun x => negb (p x)) l).
Proof.
  induction l as [|x l IH]; simpl; [reflexivity|].
  destruct (p x); simpl; lia.
Qed.

(** X5. When every stored record passes the field checks, the list of
    clients is returned, and it is the stored rows (the active ones, unless
    the inactive are asked for) in the order newest creation time first;
    the list with the inactive ones is longer than the list without by the
    number of soft-deleted rows. *)
Theorem get_all_clients_newest_first (st : Store) :
  clients_fit st ->
  (forall include_inactive,
     exists found,
       get_all_clients st include_inactive = inr found
       /\ Permutation found
                      (map Client_of_row
                           (if include_inactive then clients st
                            else List.filter active (clients st)))
       /\ Sorted newest_first found)
  /\ (exists every listed,
        get_all_clients st true = inr every
        /\ get_all_clients st false = inr listed
        /\ length every
           = length listed + length (List.filter soft_deleted (clients st))).
Proof.
  intros Hfit. split.
  - intros inc. rewrite (get_all_clients_fit st inc Hfit). eexists.
    split; [reflexivity|]. split.
    + apply Permutation_map. rewrite order_by_created_desc_perm.
      destruct inc; reflexivity.
    + apply Sorted_Client_of_row, order_by_created_desc_sorted.
  - rewrite !(get_all_clients_fit st _ Hfit). eexists _, _.
    split; [reflexivity|]. split; [reflexivity|].
    simpl. rewrite !length_map.
    rewrite !(Permutation_length (order_by_created_desc_perm _)).
    apply (filter_split_length active).
Qed.

Lemma get_all_clients_newest_first_witness :
  exists found,
    get_all_clients store_with_active false = inr found
    /\ Sorted newest_first found.
Proof.
  destruct (get_all_clients_newest_first store_with_active) as [H _].
  - repeat constructor.
  - destruct (H false) as (found & H1 & _ & H2). exists found. split; assumption.
Defined.

End StoreProofs.

(** ** database.py: what the duplicate guard reports *)
Module DuplicateProofs.
Import Database DatabaseSpec StoreSpec DatabaseProofs.


Lemma lower_nonempty s : Py.nonempty (Py.lower s) = Py.nonempty s.
Proof. destruct s; reflexivity. Qed.

Lemma similarity_same_folded s1 s2 :
  Py.nonempty s1 = true -> Py.lower s1 = Py.lower s2 ->
  (_calculate_similarity (Some s1) (Some s2) == 100)%Q.
Proof.
  intros Hne Heq. unfold _calculate_similarity.
  assert (Hne2 : Py.nonempty s2 = true).
  { rewrite <- lower_nonempty, <- Heq, lower_nonempty. exact Hne. }
  rewrite Hne, Hne2. simpl. rewrite Heq, SimilarityProofs.ratio_self. reflexivity.
Qed.

(** The records reported, read off the rows of the store. *)
Lemma In_find_potential_duplicates st name email company s :
  In s (find_potential_duplicates st name email company)
  <-> exists row, In row (clients st)
                  /\ expected_selected present_email_match name email company row = true
                  /\ s = score_row name email company row.
Proof.
  unfold find_potential_duplicates. rewrite scan_clients_filter. split.
  - intros H. apply (Permutation_in _ (sorted_desc_perm _)) in H.
    apply in_map_iff in H as (row & <- & Hr). apply filter_In in Hr as [Hr Hsel].
    eauto.
  - intros (row & Hr & Hsel & ->).
    apply (Permutation_in _ (Permutation_sym (sorted_desc_perm _))).
    apply in_map. apply filter_In. auto.
Qed.




(** X7. A candidate whose name and company are those of an active record,
    up to the case of letters, is always reported, with total score
    100, whatever the emails. *)
Theorem same_name_and_company_reported (st : Store) (row : ClientRow)
    (name company company' : string) (email : option string) :
  In row (clients st) -> active row = true ->
  row_company row = Some company' ->
  Py.nonempty name = true -> Py.lower name = Py.lower (row_name row) ->
  Py.nonempty company = true -> Py.lower company = Py.lower company' ->
  exists s,
    In s (find_potential_duplicates st name email (Some company))
    /\ s_id s = row_id row /\ (total_score s == 100)%Q.
Proof.
  intros Hr Ha Hco Hn Hnl Hc Hcl.
  assert (Htot : (expected_total present_email_match name email (Some company) row
                  == 100)%Q).
  { unfold expected_total. destruct (present_email_match email row); [reflexivity|].
    unfold company_part. rewrite Hco.
    rewrite (similarity_same_folded _ _ Hn Hnl), (similarity_same_folded _ _ Hc Hcl).
    reflexivity. }
  exists (score_row name email (Some company) row). split; [|split].
  - apply In_find_potential_duplicates. exists row. split; [exact Hr|].
    split; [|reflexivity]. unfold expected_selected. rewrite Ha. simpl.
    rewrite (Qle_bool_proper _ _ _ Htot). reflexivity.
  - reflexivity.
  - rewrite score_row_total. exact Htot.
Qed.

Lemma same_name_and_company_reported_witness :
  exists s,
    In s (find_potential_duplicates store_with_active "SARAH JONES" None (Some "acme"))
    /\ s_id s = 1 /\ (total_score s == 100)%Q.
Proof.
  apply (same_name_and_company_reported store_with_active active_row
           "SARAH JONES" "acme" "Acme" None);
    solve [reflexivity | left; reflexivity].
Defined.

Lemma insert_and_fetch_row client now st c st1 :
  insert_and_fetch client now st = (inr c, st1) ->
  id c = S (clients_seq st)
  /\ In (mkClientRow (S (clients_seq st)) (cc_name client) (cc_company client)
                     (cc_email client) now (Some true))
        (clients st1).
Proof.
  unfold insert_and_fetch, insert_client. simpl.
  destruct (select_by_id _ _) as [r|] eqn:Hsel; [|discriminate].
  intros H. inversion H; subst. clear H. split.
  - apply find_some in Hsel as [_ Hid]. apply Nat.eqb_eq in Hid. exact Hid.
  - simpl. apply in_or_app. right. left. reflexivity.
Qed.

Lemma create_client_row client force now st c st1 :
  create_client client force now st = (inr c, st1) ->
  id c = S (clients_seq st)
  /\ In (mkClientRow (S (clients_seq st)) (cc_name client) (cc_company client)
                     (cc_email client) now (Some true))
        (clients st1).
Proof.
  unfold create_client. destruct (negb force).
  - destruct (find_potential_duplicates _ _ _ _); [|discriminate].
    apply insert_and_fetch_row.
  - apply insert_and_fetch_row.
Qed.

(** X8. The guard catches the same email coming back: once a client with
    an email is created, a later [create_client] without [force] for a
    client with that email, whatever the case of its letters and whatever
    its name and company, raises DuplicateClientError, lists the client
    created before and leaves the store as it was. *)
Theorem same_email_refused_after_create (st st1 : Store) (client client' : ClientCreate)
    (force : bool) (now now' : Timestamp) (c : Client) (e e' : string) :
  create_client client force now st = (inr c, st1) ->
  cc_email client = Some e -> Py.nonempty e = true ->
  cc_email client' = Some e' -> Py.lower e' = Py.lower e ->
  exists message duplicates,
    create_client client' false now' st1
    = (inl (DuplicateClientError message duplicates), st1)
    /\ In (id c) (map s_id duplicates).
Proof.
  intros Hcreate He Hne He' Hlow.
  apply create_client_row in Hcreate as [Hid Hrow].
  set (row := mkClientRow (S (clients_seq st)) (cc_name client) (cc_company client)
                          (cc_email client) now (Some true)) in *.
  assert (Hin : In (score_row (cc_name client') (cc_email client') (cc_company client')
                              row)
                   (find_potential_duplicates st1 (cc_name client') (cc_email client')
                                              (cc_company client'))).
  { apply In_find_potential_duplicates. exists row. split; [exact Hrow|].
    split; [|reflexivity]. unfold expected_selected, present_email_match.
    rewrite He'. subst row. simpl. rewrite He, Hne, Hlow, String.eqb_refl.
    rewrite <- lower_nonempty, Hlow, lower_nonempty, Hne. simpl.
    apply orb_true_r. }
  unfold create_client. simpl.
  destruct (find_potential_duplicates st1 _ _ _) as [|s l] eqn:Hfound;
    [contradiction|].
  eexists _, _. split; [reflexivity|].
  rewrite Hid. change (S (clients_seq st)) with (s_id (score_row (cc_name client')
    (cc_email client') (cc_company client') row)).
  now apply in_map.
Qed.

Lemma same_email_refused_after_create_witness :
  exists message duplicates,
    create_client shouting_sarah false "2025-02-02 08:00:00"
      (snd (create_client new_sarah false "2025-02-01 08:00:00" empty_store))
    = (inl (DuplicateClientError message duplicates),
       snd (create_client new_sarah false "2025-02-01 08:00:00" empty_store))
    /\ In 1 (map s_id duplicates).
Proof.
  apply (same_email_refused_after_create empty_store _ new_sarah shouting_sarah
           false "2025-02-01 08:00:00" "2025-02-02 08:00:00"
           (mkClient 1 "Sarah Jones" (Some "Acme") (Some "sarah@acme.com")
                     "2025-02-01 08:00:00")
           "sarah@acme.com" "SARAH@ACME.COM"); reflexivity.
Defined.

End DuplicateProofs.

(** ** database.py: the duplicate detector with the scores as floats *)
Module DuplicateScoresProofs.
Import Database DatabaseSpec DuplicateScoresSpec DatabaseProofs.

Lemma float_score_email_match name email company row :
  email_match (DuplicateScores.score_row name email company row)
  = present_email_match email row.
Proof.
  unfold DuplicateScores.score_row, present_email_match. simpl.
  destruct email as [e|], (row_email row) as [e'|]; simpl;
    try reflexivity; try (now rewrite andb_false_r).
Qed.

Lemma float_score_company name email company row :
  company_similarity (DuplicateScores.score_row name email company row)
  = company_part company row.
Proof.
  unfold DuplicateScores.score_row, company_part. simpl.
  destruct company as [c|], (row_company row) as [c'|]; simpl;
    try reflexivity; try (now rewrite andb_false_r).
  destruct c; simpl; [reflexivity|].
  destruct c'; simpl; reflexivity.
Qed.

Lemma float_score_total name email company row :
  total_score (DuplicateScores.score_row name email company row)
  = rounded_total name email company row.
Proof.
  pose proof (float_score_email_match name email company row) as Hm.
  pose proof (float_score_company name email company row) as Hc.
  unfold rounded_total, weighted. rewrite <- Hm, <- Hc.
  unfold DuplicateScores.score_row. simpl.
  match goal with |- context [if ?b then _ else _] => destruct b end; reflexivity.
Qed.

Lemma float_over_threshold name email company row :
  active row = true ->
  DuplicateScores.over_threshold (DuplicateScores.score_row name email company row)
  = selected name email company row.
Proof.
  intros Ha. unfold DuplicateScores.over_threshold, selected.
  now rewrite Ha, float_score_email_match, float_score_total.
Qed.

Lemma scan_clients_selected name email company rows :
  DuplicateScores.scan_clients name email company (List.filter active rows)
  = map (DuplicateScores.score_row name email company)
        (List.filter (selected name email company) rows).
Proof.
  induction rows as [|r rows IH]; simpl; [reflexivity|].
  destruct (active r) eqn:Ha; simpl.
  - rewrite Ha. simpl. rewrite (float_over_threshold _ _ _ _ Ha).
    destruct (selected _ _ _ r); simpl; now rewrite IH.
  - unfold selected at 1. rewrite Ha. simpl. exact IH.
Qed.

(** Floats as Python prints them. *)
Example float_0_1_plus_0_2 :
  Float64.add (Float64.round (1 # 10)) (Float64.round (2 # 10))
  = (1351079888211149 # 4503599627370496)%Q.
Proof. vm_compute. reflexivity. Qed.

Example float_85_times_0_7 :
  Float64.mul 85 DuplicateScores.lit_0_7 = (8373880557142015 # 140737488355328)%Q.
Proof. vm_compute. reflexivity. Qed.

(** C2, as stated, fails, twice.  A stored client and a candidate that both
    have the empty email agree on the email, so the claim wants the record
    returned with score 100, and the detector returns nothing.  And for a
    name similarity of 90 and a company similarity of 220/3 the weighted
    sum of the claim is 85, so the claim wants the record returned, while
    the floats of the code give 84.99999999999999 and the detector returns
    nothing. *)
Lemma duplicates_claim_fails :
  (claimed_email_match (Some EmptyString) blank_email_row = true
   /\ DuplicateScores.find_potential_duplicates store_blank_email "Alice Moore"
        (Some EmptyString) None = [])
  /\ ((0.7 * Database._calculate_similarity (Some "John Smith") (Some "John Smyth")
       + 0.3 * Database._calculate_similarity (Some "Acme Widget")
                                              (Some "Acme Widget Company")
       == 85)%Q
      /\ List.filter (expected_selected present_email_match "John Smith" None
                                        (Some "Acme Widget"))
                     (clients store_smyth) = [smyth_row]
      /\ map total_score
             (DuplicateScores.scan_clients "John Smith" None (Some "Acme Widget")
                                           [smyth_row]) = []
      /\ rounded_total "John Smith" None (Some "Acme Widget") smyth_row
         = (5981343255101439 # 70368744177664)%Q
      /\ DuplicateScores.find_potential_duplicates store_smyth "John Smith" None
           (Some "Acme Widget") = []).
Proof. vm_compute. repeat split. Qed.

(** C2, amended: [find_potential_duplicates] returns exactly the active
    records whose total score is at least 85 or whose email matches, where
    the email matches when both emails are present, not empty, and equal
    once case is folded; then the total score is 100 and [email_match] is
    true, whatever the names and companies; otherwise the total score is
    the float that the code computes for
    name_similarity * 0.7 + company_similarity * 0.3, each product and then
    the sum rounded to the nearest float, with company_similarity 0 when
    either company is absent.  The list is sorted by total score, largest
    first. *)
Theorem find_potential_duplicates_ranked (st : Store) (name : string)
    (email company : option string) :
  let found := DuplicateScores.find_potential_duplicates st name email company in
  Permutation (map s_id found)
              (map row_id (List.filter (selected name email company) (clients st)))
  /\ List.Forall
       (fun s => exists row,
            In row (clients st) /\ active row = true
            /\ s_id s = row_id row /\ s_name s = row_name row
            /\ s_company s = row_company row /\ s_email s = row_email row
            /\ name_similarity s
               = DuplicateScores._calculate_similarity (Some name) (Some (row_name row))
            /\ company_similarity s = company_part company row
            /\ email_match s = present_email_match email row
            /\ total_score s = rounded_total name email company row
            /\ (Qle_bool 85 (total_score s) || email_match s = true))
       found
  /\ Sorted score_ge found.
Proof.
  intros found. subst found. unfold DuplicateScores.find_potential_duplicates.
  rewrite scan_clients_selected. split; [|split].
  - rewrite sorted_desc_perm, map_map. simpl. reflexivity.
  - apply List.Forall_forall. intros s Hs.
    apply (Permutation_in _ (sorted_desc_perm _)) in Hs.
    apply in_map_iff in Hs as (row & <- & Hrow).
    apply filter_In in Hrow as [Hin Hsel].
    assert (Ha : active row = true).
    { unfold selected in Hsel. now apply andb_prop in Hsel as [? _]. }
    exists row. repeat split; try assumption.
    + apply float_score_company.
    + apply float_score_email_match.
    + apply float_score_total.
    + rewrite <- (float_over_threshold _ _ _ _ Ha) in Hsel. exact Hsel.
  - apply sorted_desc_sorted.
Qed.

(** The duplicate examples of the specification, with the scores as the
    code computes them: the same email in another case is a match of score
    100, whatever the company; the score of a near name and company is the
    weighted sum, here 86.3157894736842. *)
Example sarah_email_match_float :
  map (fun s => (email_match s, total_score s))
      (DuplicateScores.find_potential_duplicates store_with_active "Sarah Jones"
         (Some "SARAH@ACME.COM") (Some "Other Corp"))
  = [(true, 100%Q)].
Proof. vm_compute. reflexivity. Qed.

Example jon_smith_score_float :
  map (fun s => (s_id s, Qle_bool 85 (total_score s)))
      (DuplicateScores.find_potential_duplicates store_jon "John Smith" None
                                                 (Some "Acme Inc"))
  = [(1, true)].
Proof. vm_compute. reflexivity. Qed.

End DuplicateScoresProofs.

(** ** memory.py: the views of a client's history *)
Module MemoryViewsProofs.
Import Database Memory MemoryViews DatabaseSpec MemorySpec MemoryViewsSpec.
Import DatabaseProofs MemoryProofs ListFacts.

Lemma order_by_date_desc_perm_in st client_id r :
  In r (get_client_interactions st client_id) <-> of_client st client_id r.
Proof.
  unfold get_client_interactions, of_client.
  rewrite In_order_by_date_desc, filter_In, Nat.eqb_eq. reflexivity.
Qed.

Lemma insert_latest_length x l : length (insert_latest x l) = S (length l).
Proof.
  induction l as [|y l IH]; simpl; [reflexivity|].
  destruct (String.leb _ _); simpl; [reflexivity|now rewrite IH].
Qed.

Lemma order_by_date_desc_length l : length (order_by_date_desc l) = length l.
Proof.
  induction l as [|x l IH]; simpl; [reflexivity|].
  now rewrite insert_latest_length, IH.
Qed.

Lemma timeline_loop l acc :
  fold_left (fun timeline inter => (timeline ++ [entry_of inter])%list) l acc
  = (acc ++ map entry_of l)%list.
Proof.
  revert acc. induction l as [|x l IH]; intros acc; simpl.
  - now rewrite List.app_nil_r.
  - rewrite IH, <- List.app_assoc. reflexivity.
Qed.

(** The history of a stored client whose record passes the field checks. *)
Lemma get_client_history_stored st row :
  ids_unique st -> In row (clients st) -> row_fits row = true ->
  get_client_history st (row_id row)
  = if active row
    then inr (mkClientHistory
                (Client_of_row row) (get_client_interactions st (row_id row))
                (length (get_client_interactions st (row_id row)))
                (option_map int_date (head (get_client_interactions st (row_id row)))))
    else inl (not_found (row_id row)).
Proof.
  intros Hnd Hin Hfit. unfold get_client_history.
  rewrite (get_client_fits st row Hnd Hin Hfit).
  destruct (active row); [|reflexivity].
  destruct (get_client_interactions st (row_id row)); reflexivity.
Qed.

(** The history of a stored client whose flag is cleared. *)
Lemma get_client_history_deleted st row :
  ids_unique st -> In row (clients st) -> active row = false ->
  get_client_history st (row_id row) = inl (not_found (row_id row)).
Proof.
  intros Hnd Hin Ha. unfold get_client_history.
  now rewrite (get_client_stored st row Hnd Hin), Ha.
Qed.

Lemma history_missing st client_id :
  (forall row, In row (clients st) -> row_id row = client_id -> active row = false) ->
  get_client_history st client_id = inl (not_found client_id).
Proof.
  intros H. unfold get_client_history. now rewrite (get_client_none st client_id H).
Qed.

(** X9. The timeline of an active client whose record passes the field
    checks has one entry per interaction stored for the client, each with
    the date, stage, summary, interest and next action of its interaction,
    in the order oldest first.  For a client that is soft-deleted the
    ValueError of the history is raised, not caught. *)
Theorem timeline_oldest_first (st : Store) (row : ClientRow) :
  ids_unique st -> In row (clients st) ->
  (active row = true -> row_fits row = true ->
   exists timeline,
     get_client_timeline st (row_id row) = inr timeline
     /\ length timeline
        = length (List.filter (fun r => int_client_id r =? row_id row)
                              (interactions st))
     /\ Sorted older_or_same timeline
     /\ (forall e, In e timeline
                   <-> exists r, of_client st (row_id row) r /\ e = entry_of r))
  /\ (active row = false ->
      get_client_timeline st (row_id row) = inl (not_found (row_id row))).
Proof.
  intros Hnd Hin. unfold get_client_timeline. split.
  - intros Ha Hfit. rewrite (get_client_history_stored st row Hnd Hin Hfit), Ha.
    simpl. rewrite timeline_loop. simpl. eexists. split; [reflexivity|].
    split; [|split].
    + rewrite length_map, length_rev. unfold get_client_interactions.
      apply order_by_date_desc_length.
    + apply (Sorted_image (fun x y => newer_or_same y x)); [auto|].
      apply Sorted_rev. apply order_by_date_desc_sorted.
    + intros e. rewrite in_map_iff. split.
      * intros (r & <- & Hr). apply in_rev in Hr.
        apply order_by_date_desc_perm_in in Hr. eauto.
      * intros (r & Hr & ->). exists r. split; [reflexivity|].
        apply in_rev. rewrite rev_involutive.
        now apply order_by_date_desc_perm_in.
  - intros Ha. now rewrite (get_client_history_deleted st row Hnd Hin Ha).
Qed.

Lemma timeline_oldest_first_witness :
  exists timeline,
    get_client_timeline store_with_history 1 = inr timeline
    /\ length timeline = 4
    /\ Sorted older_or_same timeline.
Proof.
  destruct (timeline_oldest_first store_with_history active_row) as [H _].
  - repeat constructor. intros [].
  - left. reflexivity.
  - destruct (H eq_refl eq_refl) as (timeline & H1 & H2 & H3 & _).
    exists timeline. repeat split; assumption.
Defined.

(** X10. The interactions in a given stage of an active client whose
    record passes the field checks: exactly the interactions stored for the
    client whose stage is that text, letter for letter, newest first.  For
    a client that is soft-deleted the ValueError of the history is
    raised. *)
Theorem similar_interactions_of_stage (st : Store) (row : ClientRow)
    (deal_stage : string) :
  ids_unique st -> In row (clients st) ->
  (active row = true -> row_fits row = true ->
   exists found,
     get_similar_interactions st (row_id row) deal_stage = inr found
     /\ (forall r, In r found
                   <-> of_client st (row_id row) r /\ int_deal_stage r = deal_stage)
     /\ Sorted newer_or_same found)
  /\ (active row = false ->
      get_similar_interactions st (row_id row) deal_stage
      = inl (not_found (row_id row))).
Proof.
  intros Hnd Hin. unfold get_similar_interactions. split.
  - intros Ha Hfit. rewrite (get_client_history_stored st row Hnd Hin Hfit), Ha.
    simpl. eexists. split; [reflexivity|]. split.
    + intros r. rewrite filter_In, String.eqb_eq, order_by_date_desc_perm_in.
      reflexivity.
    + apply Sorted_filter_trans; [|apply order_by_date_desc_sorted].
      unfold newer_or_same. intros x y z Hxy Hyz.
      exact (string_leb_trans _ _ _ Hyz Hxy).
  - intros Ha. now rewrite (get_client_history_deleted st row Hnd Hin Ha).
Qed.

Lemma similar_interactions_of_stage_witness :
  exists found,
    get_similar_interactions store_with_history 1 "proposal" = inr found
    /\ Sorted newer_or_same found.
Proof.
  destruct (similar_interactions_of_stage store_with_history active_row "proposal")
    as [H _].
  - repeat constructor. intros [].
  - left. reflexivity.
  - destruct (H eq_refl eq_refl) as (found & H1 & _ & H3).
    exists found. split; assumption.
Defined.

Lemma context_depends_on_last_three c l l' total last_contact :
  last_three l = last_three l' ->
  to_context_string (mkClientHistory c l total last_contact)
  = to_context_string (mkClientHistory c l' total last_contact).
Proof. unfold to_context_string. simpl. now intros ->. Qed.

Lemma last_three_window {A : Type} (m : nat) (l : list A) :
  3 <= m -> m <= length l ->
  last_three (firstn m l) = firstn 3 (skipn (m - 3) l).
Proof.
  intros H3 Hm. unfold last_three.
  rewrite length_firstn, Nat.min_l by exact Hm.
  rewrite firstn_skipn_comm. replace (m - 3 + 3) with m by lia. reflexivity.
Qed.

(** X11. What the context text shows: of the interactions of an active
    client whose record passes the field checks, newest first,
    [get_context_for_ai] keeps the first
    [max_interactions] and prints the last three of those.  With the count
    3 these are the three newest; with a larger count m, and at least m
    interactions, they are the interactions m-2 to m, so the m-3 newest are
    left out; the total printed is m and the last contact is the date of
    the newest interaction. *)
Theorem context_shows_end_of_window (st : Store) (row : ClientRow) (m : nat) :
  ids_unique st -> In row (clients st) -> active row = true ->
  row_fits row = true ->
  let all := get_client_interactions st (row_id row) in
  3 <= m -> m <= length all ->
  get_context_for_ai st (row_id row) (Z.of_nat m)
  = inr (to_context_string
           (mkClientHistory (Client_of_row row) (firstn 3 (skipn (m - 3) all)) m
                            (option_map int_date (head all)))).
Proof.
  intros Hnd Hin Ha Hfit all H3 Hm. unfold get_context_for_ai.
  rewrite (get_client_history_stored st row Hnd Hin Hfit), Ha. simpl.
  fold all. unfold slice_to.
  replace (0 <=? Z.of_nat m)%Z with true by (symmetry; apply Z.leb_le; lia).
  rewrite Nat2Z.id, length_firstn, Nat.min_l by exact Hm.
  f_equal. apply context_depends_on_last_three.
  rewrite (last_three_window m all H3 Hm).
  unfold last_three.
  replace (length (firstn 3 (skipn (m - 3) all)) - 3) with 0; [reflexivity|].
  rewrite length_firstn, length_skipn. lia.
Qed.

Lemma context_shows_end_of_window_witness :
  get_context_for_ai store_with_history 1 4
  = inr (to_context_string
           (mkClientHistory (Client_of_row active_row)
              [visit 3 "2025-01-19" "proposal"; visit 2 "2025-01-12" "qualification";
               visit 1 "2025-01-05" "prospecting"]
              4 (Some "2025-01-26 10:00:00"))).
Proof.
  apply (context_shows_end_of_window store_with_history active_row 4).
  - repeat constructor. intros [].
  - left. reflexivity.
  - reflexivity.
  - reflexivity.
  - lia.
  - vm_compute. lia.
Defined.

End MemoryViewsProofs.

(** ** models.py: the field checks of the validator *)
Module ValidatorProofs.
Import Json Datetime Models ModelsSpec ModelsProofs.

(** Finds the entry of a field in the errors of [CRMData_init]. *)
Ltac pick_error :=
  first [ solve [simpl; left; reflexivity]
        | solve [apply in_or_app; left; simpl; left; reflexivity]
        | (apply in_or_app; right; pick_error) ].

Section Checks.
Variable coerce_str : json -> option string.
Variable json_loads : string -> JSONDecodeError + json.

Lemma rejected_with data loc e :
  In (loc, e)
     (err "summary" (required_str coerce_str 10 (data !! "summary"))
      ++ err "deal_stage"
           (required_enum DealStage_members DealStage_value (data !! "deal_stage"))
      ++ err "objections"
           (optional_str coerce_str clean_objections (data !! "objections"))
      ++ err "interest_level"
           (required_enum InterestLevel_members InterestLevel_value
                          (data !! "interest_level"))
      ++ err "next_action" (required_str coerce_str 5 (data !! "next_action"))
      ++ err "followup_date"
           (optional_str coerce_str validate_date_format
                         (data !! "followup_date")))%list ->
  forall json_str, json_loads json_str = inr (JObj data) ->
  exists errors,
    validate_json_output coerce_str json_loads json_str
    = inl (Schema_validation_failed (validation_error errors))
    /\ In (loc, e) errors.
Proof.
  intros Hin json_str Hload.
  destruct (CRMData_init_rejects coerce_str data loc e Hin) as (errors & Hinit & He).
  exists errors. split; [|exact He].
  unfold validate_json_output. now rewrite Hload, Hinit.
Qed.

(** X12. The field checks the validator applies besides the enumerations
    and the date: a text that parses to something that is no object fails
    with the schema error, not the parse error; a summary of fewer than 10
    characters and a next action of fewer than 5 are refused for their
    length; a required field that is missing or null is refused; each
    refusal names its field. *)
Theorem validate_json_output_field_checks (json_str : string) :
  (forall v, json_loads json_str = inr v -> (forall data, v <> JObj data) ->
     validate_json_output coerce_str json_loads json_str
     = inl (Schema_validation_failed not_a_mapping))
  /\ (forall data, json_loads json_str = inr (JObj data) ->
        (forall s, data !! "summary" = Some (JStr s) -> String.length s < 10 ->
           exists errors,
             validate_json_output coerce_str json_loads json_str
             = inl (Schema_validation_failed (validation_error errors))
             /\ In ("summary", min_length 10) errors)
        /\ (forall s, data !! "next_action" = Some (JStr s) -> String.length s < 5 ->
              exists errors,
                validate_json_output coerce_str json_loads json_str
                = inl (Schema_validation_failed (validation_error errors))
                /\ In ("next_action", min_length 5) errors)
        /\ (forall field,
              In field ["summary"; "deal_stage"; "interest_level"; "next_action"] ->
              (data !! field = None ->
               exists errors,
                 validate_json_output coerce_str json_loads json_str
                 = inl (Schema_validation_failed (validation_error errors))
                 /\ In (field, field_required) errors)
              /\ (data !! field = Some JNull ->
                  exists errors,
                    validate_json_output coerce_str json_loads json_str
                    = inl (Schema_validation_failed (validation_error errors))
                    /\ In (field, none_not_allowed) errors))).
Proof.
  split.
  - intros v Hload Hv. unfold validate_json_output. rewrite Hload.
    destruct v; try reflexivity. now destruct (Hv d).
  - intros data Hload. split; [|split].
    + intros s Hs Hlen. apply (rejected_with data); [|exact Hload].
      rewrite Hs. unfold required_str. simpl.
      replace (String.length s <? 10) with true
        by (symmetry; apply Nat.ltb_lt; exact Hlen).
      pick_error.
    + intros s Hs Hlen. apply (rejected_with data); [|exact Hload].
      rewrite Hs. unfold required_str at 2. simpl.
      replace (String.length s <? 5) with true
        by (symmetry; apply Nat.ltb_lt; exact Hlen).
      pick_error.
    + intros field Hf.
      destruct Hf as [<-|[<-|[<-|[<-|[]]]]]; split; intros Hd;
        (apply (rejected_with data); [|exact Hload]); rewrite Hd; pick_error.
Qed.

Lemma required_str_length limit v s :
  required_str coerce_str limit v = inr s -> limit <= String.length s.
Proof.
  unfold required_str. destruct v as [x|]; [|discriminate].
  destruct x; try discriminate;
    (destruct (str_validator coerce_str _) as [e|t]; [discriminate|]);
    (destruct (Nat.ltb_spec (String.length t) limit) as [Hlt|Hge]; [discriminate|]);
    intros Heq; inversion Heq; subst; assumption.
Qed.

Lemma required_str_again limit s :
  limit <= String.length s ->
  required_str coerce_str limit (Some (JStr s)) = inr s.
Proof.
  intros H. unfold required_str. simpl.
  destruct (Nat.ltb_spec (String.length s) limit); [lia|reflexivity].
Qed.

Lemma clean_objections_result v o :
  clean_objections v = inr o -> o = None \/ clean_objections o = inr o.
Proof.
  unfold clean_objections at 1.
  destruct (Py.truthy v && _) eqn:Hc; intros H; inversion H; subst.
  - now left.
  - right. unfold clean_objections. now rewrite Hc.
Qed.

Lemma validate_date_format_result v o :
  validate_date_format v = inr o -> validate_date_format o = inr o.
Proof.
  unfold validate_date_format at 1. destruct v as [t|].
  - destruct (strptime_ymd t) eqn:Hp; [|discriminate].
    intros H. inversion H; subst. simpl. now rewrite Hp.
  - intros H. inversion H; subst. reflexivity.
Qed.

Lemma optional_str_again check v o :
  (forall x y, check x = inr y -> y = None \/ check y = inr y) ->
  check None = inr None ->
  optional_str coerce_str check v = inr o ->
  optional_str coerce_str check (option_map JStr o) = inr o.
Proof.
  intros Hcheck Hnone H.
  assert (Ho : o = None \/ check o = inr o).
  { unfold optional_str in H. destruct v as [x|].
    - destruct x; try (now apply Hcheck in H);
        (destruct (str_validator coerce_str _); [discriminate|]);
        now apply Hcheck in H.
    - inversion H. now left. }
  destruct o as [t|]; [|reflexivity].
  destruct Ho as [Ho|Ho]; [discriminate|]. exact Ho.
Qed.

(** X13. Validation is stable: the fields of a record that the validator
    returned, written back as an object (each text as a string, an absent
    optional field left out), are accepted again and give the same record,
    whatever other keys the object holds. *)
Theorem accepted_record_validates_again (data data' : gmap string json)
    (crm : CRMData) :
  CRMData_init coerce_str data = inr crm ->
  data' !! "summary" = Some (JStr (summary crm)) ->
  data' !! "deal_stage" = Some (JStr (DealStage_value (deal_stage crm))) ->
  data' !! "objections" = option_map JStr (objections crm) ->
  data' !! "interest_level"
  = Some (JStr (InterestLevel_value (interest_level crm))) ->
  data' !! "next_action" = Some (JStr (next_action crm)) ->
  data' !! "followup_date" = option_map JStr (followup_date crm) ->
  CRMData_init coerce_str data' = inr crm.
Proof.
  intros Hinit H1 H2 H3 H4 H5 H6.
  apply CRMData_init_accepts in Hinit as (A1 & A2 & A3 & A4 & A5 & A6).
  unfold CRMData_init. rewrite H1, H2, H3, H4, H5, H6.
  rewrite (required_str_again 10 _ (required_str_length _ _ _ A1)).
  rewrite (required_str_again 5 _ (required_str_length _ _ _ A5)).
  rewrite (optional_str_again clean_objections _ _ clean_objections_result
             eq_refl A3).
  rewrite (optional_str_again validate_date_format _ _
             (fun x y H => or_intror (validate_date_format_result x y H))
             eq_refl A6).
  destruct crm as [s d o i n f]. simpl.
  destruct d, i; reflexivity.
Qed.

End Checks.

Lemma accepted_record_validates_again_witness :
  CRMData_init coerce_v1
    (delete "objections"
       (<["note" := JInt 7]> (example_data JNull (JStr "2025-03-01"))))
  = inr (example_record None (Some "2025-03-01")).
Proof.
  apply (accepted_record_validates_again coerce_v1
           (example_data (JStr " None ") (JStr "2025-03-01")));
    reflexivity.
Defined.

(** A list is well-formed JSON and no object; a summary of nine characters
    is too short, and the missing next action is reported with it. *)
Example rejects_list :
  validate_json_output coerce_v1 Json.loads "[1, 2]"
  = inl (Schema_validation_failed not_a_mapping).
Proof. reflexivity. Qed.

Example rejects_short_summary :
  validate_json_output coerce_v1 Json.loads ValidatorExamples.short_summary_object
  = inl (Schema_validation_failed
           (validation_error [("summary", min_length 10);
                              ("next_action", field_required)])).
Proof. reflexivity. Qed.

End ValidatorProofs.

(** ** models.py: the dates the validator lets through *)
Module DateProofs.
Import Json Datetime Models ModelsSpec ModelsProofs.

Ltac bools :=
  repeat match goal with
         | H : _ && _ = true |- _ => apply andb_prop in H as [? ?]
         | H : in_range _ _ _ = true |- _ => rewrite in_range_val in H
         | H : (_ =? _) = true |- _ => apply Nat.eqb_eq in H
         | H : (_ <=? _) = true |- _ => apply Nat.leb_le in H
         end;
  repeat match goal with
         | H : is_digit _ = true |- _ => apply digit_val_le in H
         end.

Ltac alts H :=
  cbn [In app] in H;
  repeat (match type of H with
          | In _ (_ ++ _)%list => apply in_app_or in H as [H|H]
          | In _ (if ?b then _ else _) => destruct b eqn:?
          | In _ (match ?x with String _ _ => _ | EmptyString => _ end) => destruct x
          | _ \/ _ => destruct H as [H|H]
          | False => destruct H
          | (_, _) = (_, _) => inversion H; subst; clear H
          end; try cbn [In app] in H).

Lemma month_alts_range s m r :
  In (m, r) (month_alts s) ->
  1 <= m <= 12 /\ String.length r < String.length s <= String.length r + 2.
Proof.
  unfold month_alts. destruct s as [|c1 [|c2 r2]]; intros H.
  - destruct H.
  - alts H; bools; cbn [String.length]; lia.
  - alts H; bools; cbn [String.length]; lia.
Qed.

Lemma day_alts_range s d r :
  In (d, r) (day_alts s) ->
  1 <= d <= 31 /\ String.length r < String.length s <= String.length r + 2.
Proof.
  unfold day_alts. destruct s as [|c1 [|c2 r2]]; intros H.
  - destruct H.
  - alts H; bools; cbn [String.length]; lia.
  - alts H; bools; cbn [String.length]; lia.
Qed.

Lemma after_month_range m s m' d rest :
  after_month m s = Some (m', d, rest) ->
  m' = m /\ 1 <= d <= 31
  /\ String.length rest + 2 <= String.length s <= String.length rest + 3.
Proof.
  unfold after_month. destruct s as [|c r]; [discriminate|].
  destruct (is_dash c); [|discriminate].
  destruct (day_alts r) as [|[d0 rest0] more] eqn:Hd; [discriminate|].
  intros H. inversion H; subst. clear H.
  destruct (day_alts_range r d rest) as [H1 H2]; [rewrite Hd; now left|].
  simpl. repeat split; lia.
Qed.

Lemma first_month_range alts s m d rest :
  (forall m0 r, In (m0, r) alts ->
     1 <= m0 <= 12 /\ String.length r < String.length s <= String.length r + 2) ->
  first_month alts = Some (m, d, rest) ->
  1 <= m <= 12 /\ 1 <= d <= 31
  /\ String.length rest + 3 <= String.length s <= String.length rest + 5.
Proof.
  induction alts as [|[m0 r] alts IH]; simpl; intros Hall; [discriminate|].
  destruct (after_month m0 r) as [[[m1 d1] rest1]|] eqn:Ha.
  - intros H. inversion H; subst. clear H.
    apply after_month_range in Ha as (-> & Hd & Hlen).
    destruct (Hall m0 r (or_introl eq_refl)) as [Hm Hr].
    repeat split; lia.
  - apply IH. intros m1 r1 Hin. apply Hall. now right.
Qed.

(** What [strptime] accepts: a year of four digits, a month and a day of
    one or two digits, the day one that the month has. *)
Lemma strptime_ymd_calendar s y m d :
  strptime_ymd s = Some (y, m, d) ->
  1 <= y < 100 * 100 /\ 1 <= m <= 12 /\ 1 <= d <= days_in_month y m
  /\ 8 <= String.length s <= 10.
Proof.
  unfold strptime_ymd, regex_match.
  destruct s as [|y1 [|y2 [|y3 [|y4 [|c r]]]]]; try discriminate.
  destruct (is_digit y1 && is_digit y2 && is_digit y3 && is_digit y4 && is_dash c)
    eqn:Hdig; [|discriminate].
  destruct (first_month (month_alts r)) as [[[m0 d0] rest]|] eqn:Hf; [|discriminate].
  destruct rest; [|discriminate].
  match goal with |- context [if ?b then _ else _] => destruct b eqn:Hb end;
    [|discriminate].
  intros H. inversion H; subst. clear H.
  apply (first_month_range _ r) in Hf as (Hm & _ & Hlen);
    [|apply month_alts_range].
  bools. cbn [String.length] in *. repeat split; lia.
Qed.

Lemma optional_str_checked coerce_str check v (t : string) :
  optional_str coerce_str check v = inr (Some t) ->
  exists v', check v' = inr (Some t).
Proof.
  unfold optional_str. destruct v as [x|]; [|discriminate].
  destruct x; eauto;
    (destruct (str_validator coerce_str _); [discriminate|eauto]).
Qed.

(** X14. A follow-up date in a record of the validator names a day of the
    calendar: read by [strptime] it is a year from 1 to 9999, a month from 1
    to 12 and a day that this month of this year has (29 February only in
    leap years); its text has 8 to 10 characters. *)
Theorem accepted_date_is_calendar_day (coerce_str : json -> option string)
    (data : gmap string json) (crm : CRMData) (t : string) :
  CRMData_init coerce_str data = inr crm -> followup_date crm = Some t ->
  exists y m d,
    strptime_ymd t = Some (y, m, d)
    /\ 1 <= y < 100 * 100 /\ 1 <= m <= 12 /\ 1 <= d <= days_in_month y m
    /\ 8 <= String.length t <= 10.
Proof.
  intros Hinit Ht.
  apply CRMData_init_accepts in Hinit as (_ & _ & _ & _ & _ & Hf).
  rewrite Ht in Hf.
  assert (Hv : validate_date_format (Some t) = inr (Some t)).
  { apply optional_str_checked in Hf as [v Hv].
    now apply ValidatorProofs.validate_date_format_result in Hv. }
  unfold validate_date_format in Hv.
  destruct (strptime_ymd t) as [[[y m] d]|] eqn:Hp; [|discriminate].
  exists y, m, d. split; [reflexivity|].
  now apply strptime_ymd_calendar.
Qed.

Lemma accepted_date_is_calendar_day_witness :
  exists y m d,
    strptime_ymd "2024-02-29" = Some (y, m, d)
    /\ 1 <= y < 100 * 100 /\ 1 <= m <= 12 /\ 1 <= d <= days_in_month y m
    /\ 8 <= String.length "2024-02-29" <= 10.
Proof.
  apply (accepted_date_is_calendar_day coerce_v1
           (example_data JNull (JStr "2024-02-29"))
           (example_record None (Some "2024-02-29")));
    reflexivity.
Defined.

End DateProofs.

(** ** ai_crm.py: the cleaning step applied to its own result *)
Module CleanProofs.
Import Py Models AiCrm PySpec AiCrmSpec PyProofs AiCrmProofs.

#[local] Arguments String.append !s1 s2 : simpl nomatch.

Lemma contains_suffix_false (sep x y : string) :
  contains sep (x ++ y) = false -> contains sep y = false.
Proof.
  induction x as [|c x IH]; simpl String.append; [auto|].
  rewrite contains_cons. destruct (String.prefix sep _); [discriminate|exact IH].
Qed.

Lemma contains_infix_false (sep x y z : string) :
  contains sep (x ++ y ++ z) = false -> contains sep y = false.
Proof.
  intros H. apply contains_suffix_false in H. now apply contains_app_false in H.
Qed.

Lemma lstrip_suffix s : exists a, s = a ++ lstrip s.
Proof.
  induction s as [|c s [a IH]]; [now exists EmptyString|]. simpl.
  destruct (isspace c).
  - exists (String c a). simpl. now f_equal.
  - now exists EmptyString.
Qed.

Lemma rstrip_prefix s : exists b, s = rstrip s ++ b.
Proof.
  induction s as [|c s [b IH]]; [now exists EmptyString|]. simpl.
  destruct (rstrip s) as [|x r] eqn:Hr.
  - destruct (isspace c).
    + now exists (String c s).
    + exists s. reflexivity.
  - exists b. simpl. f_equal. exact IH.
Qed.

Lemma strip_infix s : exists a b, s = a ++ strip s ++ b.
Proof.
  unfold strip. destruct (lstrip_suffix s) as [a Ha].
  destruct (rstrip_prefix (lstrip s)) as [b Hb].
  exists a, b. now rewrite <- Hb.
Qed.

Lemma rstrip_twice s : rstrip (rstrip s) = rstrip s.
Proof.
  induction s as [|c s IH]; [reflexivity|]. simpl.
  destruct (rstrip s) as [|x r] eqn:Hr.
  - destruct (isspace c) eqn:Hc; [reflexivity|]. simpl. now rewrite Hc.
  - simpl in *. rewrite IH. reflexivity.
Qed.

Lemma lstrip_head c s : isspace c = false -> lstrip (String c s) = String c s.
Proof. intros H. simpl. now rewrite H. Qed.

Lemma lstrip_starts s :
  lstrip s = EmptyString \/ exists c r, lstrip s = String c r /\ isspace c = false.
Proof.
  induction s as [|c s IH]; [now left|]. simpl.
  destruct (isspace c) eqn:Hc; [exact IH|]. right. eauto.
Qed.

Lemma rstrip_starts c s :
  isspace c = false -> exists r, rstrip (String c s) = String c r.
Proof.
  intros Hc. simpl. destruct (rstrip s); [rewrite Hc|]; eauto.
Qed.

Lemma strip_twice s : strip (strip s) = strip s.
Proof.
  unfold strip. destruct (lstrip_starts s) as [->|(c & r & -> & Hc)];
    [reflexivity|].
  destruct (rstrip_starts c r Hc) as [r' Hr]. rewrite Hr.
  rewrite (lstrip_head c r' Hc), <- Hr. apply rstrip_twice.
Qed.

Lemma fence_not_empty : fence <> EmptyString.
Proof. discriminate. Qed.

Lemma first_piece_fence_free (text : string) :
  contains fence (item 0 (split fence text)) = false.
Proof.
  rewrite (item_0_split fence text fence_not_empty).
  destruct (cut fence text) as [[before after]|] eqn:Hcut.
  - exact (cut_before_free fence text before after fence_not_empty Hcut).
  - rewrite contains_cut, Hcut. reflexivity.
Qed.

(** The text the object is searched in holds no fence. *)
Lemma clean_shape (raw : string) :
  exists body,
    contains fence body = false
    /\ _clean_json_response raw
       = match re_search_object body with
         | Some found => found
         | None => strip body
         end.
Proof.
  unfold _clean_json_response.
  destruct (contains fence_json raw).
  - eexists. split; [|reflexivity]. apply first_piece_fence_free.
  - destruct (contains fence raw) eqn:Hf.
    + eexists. split; [|reflexivity]. apply first_piece_fence_free.
    + exists raw. split; [exact Hf|reflexivity].
Qed.

Lemma clean_of_fence_free (text : string) :
  contains fence text = false ->
  _clean_json_response text
  = match re_search_object text with
    | Some found => found
    | None => strip text
    end.
Proof.
  intros Hf. unfold _clean_json_response.
  change fence_json with (fence ++ "json").
  rewrite (contains_longer fence "json" text Hf), Hf. reflexivity.
Qed.

Lemma object_infix lead inner trail :
  lead ++ String lbrace (inner ++ String rbrace trail)
  = lead ++ String lbrace (inner ++ String rbrace EmptyString) ++ trail.
Proof.
  f_equal. simpl. f_equal. now rewrite app_assoc.
Qed.

(** X15. The cleaning step is idempotent, and its result holds no code
    fence: whatever the raw output, the cleaned text has no three
    backticks in it, and cleaning it once more returns it unchanged. *)
Theorem clean_json_response_idempotent (raw : string) :
  contains fence (_clean_json_response raw) = false
  /\ _clean_json_response (_clean_json_response raw) = _clean_json_response raw.
Proof.
  destruct (clean_shape raw) as (body & Hfree & ->).
  destruct (re_search_object body) as [found|] eqn:Hsearch.
  - apply re_search_object_some in Hsearch
      as (lead & inner & trail & Hbody & _ & _ & ->).
    assert (Hff : contains fence (String lbrace (inner ++ String rbrace EmptyString))
                  = false).
    { rewrite Hbody, object_infix in Hfree.
      exact (contains_infix_false _ _ _ _ Hfree). }
    split; [exact Hff|]. rewrite (clean_of_fence_free _ Hff).
    pose proof (re_search_object_greedy EmptyString inner EmptyString eq_refl eq_refl)
      as Hg.
    change (EmptyString ++ String lbrace (inner ++ String rbrace EmptyString))
      with (String lbrace (inner ++ String rbrace EmptyString)) in Hg.
    now rewrite Hg.
  - destruct (strip_infix body) as (a & b & Hstrip).
    assert (Hff : contains fence (strip body) = false).
    { rewrite Hstrip in Hfree. exact (contains_infix_false _ _ _ _ Hfree). }
    split; [exact Hff|]. rewrite (clean_of_fence_free _ Hff).
    destruct (re_search_object (strip body)) as [found|] eqn:Hagain.
    + exfalso. apply re_search_object_some in Hagain
        as (lead & inner & trail & Hs & _).
      apply (re_search_object_none body Hsearch (a ++ lead) inner (trail ++ b)).
      rewrite Hstrip at 1. rewrite Hs.
      rewrite !app_assoc. simpl. now rewrite !app_assoc.
    + apply strip_twice.
Qed.

End CleanProofs.

(** ** ORDER BY *)
Module OrderProofs.
Import Records ListFacts.

Section Order.
Context {A : Type}.
Variable goes_before : A -> A -> bool.

Lemma insert_by_perm x l : Permutation (insert_by goes_before x l) (x :: l).
Proof.
  induction l as [|y l IH]; simpl; [reflexivity|].
  destruct (goes_before x y); [reflexivity|].
  rewrite IH. apply perm_swap.
Qed.

Lemma order_by_perm l : Permutation (order_by goes_before l) l.
Proof.
  induction l as [|x l IH]; simpl; [reflexivity|].
  rewrite insert_by_perm. now apply perm_skip.
Qed.

Lemma In_order_by x l : In x (order_by goes_before l) <-> In x l.
Proof.
  split; apply Permutation_in; [|symmetry]; apply order_by_perm.
Qed.

Lemma order_by_length l : length (order_by goes_before l) = length l.
Proof. apply Permutation_length, order_by_perm. Qed.

Hypothesis total : forall x y, goes_before x y = false -> goes_before y x = true.

Lemma insert_by_sorted x l :
  Sorted (fun a b => goes_before a b = true) l ->
  Sorted (fun a b => goes_before a b = true) (insert_by goes_before x l).
Proof.
  induction l as [|y l IH]; simpl; intros Hs.
  - repeat constructor.
  - destruct (goes_before x y) eqn:Hxy.
    + constructor; [exact Hs|]. now constructor.
    + inversion Hs as [|? ? Hs' Hhd]; subst. constructor; [now apply IH|].
      destruct l as [|z l]; simpl.
      * constructor. now apply total.
      * destruct (goes_before x z); constructor;
          [now apply total|now inversion Hhd].
Qed.

Lemma order_by_sorted l :
  Sorted (fun a b => goes_before a b = true) (order_by goes_before l).
Proof.
  induction l as [|x l IH]; simpl; [constructor|].
  now apply insert_by_sorted.
Qed.

End Order.

Lemma string_leb_false x y : String.leb x y = false -> String.leb y x = true.
Proof.
  intros H. destruct (String.leb_total x y) as [Hxy|Hyx]; [congruence|exact Hyx].
Qed.

End OrderProofs.

(** ** database.py: the search *)
Module SearchProofs.
Import Py Database Records DatabaseSpec StoreSpec RecordsSpec.
Import ListFacts OrderProofs DatabaseProofs.

#[local] Arguments String.append !s1 s2 : simpl nomatch.

Lemma like_percent text : Sqlite.like (String Sqlite.percent EmptyString) text = true.
Proof.
  induction text as [|c text IH]; [reflexivity|].
  simpl in *. exact IH.
Qed.

(** A literal pattern followed by a percent sign matches the texts that
    begin with it. *)
Lemma like_prefix query text :
  wildcard_free query = true ->
  Sqlite.like (query ++ String Sqlite.percent EmptyString) text
  = String.prefix (Sqlite.fold query) (Sqlite.fold text).
Proof.
  revert text. induction query as [|p query IH]; intros text Hw.
  - rewrite like_percent. now destruct text.
  - simpl in Hw. apply andb_prop in Hw as [Hw Hq]. apply andb_prop in Hw as [Hp Hu].
    apply negb_true_iff in Hp, Hu.
    cbn [String.append Sqlite.like]. rewrite Hp, Hu.
    destruct text as [|c text]; [reflexivity|].
    cbn [Sqlite.fold String.prefix]. rewrite (IH text Hq).
    destruct (ascii_dec (Sqlite.fold_char p) (Sqlite.fold_char c)) as [Heq|Hne].
    + rewrite Heq, Ascii.eqb_refl. reflexivity.
    + destruct (Ascii.eqb_spec (Sqlite.fold_char p) (Sqlite.fold_char c)); [contradiction|].
      reflexivity.
Qed.

Lemma like_any_run pattern text :
  Sqlite.like (String Sqlite.percent pattern) text
  = Sqlite.like pattern text
    || match text with
       | EmptyString => false
       | String _ text' => Sqlite.like (String Sqlite.percent pattern) text'
       end.
Proof. destruct text; reflexivity. Qed.

(** A literal query between two percent signs matches the texts it is
    part of. *)
Lemma like_part_of query text :
  wildcard_free query = true ->
  Sqlite.like (String Sqlite.percent (query ++ String Sqlite.percent EmptyString)) text
  = part_of query text.
Proof.
  intros Hw. unfold part_of. induction text as [|c text IH].
  - rewrite like_any_run, (like_prefix query EmptyString Hw), orb_false_r.
    cbn [Sqlite.fold contains]. now destruct (String.prefix _ _).
  - rewrite like_any_run, (like_prefix query _ Hw), IH.
    cbn [Sqlite.fold]. rewrite PyProofs.contains_cons.
    cbn [Sqlite.fold]. destruct (String.prefix _ _); reflexivity.
Qed.

Example like_ignores_case : Sqlite.like "%smi%" "Jon Smith" = true.
Proof. reflexivity. Qed.

Example like_underscore : Sqlite.like "J_n%" "Jon Smith" = true.
Proof. reflexivity. Qed.

Lemma search_rows_fit st (p : ClientRow -> bool) :
  clients_fit st ->
  Forall (fun row => row_fits row = true) (order_by_name (List.filter p (clients st))).
Proof.
  unfold clients_fit, order_by_name. rewrite !List.Forall_forall.
  intros H row Hin. apply In_order_by in Hin. apply filter_In in Hin as [Hin _].
  now apply H.
Qed.

(** X16. A query with no percent sign and no underscore in it finds the
    clients whose name or company it is part of, the case of ASCII letters
    apart (a client with no company by its name only), the inactive ones
    only on request; the result is in the order of the names. *)
Theorem search_clients_literal (st : Store) (query : string) (include_inactive : bool) :
  clients_fit st -> wildcard_free query = true ->
  exists found,
    search_clients st query include_inactive = inr found
    /\ (forall c,
          In c found
          <-> exists row,
                In row (clients st)
                /\ (part_of query (row_name row)
                    || part_of_null query (row_company row)) = true
                /\ (include_inactive || active row) = true
                /\ c = Client_of_row row)
    /\ Sorted name_le found.
Proof.
  intros Hfit Hw. unfold search_clients.
  rewrite (build_all_fits _ (search_rows_fit st _ Hfit)).
  eexists. split; [reflexivity|]. split.
  - intros c. rewrite in_map_iff. unfold order_by_name. split.
    + intros (row & <- & Hin). apply In_order_by in Hin.
      apply filter_In in Hin as [Hin Hp]. apply andb_prop in Hp as [Hm Ha].
      exists row. repeat split; try assumption.
      rewrite (like_part_of query _ Hw) in Hm. rewrite <- Hm. f_equal.
      unfold Sqlite.like_null, part_of_null.
      destruct (row_company row); [|reflexivity]. symmetry. now apply like_part_of.
    + intros (row & Hin & Hm & Ha & ->). exists row. split; [reflexivity|].
      apply In_order_by. apply filter_In. split; [exact Hin|].
      rewrite Ha, andb_true_r. rewrite (like_part_of query _ Hw). rewrite <- Hm.
      f_equal. unfold Sqlite.like_null, part_of_null.
      destruct (row_company row); [|reflexivity]. now apply like_part_of.
  - unfold order_by_name.
    apply (Sorted_image (fun a b => String.leb (row_name a) (row_name b) = true));
      [auto|].
    apply (order_by_sorted (fun x y => String.leb (row_name x) (row_name y))).
    intros x y. apply string_leb_false.
Qed.

Lemma search_clients_literal_witness :
  exists found,
    search_clients store_with_active "ACME" false = inr found
    /\ In (Client_of_row active_row) found.
Proof.
  destruct (search_clients_literal store_with_active "ACME" false)
    as (found & Hs & Hin & _).
  - repeat constructor.
  - reflexivity.
  - exists found. split; [exact Hs|]. apply Hin. exists active_row.
    repeat split. left. reflexivity.
Defined.

Lemma like_one_char text :
  Sqlite.like (String Sqlite.percent
                 (String Sqlite.underscore (String Sqlite.percent EmptyString))) text
  = nonempty text.
Proof.
  destruct text as [|c text]; [reflexivity|].
  rewrite like_any_run.
  change (Sqlite.like (String Sqlite.underscore (String Sqlite.percent EmptyString))
                      (String c text))
    with (Sqlite.like (String Sqlite.percent EmptyString) text).
  now rewrite like_percent.
Qed.

Lemma like_everything text :
  Sqlite.like (String Sqlite.percent (String Sqlite.percent EmptyString)) text = true.
Proof. rewrite like_any_run, like_percent. reflexivity. Qed.

Lemma row_fits_name row : row_fits row = true -> nonempty (row_name row) = true.
Proof.
  unfold row_fits. intros H. apply andb_prop in H as [H _].
  apply andb_prop in H as [H _]. apply andb_prop in H as [H _].
  apply Nat.leb_le in H. destruct (row_name row); [simpl in H; lia|reflexivity].
Qed.

(** X17. The wildcards of LIKE are not escaped: the empty query lists
    every client (every active one, unless the inactive are asked for), and
    so does the query of one underscore, which stands for any one
    character, not for an underscore in the name. *)
Theorem search_clients_wildcards (st : Store) (include_inactive : bool) :
  clients_fit st ->
  exists found,
    search_clients st EmptyString include_inactive = inr found
    /\ search_clients st "_" include_inactive = inr found
    /\ Permutation found
         (map Client_of_row
              (if include_inactive then clients st
               else List.filter active (clients st))).
Proof.
  intros Hfit.
  assert (Hsame : forall (p : ClientRow -> bool),
            (forall row, In row (clients st) -> p row = true) ->
            List.filter (fun row => p row && (include_inactive || active row))
                        (clients st)
            = if include_inactive then clients st
              else List.filter active (clients st)).
  { intros p Hp. destruct include_inactive; simpl.
    - rewrite <- (List.filter_true (clients st)) at 2. apply filter_ext_in.
      intros row Hrow. rewrite (Hp row Hrow). reflexivity.
    - apply filter_ext_in. intros row Hrow. now rewrite (Hp row Hrow). }
  unfold search_clients.
  change (String Sqlite.percent (EmptyString ++ String Sqlite.percent EmptyString))
    with (String Sqlite.percent (String Sqlite.percent EmptyString)).
  change (String Sqlite.percent ("_" ++ String Sqlite.percent EmptyString))
    with (String Sqlite.percent
            (String Sqlite.underscore (String Sqlite.percent EmptyString))).
  rewrite (Hsame (fun row =>
             Sqlite.like (String Sqlite.percent (String Sqlite.percent EmptyString))
                         (row_name row)
             || Sqlite.like_null
                  (String Sqlite.percent (String Sqlite.percent EmptyString))
                  (row_company row)))
    by (intros row _; now rewrite like_everything).
  rewrite (Hsame (fun row =>
             Sqlite.like
               (String Sqlite.percent
                  (String Sqlite.underscore (String Sqlite.percent EmptyString)))
               (row_name row)
             || Sqlite.like_null
                  (String Sqlite.percent
                     (String Sqlite.underscore (String Sqlite.percent EmptyString)))
                  (row_company row))).
  - assert (Hrows : Forall (fun row => row_fits row = true)
                      (order_by_name (if include_inactive then clients st
                                      else List.filter active (clients st)))).
    { unfold order_by_name. rewrite List.Forall_forall. intros row Hin.
      apply In_order_by in Hin. unfold clients_fit in Hfit.
      rewrite List.Forall_forall in Hfit. apply Hfit.
      destruct include_inactive; [exact Hin|].
      now apply filter_In in Hin as [Hin _]. }
    rewrite (build_all_fits _ Hrows). eexists. repeat split.
    apply Permutation_map. apply order_by_perm.
  - intros row Hrow. rewrite like_one_char.
    unfold clients_fit in Hfit. rewrite List.Forall_forall in Hfit.
    now rewrite (row_fits_name row (Hfit row Hrow)).
Qed.

Lemma search_clients_wildcards_witness :
  exists found,
    search_clients store_with_active EmptyString false = inr found
    /\ search_clients store_with_active "_" false = inr found.
Proof.
  destruct (search_clients_wildcards store_with_active false) as (found & H1 & H2 & _).
  - repeat constructor.
  - exists found. split; assumption.
Defined.

End SearchProofs.

(** ** database.py: the update of a client *)
Module UpdateProofs.
Import Py Database Records DatabaseSpec StoreSpec RecordsSpec DatabaseProofs.
Import SearchProofs.

Lemma update_fields_lookup (updates : gmap string (option string)) (k : string) :
  k ∈ allowed_fields -> update_fields updates !! k = updates !! k.
Proof.
  intros Hk. unfold update_fields.
  destruct (updates !! k) as [v|] eqn:Hv.
  - apply map_lookup_filter_Some. split; [exact Hv|exact Hk].
  - apply map_lookup_filter_None. left. exact Hv.
Qed.

Lemma update_fields_none (updates : gmap string (option string)) :
  (forall k, k ∈ allowed_fields -> updates !! k = None) ->
  update_fields updates = ∅.
Proof.
  intros H. apply map_empty_filter_2. intros k v Hkv Hk. simpl in Hk.
  rewrite (H k Hk) in Hkv. discriminate.
Qed.

Lemma row_id_set_fields fields i r : row_id (set_fields fields i r) = row_id r.
Proof. unfold set_fields. destruct (row_id r =? i); reflexivity. Qed.

Lemma row_created_at_set_fields fields i r :
  row_created_at (set_fields fields i r) = row_created_at r.
Proof. unfold set_fields. destruct (row_id r =? i); reflexivity. Qed.

Lemma row_is_active_set_fields fields i r :
  row_is_active (set_fields fields i r) = row_is_active r.
Proof. unfold set_fields. destruct (row_id r =? i); reflexivity. Qed.

Lemma set_fields_other fields i r : row_id r <> i -> set_fields fields i r = r.
Proof.
  intros H. unfold set_fields.
  destruct (Nat.eqb_spec (row_id r) i); [contradiction|reflexivity].
Qed.

Lemma update_client_store st client_id updates :
  snd (update_client st client_id updates) = st
  \/ snd (update_client st client_id updates)
     = mkStore (map (set_fields (update_fields updates) client_id) (clients st))
               (clients_seq st) (interactions st).
Proof.
  unfold update_client. destruct (decide _); [now left|].
  destruct (_ && _); [now left|].
  destruct (get_client st client_id); [now left|now right].
Qed.

(** X18. What [update_client] cannot change: whatever the keyword
    arguments, every row keeps its id, its creation time and its active
    flag, the rows of other ids stay as they are, and the counter and the
    interactions are untouched; when none of name, company and email is
    among the arguments, None is returned and the store is as it was. *)
Theorem update_client_keeps_identity (st : Store) (client_id : nat)
    (updates : gmap string (option string)) :
  let st' := snd (update_client st client_id updates) in
  map row_id (clients st') = map row_id (clients st)
  /\ map row_created_at (clients st') = map row_created_at (clients st)
  /\ map row_is_active (clients st') = map row_is_active (clients st)
  /\ (forall row, In row (clients st) -> row_id row <> client_id ->
        In row (clients st'))
  /\ clients_seq st' = clients_seq st
  /\ interactions st' = interactions st
  /\ ((forall k, k ∈ allowed_fields -> updates !! k = None) ->
      update_client st client_id updates = (inr None, st)).
Proof.
  intros st'. subst st'.
  split; [|split; [|split; [|split; [|split; [|split]]]]];
    try (destruct (update_client_store st client_id updates) as [-> | ->];
         [reflexivity|]; simpl; rewrite map_map).
  - apply map_ext. intros r. apply row_id_set_fields.
  - apply map_ext. intros r. apply row_created_at_set_fields.
  - apply map_ext. intros r. apply row_is_active_set_fields.
  - intros row Hin Hne.
    destruct (update_client_store st client_id updates) as [-> | ->];
      [exact Hin|]. simpl. apply in_map_iff. exists row.
    split; [now apply set_fields_other|exact Hin].
  - destruct (update_client_store st client_id updates) as [-> | ->]; reflexivity.
  - destruct (update_client_store st client_id updates) as [-> | ->]; reflexivity.
  - intros H. unfold update_client. rewrite (update_fields_none updates H).
    reflexivity.
Qed.

(** The active flag is no field that [update_client] writes. *)
Example update_client_ignores_flag :
  update_client store_with_deleted 1 {["is_active" := Some "1"]}
  = (inr None, store_with_deleted).
Proof. reflexivity. Qed.

(** X19. [update_client] returns the record as it was before the update:
    the record is read on a connection of its own while the UPDATE is not
    yet committed.  For an active client whose record passes the field
    checks and a new name, the record returned is the one stored before.
    The new values are written unchecked: when the row they give passes
    the field checks, the lookup by id that follows returns the record
    with the new name, with the company and the email among the arguments,
    and with the id and the creation time of before; when it does not, as
    with an empty name, that lookup raises DatabaseError. *)
Theorem update_client_returns_old_record (st : Store) (row : ClientRow)
    (updates : gmap string (option string)) (new_name : string) :
  ids_unique st -> In row (clients st) -> active row = true ->
  row_fits row = true -> updates !! "name" = Some (Some new_name) ->
  let st' := snd (update_client st (row_id row) updates) in
  let row' := set_fields (update_fields updates) (row_id row) row in
  fst (update_client st (row_id row) updates) = inr (Some (Client_of_row row))
  /\ (row_fits row' = true ->
      exists c,
        get_client st' (row_id row) = inr (Some c)
        /\ id c = row_id row /\ name c = new_name
        /\ company c = match updates !! "company" with
                       | Some v => v
                       | None => row_company row
                       end
        /\ email c = match updates !! "email" with
                     | Some v => v
                     | None => row_email row
                     end
        /\ created_at c = row_created_at row)
  /\ (row_fits row' = false ->
      exists e, get_client st' (row_id row) = inl (Database_error_validation e)).
Proof.
  intros Hnd Hin Ha Hfit Hname st' row'.
  assert (Hn : update_fields updates !! "name" = Some (Some new_name)).
  { rewrite update_fields_lookup; [exact Hname|]. unfold allowed_fields. set_solver. }
  assert (Hc : update_fields updates !! "company" = updates !! "company").
  { apply update_fields_lookup. unfold allowed_fields. set_solver. }
  assert (He : update_fields updates !! "email" = updates !! "email").
  { apply update_fields_lookup. unfold allowed_fields. set_solver. }
  assert (Hupd : update_client st (row_id row) updates
                 = (inr (Some (Client_of_row row)),
                    mkStore (map (set_fields (update_fields updates) (row_id row))
                                 (clients st))
                            (clients_seq st) (interactions st))).
  { unfold update_client. destruct (decide (update_fields updates = ∅)) as [Hempty|_].
    - rewrite Hempty in Hn. discriminate.
    - rewrite Hn. rewrite bool_decide_eq_false_2 by discriminate.
      rewrite andb_false_r.
      now rewrite (get_client_fits st row Hnd Hin Hfit), Ha. }
  subst st'. rewrite Hupd. simpl. split; [reflexivity|].
  set (st' := mkStore _ _ _).
  assert (Hnd' : ids_unique st').
  { unfold ids_unique, st'. simpl. rewrite map_map.
    erewrite map_ext; [exact Hnd|]. intros r. apply row_id_set_fields. }
  assert (Hin' : In row' (clients st')).
  { unfold st', row'. simpl. now apply in_map. }
  assert (Hid' : row_id row' = row_id row) by apply row_id_set_fields.
  assert (Ha' : active row' = true).
  { unfold active. unfold row'. rewrite row_is_active_set_fields. exact Ha. }
  pose proof (get_client_stored st' row' Hnd' Hin') as Hget.
  rewrite Hid', Ha' in Hget. split.
  - intros Hfit'. rewrite Hget, (Client_of_fits row' Hfit').
    exists (Client_of_row row'). split; [reflexivity|].
    unfold row', set_fields. rewrite Nat.eqb_refl. simpl.
    rewrite Hn, Hc, He. repeat split.
  - intros Hfit'. destruct (Client_of_misfit row' Hfit') as [e He'].
    exists e. now rewrite Hget, He'.
Qed.

Lemma update_client_returns_old_record_witness :
  fst (update_client store_with_active 1 {["name" := Some "Sara Jones"]})
  = inr (Some (Client_of_row active_row))
  /\ exists c,
       get_client (snd (update_client store_with_active 1
                                      {["name" := Some "Sara Jones"]})) 1
       = inr (Some c)
       /\ name c = "Sara Jones".
Proof.
  destruct (update_client_returns_old_record store_with_active active_row
              {["name" := Some "Sara Jones"]} "Sara Jones")
    as (Hold & Hnew & _).
  - repeat constructor. intros [].
  - left. reflexivity.
  - reflexivity.
  - reflexivity.
  - reflexivity.
  - split; [exact Hold|].
    destruct (Hnew eq_refl) as (c & Hget & _ & Hname & _).
    exists c. split; [exact Hget|exact Hname].
Defined.

(** An empty name is written, and the client can no longer be read. *)
Example update_client_writes_empty_name :
  get_client (snd (update_client store_with_active 1 {["name" := Some EmptyString]})) 1
  = inl (Database_error_validation (too_short "Client" "name" 1)).
Proof. reflexivity. Qed.

End UpdateProofs.

(** ** database.py: interactions and follow-ups *)
Module InteractionProofs.
Import Py Database Records DatabaseSpec MemorySpec RecordsSpec RecordsExamples.
Import DatabaseProofs MemoryProofs.

Lemma select_interaction_fresh i l row :
  Forall (fun r => int_id r < i) l -> int_id row = i ->
  select_interaction i (l ++ [row]) = Some row.
Proof.
  unfold select_interaction. intros Hfresh Hid.
  induction l as [|a l IH]; simpl.
  - rewrite Hid, Nat.eqb_refl. reflexivity.
  - inversion Hfresh as [|? ? Ha Hl]; subst.
    destruct (Nat.eqb_spec (int_id a) (int_id row)) as [Heq|Hne]; [lia|].
    now apply IH.
Qed.

(** X20. An interaction that is created can be read back: for a raw text
    of at least 10 characters [create_interaction] stores a row under the
    id after the counter, with the fields given and the clock reading as
    its date, and returns it; [get_interaction] on that id returns the same
    record and the interactions of the client list it.  Whether a client of
    that id exists is not looked at. *)
Theorem create_interaction_round_trip (db : Tables) (interaction : InteractionCreate)
    (now : Timestamp) :
  interactions_bound db -> 10 <= String.length (ic_raw_text interaction) ->
  exists i db',
    create_interaction interaction now db = (inr i, db')
    /\ i = mkInteractionRow (S (interactions_seq db)) (ic_client_id interaction) now
             (ic_raw_text interaction) (ic_summary interaction)
             (ic_deal_stage interaction) (ic_objections interaction)
             (ic_interest_level interaction) (ic_next_action interaction)
             (ic_followup_date interaction)
    /\ get_interaction db' (int_id i) = inr (Some i)
    /\ In i (get_client_interactions (store db') (ic_client_id interaction))
    /\ clients (store db') = clients (store db)
    /\ followups db' = followups db
    /\ interactions_bound db'.
Proof.
  intros Hb Hlen.
  set (row := mkInteractionRow (S (interactions_seq db)) (ic_client_id interaction) now
                (ic_raw_text interaction) (ic_summary interaction)
                (ic_deal_stage interaction) (ic_objections interaction)
                (ic_interest_level interaction) (ic_next_action interaction)
                (ic_followup_date interaction)).
  assert (Hsel : select_interaction (S (interactions_seq db))
                   (interactions (store db) ++ [row]) = Some row).
  { apply select_interaction_fresh; [|reflexivity].
    unfold interactions_bound in Hb. eapply List.Forall_impl; [|exact Hb].
    simpl. intros; lia. }
  assert (Hinit : Interaction_init row = inr row).
  { unfold Interaction_init. simpl.
    destruct (Nat.ltb_spec (String.length (ic_raw_text interaction)) 10);
      [lia|reflexivity]. }
  exists row. eexists. split.
  { unfold create_interaction, insert_interaction. simpl. fold row.
    rewrite Hsel, Hinit. reflexivity. }
  split; [reflexivity|]. split; [|split; [|split; [|split]]].
  - unfold get_interaction. simpl. rewrite Hsel, Hinit. reflexivity.
  - unfold get_client_interactions. simpl. apply In_order_by_date_desc.
    apply filter_In. split; [apply in_or_app; right; now left|].
    simpl. apply Nat.eqb_refl.
  - reflexivity.
  - reflexivity.
  - unfold interactions_bound in *. simpl. apply List.Forall_app. split.
    + eapply List.Forall_impl; [|exact Hb]. simpl. intros; lia.
    + repeat constructor.
Qed.

Lemma create_interaction_round_trip_witness :
  exists i db',
    create_interaction new_visit "2025-02-01 10:00:00" tables_with_history = (inr i, db')
    /\ get_interaction db' 5 = inr (Some i).
Proof.
  destruct (create_interaction_round_trip tables_with_history new_visit
              "2025-02-01 10:00:00") as (i & db' & H1 & Hi & H2 & _).
  - repeat constructor.
  - vm_compute. lia.
  - exists i, db'. split; [exact H1|]. rewrite Hi in H2 at 1. exact H2.
Defined.

Lemma find_filter_other {A : Type} (key : A -> nat) (i other : nat) (l : list A) :
  other <> i ->
  List.find (fun r => key r =? other)
            (List.filter (fun r => negb (key r =? i)) l)
  = List.find (fun r => key r =? other) l.
Proof.
  intros Hne. induction l as [|a l IH]; simpl; [reflexivity|].
  destruct (Nat.eqb_spec (key a) i) as [Hi|Hi]; simpl.
  - destruct (Nat.eqb_spec (key a) other) as [Ho|Ho]; [lia|exact IH].
  - destruct (key a =? other); [reflexivity|exact IH].
Qed.

Lemma find_filter_same {A : Type} (key : A -> nat) (i : nat) (l : list A) :
  List.find (fun r => key r =? i) (List.filter (fun r => negb (key r =? i)) l) = None.
Proof.
  induction l as [|a l IH]; simpl; [reflexivity|].
  destruct (Nat.eqb_spec (key a) i) as [Hi|Hi]; simpl; [exact IH|].
  destruct (Nat.eqb_spec (key a) i); [contradiction|exact IH].
Qed.

(** X21. [delete_interaction] returns True exactly when a row has the id;
    afterwards the id is not found, every other interaction reads as
    before, and the follow-ups stay, those of the deleted interaction too:
    the foreign keys of the schema are never switched on. *)
Theorem delete_interaction_removes (db : Tables) (interaction_id : nat) :
  let db' := snd (delete_interaction interaction_id db) in
  (fst (delete_interaction interaction_id db) = true
   <-> In interaction_id (map int_id (interactions (store db))))
  /\ get_interaction db' interaction_id = inr None
  /\ (forall other, other <> interaction_id ->
        get_interaction db' other = get_interaction db other)
  /\ followups db' = followups db
  /\ get_followup db' interaction_id = get_followup db interaction_id
  /\ clients (store db') = clients (store db).
Proof.
  simpl. split; [|split; [|split; [|repeat split]]].
  - rewrite existsb_exists, in_map_iff. split.
    + intros (r & Hr & Hid). apply Nat.eqb_eq in Hid. eauto.
    + intros (r & Hid & Hr). exists r. split; [exact Hr|now apply Nat.eqb_eq].
  - unfold get_interaction, select_interaction. simpl.
    now rewrite (find_filter_same int_id).
  - intros other Hne. unfold get_interaction, select_interaction. simpl.
    now rewrite (find_filter_other int_id _ _ _ Hne).
Qed.

Lemma find_app_fresh (p : FollowUpRow -> bool) l row :
  p row = true ->
  List.find p (l ++ [row]) = Some (default row (List.find p l)).
Proof.
  intros Hp. induction l as [|a l IH]; simpl.
  - now rewrite Hp.
  - destruct (p a); [reflexivity|exact IH].
Qed.

Lemma find_app_other (p : FollowUpRow -> bool) l row :
  p row = false -> List.find p (l ++ [row]) = List.find p l.
Proof.
  intros Hp. induction l as [|a l IH]; simpl.
  - now rewrite Hp.
  - destruct (p a); [reflexivity|exact IH].
Qed.

(** X22. [create_followup] stores the email and the message under the id
    after the counter and returns them.  [get_followup] returns the first
    follow-up stored for the interaction: the one just created when the
    interaction had none, the older one otherwise; for other interactions
    it answers as before. *)
Theorem followup_first_stored_wins (db : Tables) (interaction_id : nat)
    (email message : string) :
  followups_bound db ->
  exists f db',
    create_followup interaction_id email message db = (inr f, db')
    /\ f = mkFollowUpRow (S (followups_seq db)) interaction_id email message
    /\ get_followup db' interaction_id
       = Some (default f (get_followup db interaction_id))
    /\ (forall other, other <> interaction_id ->
          get_followup db' other = get_followup db other)
    /\ store db' = store db
    /\ followups_bound db'.
Proof.
  intros Hb.
  set (f := mkFollowUpRow (S (followups_seq db)) interaction_id email message).
  assert (Hsel : List.find (fun r => fu_id r =? S (followups_seq db))
                           (followups db ++ [f]) = Some f).
  { rewrite (find_app_fresh _ _ f) by apply Nat.eqb_refl.
    destruct (List.find _ (followups db)) as [r|] eqn:Hf; [|reflexivity].
    apply find_some in Hf as [Hin Hid]. apply Nat.eqb_eq in Hid.
    unfold followups_bound in Hb. rewrite List.Forall_forall in Hb.
    specialize (Hb r Hin). simpl in Hb. lia. }
  exists f. eexists. split.
  { unfold create_followup. fold f. rewrite Hsel. reflexivity. }
  split; [reflexivity|]. split; [|split; [|split]].
  - unfold get_followup. simpl. apply find_app_fresh. simpl. apply Nat.eqb_refl.
  - intros other Hne. unfold get_followup. simpl. apply find_app_other. simpl.
    apply Nat.eqb_neq. auto.
  - reflexivity.
  - unfold followups_bound in *. simpl. apply List.Forall_app. split.
    + eapply List.Forall_impl; [|exact Hb]. simpl. intros; lia.
    + repeat constructor.
Qed.

Lemma followup_first_stored_wins_witness :
  exists f db',
    create_followup 4 "A second email, written later." "Hello again" tables_with_followup
    = (inr f, db')
    /\ get_followup db' 4 = Some thanks.
Proof.
  destruct (followup_first_stored_wins tables_with_followup 4
              "A second email, written later." "Hello again")
    as (f & db' & H1 & _ & H2 & _).
  - repeat constructor.
  - exists f, db'. split; [exact H1|exact H2].
Defined.

End InteractionProofs.

(** ** database.py: the queries over several tables *)
Module ReportProofs.
Import Py Database Records Reports DatabaseSpec MemorySpec RecordsSpec RecordsExamples.
Import ListFacts OrderProofs DatabaseProofs MemoryProofs.

Lemma In_join_clients keep st i c :
  In (i, c) (join_clients keep st)
  <-> In i (interactions st) /\ In c (clients st)
      /\ row_id c = int_client_id i /\ keep c = true.
Proof.
  unfold join_clients. rewrite in_flat_map. split.
  - intros (i' & Hi & Hin). apply in_map_iff in Hin as (c' & Heq & Hc).
    inversion Heq; subst. apply filter_In in Hc as [Hc Hp].
    apply andb_prop in Hp as [Hid Hk]. apply Nat.eqb_eq in Hid. auto.
  - intros (Hi & Hc & Hid & Hk). exists i. split; [exact Hi|].
    apply in_map. apply filter_In. split; [exact Hc|].
    rewrite Hk, andb_true_r. now apply Nat.eqb_eq.
Qed.

Lemma In_join_followups keep db f i c :
  In (f, i, c) (join_followups keep db)
  <-> In f (followups db) /\ In i (interactions (store db))
      /\ In c (clients (store db))
      /\ int_id i = fu_interaction_id f /\ row_id c = int_client_id i
      /\ keep c = true.
Proof.
  unfold join_followups. rewrite in_flat_map. split.
  - intros (f' & Hf & Hin). apply in_map_iff in Hin as ([i' c'] & Heq & Hic).
    inversion Heq; subst. apply filter_In in Hic as [Hic Hid].
    apply In_join_clients in Hic as (Hi & Hc & Hcid & Hk).
    apply Nat.eqb_eq in Hid. simpl in Hid. auto 7.
  - intros (Hf & Hi & Hc & Hid & Hcid & Hk). exists f. split; [exact Hf|].
    apply in_map_iff. exists (i, c). split; [reflexivity|].
    apply filter_In. split; [now apply In_join_clients|].
    simpl. now apply Nat.eqb_eq.
Qed.

Lemma triple_of_fails now row :
  triple_of now row = inl (too_short "Interaction" "raw_text" 10).
Proof. destruct row as [[f i] c]. reflexivity. Qed.

(** X23. [get_all_followups] never returns a follow-up.  It builds the
    Interaction of each row with the empty text as [raw_text], which the
    model refuses for its length, and the failure leaves the [with] block
    as a DatabaseError: when a stored follow-up belongs to an interaction
    of a client the query lists, the call fails; when there is none, the
    result is the empty list. *)
Theorem get_all_followups_never_lists (db : Tables) (include_inactive : bool)
    (now : Timestamp) :
  (followup_listed include_inactive db ->
   get_all_followups db include_inactive now
   = inl (Database_error_validation (too_short "Interaction" "raw_text" 10)))
  /\ (~ followup_listed include_inactive db ->
      get_all_followups db include_inactive now = inr [])
  /\ (forall results,
        get_all_followups db include_inactive now = inr results -> results = []).
Proof.
  unfold get_all_followups, newest_interaction_first.
  set (keep := fun c => include_inactive || active c).
  set (rows := order_by _ (join_followups keep db)).
  assert (Hrows : rows = [] \/ exists row rest, rows = row :: rest).
  { destruct rows; [now left|right; eauto]. }
  assert (Hlisted : followup_listed include_inactive db <-> rows <> []).
  { unfold followup_listed. split.
    - intros (f & i & c & H) Hnil.
      assert (Hin : In (f, i, c) rows).
      { unfold rows. apply In_order_by. now apply In_join_followups. }
      rewrite Hnil in Hin. destruct Hin.
    - intros Hne. destruct rows as [|[[f i] c] rest] eqn:Hr; [contradiction|].
      assert (Hin : In (f, i, c) (join_followups keep db)).
      { apply (In_order_by (fun x y => String.leb (int_date (snd (fst y)))
                                                  (int_date (snd (fst x))))).
        fold rows. rewrite Hr. now left. }
      apply In_join_followups in Hin. exists f, i, c. exact Hin. }
  split; [|split].
  - intros H. apply Hlisted in H.
    destruct Hrows as [->|(row & rest & ->)]; [contradiction|].
    simpl. now rewrite triple_of_fails.
  - intros H. destruct Hrows as [->|(row & rest & Hr)]; [reflexivity|].
    exfalso. apply H, Hlisted. rewrite Hr. discriminate.
  - intros results. destruct Hrows as [->|(row & rest & ->)]; simpl.
    + intros H. now inversion H.
    + rewrite triple_of_fails. discriminate.
Qed.

Example get_all_followups_fails :
  get_all_followups tables_with_followup false "2025-02-01 10:00:00"
  = inl (Database_error_validation (too_short "Interaction" "raw_text" 10)).
Proof. reflexivity. Qed.

Lemma build_all_map {A B : Type} (build : A -> ValidationError + B) (g : A -> B)
    (rows : list A) :
  (forall x, In x rows -> build x = inr (g x)) ->
  build_all build rows = inr (map g rows).
Proof.
  induction rows as [|x rows IH]; simpl; intros H; [reflexivity|].
  rewrite (H x (or_introl eq_refl)), IH; [reflexivity|].
  intros y Hy. apply H. now right.
Qed.

Lemma Client_init_fits i name company email now :
  row_fits (mkClientRow i name company email now None) = true ->
  Client_init i name company email now = inr (mkClient i name company email now).
Proof.
  intros H. apply DatabaseProofs.Client_of_fits in H. exact H.
Qed.

Lemma pair_of_fits (email : ClientRow -> option string) now i c :
  row_fits c = true -> fits 100 (email c) = true ->
  10 <= String.length (int_raw_text i) ->
  pair_of email now (i, c) = inr (i, joined_client email now i c).
Proof.
  intros Hc He Hi. unfold pair_of. rewrite Client_init_fits.
  - unfold Interaction_init.
    destruct (Nat.ltb_spec (String.length (int_raw_text i)) 10); [lia|reflexivity].
  - unfold row_fits in *. cbn [row_name row_company row_email].
    apply andb_prop in Hc as [Hc _]. apply andb_prop in Hc as [Hc Hco].
    now rewrite Hc, Hco, He.
Qed.

Lemma In_first_rows {A : Type} (n : nat) (l : list A) (x : A) :
  In x (firstn n l) -> In x l.
Proof.
  intros H. rewrite <- (firstn_skipn n l). apply in_or_app. now left.
Qed.

Lemma Sorted_firstn {A : Type} (R : A -> A -> Prop) (n : nat) (l : list A) :
  Sorted R l -> Sorted R (firstn n l).
Proof.
  revert l. induction n as [|n IH]; intros l Hs; [constructor|].
  destruct l as [|x l]; [constructor|]. simpl.
  inversion Hs as [|? ? Hs' Hhd]; subst. constructor; [now apply IH|].
  destruct n; [constructor|]. destruct l; simpl; [constructor|].
  constructor. now inversion Hhd.
Qed.

(** With unique client ids the join keeps each interaction at most once. *)
Lemma filter_by_id_unique (keep : ClientRow -> bool) (k : nat) (l : list ClientRow) :
  List.NoDup (map row_id l) ->
  length (List.filter (fun c => (row_id c =? k) && keep c) l) <= 1.
Proof.
  induction l as [|a l IH]; simpl; intros Hnd; [lia|].
  inversion Hnd as [|? ? Hnotin Hnd']; subst.
  destruct (Nat.eqb_spec (row_id a) k) as [Heq|Hne]; simpl; [|now apply IH].
  assert (Hnone : List.filter (fun c => (row_id c =? k) && keep c) l = []).
  { destruct (List.filter _ l) as [|b rest] eqn:Hf; [reflexivity|].
    assert (Hb : In b (List.filter (fun c => (row_id c =? k) && keep c) l))
      by (rewrite Hf; now left).
    apply filter_In in Hb as [Hb Hp]. apply andb_prop in Hp as [Hid _].
    apply Nat.eqb_eq in Hid. exfalso. apply Hnotin. rewrite Heq, <- Hid.
    now apply in_map. }
  rewrite Hnone. destruct (keep a); simpl; lia.
Qed.

Lemma join_clients_interactions keep st :
  ids_unique st ->
  map fst (join_clients keep st) = List.filter (listed keep st) (interactions st).
Proof.
  intros Hnd. unfold join_clients, listed.
  induction (interactions st) as [|i l IH]; simpl; [reflexivity|].
  rewrite map_app, IH, map_map. simpl.
  pose proof (filter_by_id_unique keep (int_client_id i) (clients st) Hnd) as Hlen.
  destruct (existsb _ (clients st)) eqn:Hex.
  - apply existsb_exists in Hex as (c & Hc & Hp).
    assert (Hin : In c (List.filter
                          (fun c => (row_id c =? int_client_id i) && keep c)
                          (clients st))) by (apply filter_In; auto).
    destruct (List.filter _ (clients st)) as [|x [|y rest]];
      [destruct Hin|reflexivity|simpl in Hlen; lia].
  - destruct (List.filter _ (clients st)) as [|x rest] eqn:Hf; [reflexivity|].
    assert (Hx : In x (List.filter
                         (fun c => (row_id c =? int_client_id i) && keep c)
                         (clients st))) by (rewrite Hf; now left).
    apply filter_In in Hx as [Hx Hp].
    assert (Htrue : existsb (fun c => (row_id c =? int_client_id i) && keep c)
                            (clients st) = true)
      by (apply existsb_exists; eauto).
    congruence.
Qed.

(** X24. The recent interactions: for stored rows that pass the field
    checks, [get_recent_interactions] returns interactions whose client is
    stored and active, each with a Client that has the client's id, name
    and company but no email and the clock reading as creation time, newest
    first; never more than the limit when that is not negative; all of them,
    each once, when the limit is negative. *)
Theorem recent_interactions_of_active_clients (st : Store) (limit : Z)
    (now : Timestamp) :
  clients_fit st -> raw_texts_fit st ->
  exists results,
    get_recent_interactions st limit now = inr results
    /\ (forall i c, In (i, c) results ->
          In i (interactions st)
          /\ exists row, In row (clients st) /\ active row = true
                         /\ row_id row = int_client_id i
                         /\ c = mkClient (row_id row) (row_name row)
                                         (row_company row) None now)
    /\ Sorted (fun x y => newer_or_same (fst x) (fst y)) results
    /\ ((0 <= limit)%Z -> length results <= Z.to_nat limit)
    /\ (ids_unique st -> (limit < 0)%Z ->
        Permutation (map fst results)
                    (List.filter (listed active st) (interactions st))).
Proof.
  intros Hfit Hraw. unfold get_recent_interactions.
  set (joined := join_clients active st).
  set (sorted := newest_interaction_first (fun r => int_date (fst r)) (rev joined)).
  set (rows := limit_to limit sorted).
  assert (Hsub : forall r, In r rows -> In r joined).
  { intros r Hr. unfold rows, limit_to in Hr.
    assert (Hs : In r sorted).
    { destruct (limit <? 0)%Z; [exact Hr|]. now apply In_first_rows in Hr. }
    unfold sorted, newest_interaction_first in Hs. apply In_order_by in Hs.
    now apply in_rev. }
  assert (Hbuild : build_all (pair_of (fun _ => None) now) rows
                   = inr (map (fun r => (fst r, joined_client (fun _ => None) now
                                                               (fst r) (snd r)))
                              rows)).
  { apply build_all_map. intros [i c] Hr. apply Hsub in Hr.
    apply In_join_clients in Hr as (Hi & Hc & _ & _).
    unfold clients_fit, raw_texts_fit in *. rewrite List.Forall_forall in *.
    apply pair_of_fits; [now apply Hfit|reflexivity|now apply Hraw]. }
  rewrite Hbuild. eexists. split; [reflexivity|].
  assert (Hsorted : Sorted (fun x y : InteractionRow * ClientRow =>
                              newer_or_same (fst x) (fst y)) rows).
  { assert (Hs : Sorted (fun x y : InteractionRow * ClientRow =>
                           newer_or_same (fst x) (fst y)) sorted).
    { unfold sorted, newest_interaction_first, newer_or_same.
      apply (order_by_sorted
               (fun x y : InteractionRow * ClientRow =>
                  String.leb (int_date (fst y)) (int_date (fst x)))).
      intros x y. apply string_leb_false. }
    unfold rows, limit_to. destruct (limit <? 0)%Z; [exact Hs|].
    now apply Sorted_firstn. }
  split; [|split; [|split]].
  - intros i c Hin. apply in_map_iff in Hin as ([i' c'] & Heq & Hr).
    inversion Heq; subst. apply Hsub in Hr.
    apply In_join_clients in Hr as (Hi & Hc & Hid & Ha).
    split; [exact Hi|]. exists c'. repeat split; try assumption.
    unfold joined_client. simpl. now rewrite Hid.
  - eapply Sorted_image; [|exact Hsorted]. auto.
  - intros Hlim. rewrite length_map. unfold rows, limit_to.
    replace (limit <? 0)%Z with false by (symmetry; apply Z.ltb_ge; lia).
    rewrite length_firstn. apply Nat.le_min_l.
  - intros Hnd Hneg. rewrite map_map. simpl. unfold rows, limit_to.
    replace (limit <? 0)%Z with true by (symmetry; apply Z.ltb_lt; lia).
    rewrite <- (join_clients_interactions active st Hnd). fold joined.
    apply Permutation_map. unfold sorted, newest_interaction_first.
    rewrite order_by_perm. symmetry. apply Permutation_rev.
Qed.

(** Of two interactions of one date the later row comes first. *)
Example recent_interactions_equal_dates :
  option_map (map (fun r => int_id (fst r)))
    (match get_recent_interactions
             (mkStore [active_row] 1
                      [visit 1 "2025-01-05" "prospecting";
                       visit 2 "2025-01-05" "qualification"])
             10 "2025-02-01 10:00:00" with
     | inr results => Some results
     | inl _ => None
     end)
  = Some [2; 1].
Proof. reflexivity. Qed.

Lemma recent_interactions_of_active_clients_witness :
  exists results,
    get_recent_interactions store_with_history 2 "2025-02-01 10:00:00" = inr results
    /\ length results <= 2.
Proof.
  destruct (recent_interactions_of_active_clients store_with_history 2
              "2025-02-01 10:00:00") as (results & H1 & _ & _ & H2 & _).
  - repeat constructor.
  - repeat constructor.
  - exists results. split; [exact H1|]. apply H2. lia.
Defined.

Lemma fold_count_stage (l : list (InteractionRow * ClientRow)) (m : gmap string nat)
    (stage : string) :
  fold_left count_stage l m !! stage
  = let n := length (List.filter
                       (fun r => String.eqb (int_deal_stage (fst r)) stage) l) in
    if n =? 0 then m !! stage else Some (n + default 0 (m !! stage)).
Proof.
  revert m. induction l as [|r l IH]; intros m; [reflexivity|].
  simpl fold_left. rewrite IH. unfold count_stage. simpl.
  destruct (String.eqb_spec (int_deal_stage (fst r)) stage) as [Heq|Hne].
  - rewrite Heq, lookup_insert_eq. simpl.
    destruct (length _ =? 0) eqn:Hn.
    + apply Nat.eqb_eq in Hn. rewrite Hn. reflexivity.
    + f_equal. lia.
  - rewrite lookup_insert_ne by exact Hne. reflexivity.
Qed.

Lemma length_filter_fst {A B : Type} (p : A -> bool) (l : list (A * B)) :
  length (List.filter (fun r => p (fst r)) l) = length (List.filter p (map fst l)).
Proof.
  induction l as [|r l IH]; simpl; [reflexivity|].
  destruct (p (fst r)); simpl; now rewrite IH.
Qed.

Lemma filter_twice {A : Type} (p q : A -> bool) (l : list A) :
  List.filter p (List.filter q l) = List.filter (fun x => p x && q x) l.
Proof.
  induction l as [|x l IH]; simpl; [reflexivity|].
  destruct (q x); simpl.
  - rewrite andb_true_r. destruct (p x); now rewrite IH.
  - rewrite andb_false_r. exact IH.
Qed.

(** X25. The pipeline statistics: the dict gives, for each stage, the
    number of interactions in that stage whose client is stored and listed
    (active, unless the inactive are asked for); a stage with no such
    interaction is no key of the dict, so no count is 0, and the
    interactions of clients deleted for good are not counted. *)
Theorem pipeline_stats_count (st : Store) (include_inactive : bool) (stage : string) :
  ids_unique st ->
  let n := in_stage (fun c => include_inactive || active c) st stage in
  get_pipeline_stats st include_inactive !! stage
  = if n =? 0 then None else Some n.
Proof.
  intros Hnd n. unfold get_pipeline_stats. rewrite fold_count_stage. simpl.
  rewrite lookup_empty. simpl.
  rewrite (length_filter_fst (fun i => String.eqb (int_deal_stage i) stage)).
  rewrite (join_clients_interactions _ st Hnd), filter_twice.
  fold (in_stage (fun c => include_inactive || active c) st stage). fold n.
  destruct (n =? 0); [reflexivity|]. f_equal. lia.
Qed.

Lemma pipeline_stats_count_witness :
  get_pipeline_stats store_with_history false !! "proposal" = Some 1
  /\ get_pipeline_stats store_with_history false !! "closed_won" = None.
Proof.
  split.
  - apply (pipeline_stats_count store_with_history false "proposal").
    repeat constructor. intros [].
  - apply (pipeline_stats_count store_with_history false "closed_won").
    repeat constructor. intros [].
Defined.

Section Extreme.
Variable le : string -> string -> bool.
Hypothesis le_total : forall x y, le x y = false -> le y x = true.
Hypothesis le_trans : forall x y z, le x y = true -> le y z = true -> le x z = true.
Hypothesis le_antisym : forall x y, le x y = true -> le y x = true -> x = y.

Lemma pick_refl x : le x x = true.
Proof.
  destruct (le x x) eqn:H; [reflexivity|]. pose proof (le_total x x H). congruence.
Qed.

Lemma pick_all_from l m :
  exists m',
    fold_left (fun acc t =>
                 match acc with
                 | None => Some t
                 | Some m => if le m t then Some t else Some m
                 end) l (Some m) = Some m'
    /\ (m' = m \/ In m' l) /\ le m m' = true
    /\ forall t, In t l -> le t m' = true.
Proof.
  revert m. induction l as [|t l IH]; intros m; simpl.
  - exists m. repeat split; [now left|apply pick_refl|intros t []].
  - destruct (le m t) eqn:Hmt.
    + destruct (IH t) as (m' & Hf & Hin & Hle & Hall). exists m'.
      repeat split; [exact Hf| |eauto|].
      * right. destruct Hin as [->|Hin]; [now left|now right].
      * intros t' [<-|Ht']; [exact Hle|now apply Hall].
    + destruct (IH m) as (m' & Hf & Hin & Hle & Hall). exists m'.
      repeat split; [exact Hf| |exact Hle|].
      * destruct Hin as [->|Hin]; [now left|right; now right].
      * intros t' [<-|Ht']; [|now apply Hall].
        apply (le_trans _ m); [now apply le_total|exact Hle].
Qed.

(** The text picked is the one at the head of any arrangement of the rows
    in which each is followed by rows whose text is below its own. *)
Lemma pick_is_head {A : Type} (key : A -> string) (rows sorted : list A) :
  Permutation sorted rows ->
  Sorted (fun x y => le (key y) (key x) = true) sorted ->
  fold_left (fun acc t =>
               match acc with
               | None => Some t
               | Some m => if le m t then Some t else Some m
               end) (map key rows) None
  = option_map key (head sorted).
Proof.
  intros Hperm Hs.
  destruct rows as [|r rows].
  - symmetry in Hperm. apply Permutation_nil in Hperm. subst sorted. reflexivity.
  - simpl. destruct (pick_all_from (map key rows) (key r))
      as (m' & -> & Hin & Hle & Hall).
    destruct sorted as [|x sorted]; [now apply Permutation_nil in Hperm|].
    simpl. f_equal.
    assert (Hx : forall y, In y (x :: sorted) -> le (key y) (key x) = true).
    { apply Sorted_StronglySorted in Hs.
      - apply StronglySorted_inv in Hs as [_ Hall'].
        rewrite List.Forall_forall in Hall'.
        intros y [<-|Hy]; [apply pick_refl|now apply Hall'].
      - intros a b c Hab Hbc. exact (le_trans _ _ _ Hbc Hab). }
    assert (Hm : exists y, In y (x :: sorted) /\ key y = m').
    { destruct Hin as [->|Hin].
      - exists r. split; [|reflexivity].
        apply (Permutation_in _ (Permutation_sym Hperm)). now left.
      - apply in_map_iff in Hin as (y & Hy & Hin). exists y. split; [|exact Hy].
        apply (Permutation_in _ (Permutation_sym Hperm)). now right. }
    destruct Hm as (y & Hy & <-).
    apply le_antisym.
    + now apply Hx.
    + assert (Hxin : In x (r :: rows))
        by (apply (Permutation_in _ Hperm); now left).
      destruct Hxin as [<-|Hxin]; [exact Hle|]. apply Hall. now apply in_map.
Qed.

End Extreme.

Lemma insert_latest_perm x l : Permutation (insert_latest x l) (x :: l).
Proof.
  induction l as [|y l IH]; simpl; [reflexivity|].
  destruct (String.leb _ _); [reflexivity|].
  rewrite IH. apply perm_swap.
Qed.

Lemma order_by_date_desc_perm l : Permutation (order_by_date_desc l) l.
Proof.
  induction l as [|x l IH]; simpl; [reflexivity|].
  rewrite insert_latest_perm. now apply perm_skip.
Qed.

(** X26. The statistics of a client agree with the client's history: the
    total is the number of interactions stored for the id, the last
    contact is the date of the first of them in the order newest first (the
    date the history gives as last contact), the first contact the date of
    the last of them; with no interaction the stages are the empty list.
    Whether the client exists or is active is not looked at. *)
Theorem client_stats_agree_with_history (st : Store) (client_id : nat) :
  let stats := get_client_stats st client_id in
  let all := get_client_interactions st client_id in
  total_interactions stats = length all
  /\ last_contact stats = option_map int_date (head all)
  /\ first_contact stats = option_map int_date (head (rev all))
  /\ (all = [] -> stages_seen stats = [])
  /\ (forall history,
        Memory.get_client_history st client_id = inr history ->
        Memory.h_total_interactions history = total_interactions stats
        /\ Memory.h_last_contact history = last_contact stats).
Proof.
  intros stats all.
  set (rows := List.filter (fun r => int_client_id r =? client_id) (interactions st)).
  assert (Hperm : Permutation all rows) by apply order_by_date_desc_perm.
  assert (Hsorted : Sorted newer_or_same all) by apply order_by_date_desc_sorted.
  assert (Htotal : total_interactions stats = length all).
  { simpl. symmetry. now apply Permutation_length. }
  assert (Hlast : last_contact stats = option_map int_date (head all)).
  { simpl. unfold max_text.
    apply (pick_is_head String.leb string_leb_false string_leb_trans
                        String.leb_antisym int_date rows all Hperm).
    exact Hsorted. }
  split; [exact Htotal|]. split; [exact Hlast|]. split; [|split].
  - simpl. unfold min_text.
    apply (pick_is_head (fun m t => String.leb t m)
             (fun x y H => string_leb_false y x H)
             (fun x y z Hxy Hyz => string_leb_trans z y x Hyz Hxy)
             (fun x y Hxy Hyx => String.leb_antisym x y Hyx Hxy)
             int_date rows (rev all)).
    + rewrite <- Hperm. symmetry. apply Permutation_rev.
    + apply (Sorted_rev newer_or_same all Hsorted).
  - intros Hnil. rewrite Hnil in Hperm. apply Permutation_nil in Hperm.
    simpl. fold rows. rewrite Hperm. reflexivity.
  - intros history Hh. unfold Memory.get_client_history in Hh.
    destruct (get_client st client_id) as [failure|[client|]];
      [discriminate| |discriminate].
    inversion Hh; subst. clear Hh. simpl Memory.h_total_interactions.
    simpl Memory.h_last_contact. fold all. rewrite Htotal, Hlast.
    split; [reflexivity|]. now destruct all.
Qed.

Example client_stats_of_history :
  get_client_stats store_with_history 1
  = mkClientStats 4 (Some "2025-01-26 10:00:00") (Some "2025-01-05 10:00:00")
                  ["prospecting"; "qualification"; "proposal"; "negotiation"].
Proof. reflexivity. Qed.

Lemma no_followup_row db i :
  existsb (fun f => fu_interaction_id f =? i) (followups db) = false ->
  get_followup db i = None.
Proof.
  intros H. unfold get_followup.
  destruct (List.find _ (followups db)) as [f|] eqn:Hf; [|reflexivity].
  apply find_some in Hf as [Hin Hid].
  assert (Ht : existsb (fun f => fu_interaction_id f =? i) (followups db) = true)
    by (apply existsb_exists; eauto).
  congruence.
Qed.

(** X27. The follow-ups that are due: for stored rows that pass the field
    checks, [get_interactions_needing_followup] returns interactions of
    stored, active clients that have no follow-up stored and whose
    follow-up date, compared as text, lies between the text YYYY-MM-DD of
    today and that of the day [days] later; with 0 days the date is the
    text of today, character for character. *)
Theorem due_followups_window (db : Tables) (days : nat) (today : Day)
    (now : Timestamp) :
  clients_fit (store db) -> raw_texts_fit (store db) ->
  exists results,
    get_interactions_needing_followup db days today now = inr results
    /\ (forall i c, In (i, c) results ->
          In i (interactions (store db))
          /\ get_followup db (int_id i) = None
          /\ (exists row,
                In row (clients (store db)) /\ active row = true
                /\ row_id row = int_client_id i
                /\ c = mkClient (row_id row) (row_name row) (row_company row)
                                (row_email row) now)
          /\ exists d,
               int_followup_date i = Some d
               /\ String.leb (date_text today) d = true
               /\ String.leb d (date_text (plus_days days today)) = true)
    /\ (days = 0 ->
        forall i c, In (i, c) results ->
                    int_followup_date i = Some (date_text today)).
Proof.
  intros Hfit Hraw. unfold get_interactions_needing_followup.
  set (due := List.filter _ (join_clients active (store db))).
  set (rows := order_by _ due).
  assert (Hdue : forall i c, In (i, c) rows ->
            In (i, c) (join_clients active (store db))
            /\ text_le (int_followup_date i) (date_text (plus_days days today)) = true
            /\ text_ge (int_followup_date i) (date_text today) = true
            /\ existsb (fun f => fu_interaction_id f =? int_id i) (followups db)
               = false).
  { intros i c Hin. unfold rows in Hin. apply In_order_by in Hin.
    unfold due in Hin. apply filter_In in Hin as [Hin Hp]. simpl in Hp.
    apply andb_prop in Hp as [Hp Hno]. apply andb_prop in Hp as [Hle Hge].
    apply negb_true_iff in Hno. auto. }
  assert (Hbuild : build_all (pair_of row_email now) rows
                   = inr (map (fun r => (fst r, joined_client row_email now
                                                               (fst r) (snd r)))
                              rows)).
  { apply build_all_map. intros [i c] Hr. apply Hdue in Hr as (Hr & _).
    apply In_join_clients in Hr as (Hi & Hc & _ & _).
    unfold clients_fit, raw_texts_fit in *. rewrite List.Forall_forall in *.
    pose proof (Hfit c Hc) as Hrow.
    apply pair_of_fits; [exact Hrow| |now apply Hraw].
    unfold row_fits in Hrow. now apply andb_prop in Hrow as [_ Hrow]. }
  rewrite Hbuild. eexists. split; [reflexivity|].
  assert (Hspec : forall i c,
            In (i, c) (map (fun r => (fst r, joined_client row_email now
                                                           (fst r) (snd r))) rows) ->
            exists row, In (i, row) rows /\ c = joined_client row_email now i row).
  { intros i c Hin. apply in_map_iff in Hin as ([i' c'] & Heq & Hr).
    inversion Heq; subst. eauto. }
  split.
  - intros i c Hin. apply Hspec in Hin as (row & Hr & ->).
    apply Hdue in Hr as (Hj & Hle & Hge & Hno).
    apply In_join_clients in Hj as (Hi & Hc & Hid & Ha).
    split; [exact Hi|]. split; [now apply no_followup_row|]. split.
    + exists row. repeat split; try assumption.
      unfold joined_client. now rewrite Hid.
    + unfold text_le, text_ge in *.
      destruct (int_followup_date i) as [d|]; [|discriminate]. eauto.
  - intros -> i c Hin. apply Hspec in Hin as (row & Hr & ->).
    apply Hdue in Hr as (_ & Hle & Hge & _).
    unfold text_le, text_ge in *. simpl plus_days in Hle.
    destruct (int_followup_date i) as [d|]; [|discriminate].
    f_equal. now apply String.leb_antisym.
Qed.

Lemma due_followups_window_witness :
  exists results,
    get_interactions_needing_followup tables_with_due 0 (2025, 2, 3)
                                      "2025-02-03 09:00:00" = inr results
    /\ forall i c, In (i, c) results -> int_followup_date i = Some "2025-02-03".
Proof.
  destruct (due_followups_window tables_with_due 0 (2025, 2, 3) "2025-02-03 09:00:00")
    as (results & H1 & _ & H2).
  - repeat constructor.
  - repeat constructor.
  - exists results. split; [exact H1|]. exact (H2 eq_refl).
Defined.

(** On the day itself, and with a week's notice, the interaction dated
    2025-02-03 is due and the one dated 2025-2-3 is not. *)
Example due_on_the_day :
  get_interactions_needing_followup tables_with_due 7 (2025, 1, 30)
                                    "2025-01-30 09:00:00"
  = inr [(due_visit 1 "2025-02-03",
          mkClient 1 "Sarah Jones" (Some "Acme") (Some "sarah@acme.com")
                   "2025-01-30 09:00:00")].
Proof. reflexivity. Qed.

End ReportProofs.

(** ** The active flag: lookup, list, search and statistics *)
Module VisibilityProofs.
Import Py Database Records Reports DatabaseSpec RecordsSpec.
Import DatabaseProofs OrderProofs ReportProofs.

(** With unique ids a stored row is the only row of its id. *)
Lemma row_of_id st r row :
  ids_unique st -> In r (clients st) -> In row (clients st) ->
  row_id r = row_id row -> r = row.
Proof.
  unfold ids_unique. induction (clients st) as [|a l IH]; simpl;
    intros Hnd Hr Hrow Hid; [contradiction|].
  inversion Hnd as [|? ? Hnotin Hnd']; subst.
  destruct Hr as [->|Hr], Hrow as [->|Hrow].
  - reflexivity.
  - exfalso. apply Hnotin. rewrite Hid. now apply in_map.
  - exfalso. apply Hnotin. rewrite <- Hid. now apply in_map.
  - now apply IH.
Qed.

Lemma filter_none {A : Type} (p : A -> bool) (l : list A) :
  (forall x, In x l -> p x = false) -> List.filter p l = [].
Proof.
  induction l as [|a l IH]; simpl; intros H; [reflexivity|].
  rewrite (H a (or_introl eq_refl)). apply IH. intros x Hx. apply H. now right.
Qed.

(** The join leaves out the interactions of a client the query does not
    list. *)
Lemma join_clients_without keep st row :
  ids_unique st -> In row (clients st) -> keep row = false ->
  join_clients keep (without_interactions_of (row_id row) st) = join_clients keep st.
Proof.
  intros Hnd Hin Hk. unfold join_clients, without_interactions_of. simpl.
  induction (interactions st) as [|i l IH]; simpl; [reflexivity|].
  destruct (Nat.eqb_spec (int_client_id i) (row_id row)) as [Heq|Hne]; simpl.
  - rewrite IH.
    rewrite (filter_none (fun c => (row_id c =? int_client_id i) && keep c));
      [reflexivity|].
    intros c Hc.
    destruct (Nat.eqb_spec (row_id c) (int_client_id i)) as [Hid|_]; [|reflexivity].
    rewrite (row_of_id st c row Hnd Hc Hin) by congruence.
    now rewrite Hk.
  - now rewrite IH.
Qed.

(** C7, as stated, fails: a stored client whose active flag is cleared is
    not returned by the lookup by id. *)
Lemma get_client_hides_deleted :
  In deleted_row (clients store_with_deleted)
  /\ ids_unique store_with_deleted
  /\ row_fits deleted_row = true
  /\ get_client store_with_deleted (row_id deleted_row) = inr None.
Proof.
  split; [now left|]. split; [|split; reflexivity].
  repeat constructor. intros [].
Qed.

(** C7, amended: for a stored client whose record passes the field checks,
    [get_client] returns the record when the active flag is set or NULL
    and returns None when the flag is cleared.  A client whose flag is
    cleared is, with [include_inactive] false, in no list of clients and in
    no search result that is returned, and the pipeline statistics are
    those of the store without the client's interactions.  The flag
    governs the lookup by id as it governs list, search and statistics. *)
Theorem get_client_only_active (st : Store) (row : ClientRow) :
  ids_unique st -> In row (clients st) -> row_fits row = true ->
  (active row = true -> get_client st (row_id row) = inr (Some (Client_of_row row)))
  /\ (active row = false ->
      get_client st (row_id row) = inr None
      /\ (forall found c, get_all_clients st false = inr found -> In c found ->
                          id c <> row_id row)
      /\ (forall query found c, search_clients st query false = inr found ->
                                In c found -> id c <> row_id row)
      /\ get_pipeline_stats st false
         = get_pipeline_stats (without_interactions_of (row_id row) st) false)
  /\ (forall found c,
        get_all_clients st false = inr found ->
        In c found
        <-> exists r, In r (clients st) /\ active r = true /\ c = Client_of_row r).
Proof.
  intros Hnd Hin Hfit. rewrite (get_client_fits st row Hnd Hin Hfit).
  split; [|split].
  - now intros ->.
  - intros Ha. rewrite Ha. split; [reflexivity|]. split; [|split].
    + intros found c Hfound Hc.
      apply (get_all_clients_active st found c Hfound) in Hc as (r & Hr & Har & ->).
      simpl. intros Hid. rewrite (row_of_id st r row Hnd Hr Hin Hid) in Har.
      congruence.
    + intros query found c Hfound Hc. unfold search_clients in Hfound.
      destruct (build_all _ _) as [e|cs] eqn:Hb; [discriminate|].
      inversion Hfound; subst. apply build_all_built in Hb. subst found.
      apply in_map_iff in Hc as (r & <- & Hr). unfold order_by_name in Hr.
      apply In_order_by in Hr. apply filter_In in Hr as [Hr Hp].
      apply andb_prop in Hp as [_ Har]. simpl in Har.
      simpl. intros Hid. rewrite (row_of_id st r row Hnd Hr Hin Hid) in Har.
      congruence.
    + unfold get_pipeline_stats.
      rewrite (join_clients_without (fun c => false || active c) st row Hnd Hin);
        [reflexivity|]. simpl. exact Ha.
  - intros found c Hfound. now apply get_all_clients_active.
Qed.

Lemma get_client_only_active_witness :
  get_client store_with_deleted 1 = inr None
  /\ get_client store_with_active 1 = inr (Some (Client_of_row active_row)).
Proof.
  split.
  - apply (proj1 (proj2 (get_client_only_active store_with_deleted deleted_row
             (List.NoDup_cons 1 (fun H : In 1 [] => H) (List.NoDup_nil nat))
             (or_introl eq_refl) eq_refl)) eq_refl).
  - apply (proj1 (get_client_only_active store_with_active active_row
             (List.NoDup_cons 1 (fun H : In 1 [] => H) (List.NoDup_nil nat))
             (or_introl eq_refl) eq_refl) eq_refl).
Defined.

End VisibilityProofs.

(** ** ai_followup.py: the generation of follow-ups *)
Module AiFollowupProofs.
Import Py Database AiFollowup DatabaseSpec MemorySpec AiFollowupSpec.

Section Generate.
Variable provider : string.
Variable respond : World -> string -> string -> string + string.
Variable loading : World -> option string.

Lemma call_llm_generating prompt w :
  generating provider ->
  _call_llm provider respond loading prompt w
  = (match respond w provider prompt with
     | inl what => inl (RuntimeError provider what)
     | inr text => inr (strip text)
     end, (w ++ [(provider, prompt)])%list).
Proof. intros [-> | ->]; reflexivity. Qed.

Lemma call_llm_silent prompt w :
  ~ generating provider ->
  exists e, _call_llm provider respond loading prompt w = (inl e, w).
Proof.
  intros Hno. unfold _call_llm.
  destruct (String.eqb_spec provider "ollama") as [->|_];
    [exfalso; apply Hno; now left|].
  destruct (String.eqb_spec provider "transformers") as [_|_];
    [unfold _call_transformers; eauto|].
  destruct (String.eqb_spec provider "llama_cpp") as [->|_];
    [exfalso; apply Hno; now right|].
  unfold raise. eauto.
Qed.

(** The context of a client that the lookup by id returns. *)
Lemma context_of_found st client_id client :
  get_client st client_id = inr (Some client) ->
  exists history, Memory.get_context_for_ai st client_id 3 = inr history.
Proof.
  intros Hc. unfold Memory.get_context_for_ai, Memory.get_client_history.
  rewrite Hc. eauto.
Qed.

(** X28. When nothing is generated: [generate] fails without a single call
    of the model, and leaves the record of calls as it was, when the lookup
    by id returns no client (no active client has the id, or the stored
    record fails a field check), and also whenever the provider is not
    ollama or llama_cpp; this includes the provider transformers, whose
    call raises a RuntimeError every time, the name [pipeline] not being
    imported. *)
Theorem generate_without_generation (st : Store) (client_id : nat)
    (crm_data : gmap string (option string)) (w : World) :
  (forall client, get_client st client_id <> inr (Some client))
  \/ ~ generating provider ->
  exists e,
    generate provider respond loading st client_id crm_data w = (inl e, w)
    /\ (get_client st client_id = inr None -> e = Client_not_found client_id)
    /\ (forall failure,
          get_client st client_id = inl failure -> e = Lookup_failure failure)
    /\ (provider = "transformers" ->
        forall client, get_client st client_id = inr (Some client) ->
        exists what, e = RuntimeError "transformers" what).
Proof.
  intros H. unfold generate.
  destruct (get_client st client_id) as [failure|[client|]] eqn:Hc.
  - exists (Lookup_failure failure). split; [reflexivity|].
    split; [discriminate|]. split; [now intros f [= ->]|]. discriminate.
  - destruct H as [H|Hno]; [now destruct (H client)|].
    destruct (context_of_found st client_id client Hc) as [history ->].
    unfold bind.
    destruct (call_llm_silent
                (FollowUpPrompts.get_email_prompt (name client) (company client)
                   history
                   (dict_get crm_data "summary" (Some EmptyString))
                   (dict_get crm_data "deal_stage" (Some "prospecting"))
                   (dict_get crm_data "interest_level" (Some "neutral"))
                   (dict_get crm_data "next_action" (Some "Follow up"))
                   (dict_get crm_data "objections" None)) w Hno) as [e He].
    exists e. split; [|split; [|split]].
    + now rewrite He.
    + discriminate.
    + discriminate.
    + intros -> c _. unfold _call_llm, _call_transformers in He. simpl in He.
      inversion He. eauto.
  - exists (Client_not_found client_id). split; [reflexivity|].
    split; [reflexivity|]. split; discriminate.
Qed.

(** X29. What is generated: for a client that the lookup by id returns and
    the provider ollama or llama_cpp, [generate] sends the email prompt
    first; when that call fails it stops with the RuntimeError, one call
    made; when it answers, the message prompt is sent, and after these two
    calls, never more, the two answers, stripped, are returned if the email
    has at least 20 characters and the message at least 10, and refused
    with a ValidationError otherwise. *)
Theorem generate_two_calls (st : Store) (client_id : nat) (client : Client)
    (history : string) (crm_data : gmap string (option string)) (w : World) :
  generating provider -> get_client st client_id = inr (Some client) ->
  Memory.get_context_for_ai st client_id 3 = inr history ->
  let email_prompt := email_prompt_for client history crm_data in
  let message_prompt := message_prompt_for client crm_data in
  let w1 := (w ++ [(provider, email_prompt)])%list in
  let w2 := (w1 ++ [(provider, message_prompt)])%list in
  (forall what, respond w provider email_prompt = inl what ->
     generate provider respond loading st client_id crm_data w
     = (inl (RuntimeError provider what), w1))
  /\ (forall email what,
        respond w provider email_prompt = inr email ->
        respond w1 provider message_prompt = inl what ->
        generate provider respond loading st client_id crm_data w
        = (inl (RuntimeError provider what), w2))
  /\ (forall email message,
        respond w provider email_prompt = inr email ->
        respond w1 provider message_prompt = inr message ->
        (20 <= String.length (strip email) -> 10 <= String.length (strip message) ->
         generate provider respond loading st client_id crm_data w
         = (inr (mkFollowUpContent (strip email) (strip message)), w2))
        /\ (String.length (strip email) < 20 \/ String.length (strip message) < 10 ->
            exists fields,
              generate provider respond loading st client_id crm_data w
              = (inl (ValidationError fields), w2))).
Proof.
  intros Hgen Hc Hh email_prompt message_prompt w1 w2.
  unfold generate. rewrite Hc, Hh. unfold bind.
  fold (email_prompt_for client history crm_data). fold email_prompt.
  fold (message_prompt_for client crm_data). fold message_prompt.
  rewrite (call_llm_generating email_prompt w Hgen). fold w1.
  split; [|split].
  - intros what ->. reflexivity.
  - intros email what -> Hm.
    rewrite (call_llm_generating message_prompt w1 Hgen). fold w2.
    now rewrite Hm.
  - intros email message -> Hm.
    rewrite (call_llm_generating message_prompt w1 Hgen). fold w2.
    rewrite Hm. unfold FollowUpContent_init, ret, raise. split.
    + intros He Hmsg.
      destruct (Nat.ltb_spec (String.length (strip email)) 20); [lia|].
      destruct (Nat.ltb_spec (String.length (strip message)) 10); [lia|].
      reflexivity.
    + intros Hshort.
      destruct (Nat.ltb_spec (String.length (strip email)) 20);
        destruct (Nat.ltb_spec (String.length (strip message)) 10);
        simpl; eauto; lia.
Qed.

End Generate.

Lemma generate_without_generation_witness :
  exists e,
    generate "transformers" (always "Dear Sarah, thank you for the call.") loads_fine
             store_with_active 1 deal [] = (inl e, []).
Proof.
  destruct (generate_without_generation "transformers"
              (always "Dear Sarah, thank you for the call.") loads_fine
              store_with_active 1 deal []) as (e & He & _).
  - right. intros [H|H]; discriminate H.
  - exists e. exact He.
Defined.

Lemma generate_two_calls_witness :
  generate "ollama" (always "  Dear Sarah, thank you for the call.  ") loads_fine
           store_with_active 1 deal []
  = (inr (mkFollowUpContent "Dear Sarah, thank you for the call."
                            "Dear Sarah, thank you for the call."),
     [("ollama",
       email_prompt_for (Client_of_row active_row)
         (Memory.to_context_string
            (Memory.mkClientHistory (Client_of_row active_row) [] 0 None))
         deal);
      ("ollama", message_prompt_for (Client_of_row active_row) deal)]).
Proof.
  destruct (generate_two_calls "ollama"
              (always "  Dear Sarah, thank you for the call.  ") loads_fine
              store_with_active 1 (Client_of_row active_row)
              (Memory.to_context_string
                 (Memory.mkClientHistory (Client_of_row active_row) [] 0 None))
              deal [])
    as (_ & _ & H).
  - now left.
  - reflexivity.
  - reflexivity.
  - destruct (H "  Dear Sarah, thank you for the call.  "
                "  Dear Sarah, thank you for the call.  " eq_refl eq_refl) as [Hok _].
    apply Hok; vm_compute; lia.
Defined.

(** A no-break space around the answer is stripped like a blank: nineteen
    characters and a no-break space are refused as too short. *)
Example generate_strips_no_break_space :
  exists fields w,
    generate "ollama"
             (always ("Dear Sarah, thanks." ++ String (ascii_of_nat 160) EmptyString))
             loads_fine store_with_active 1 deal []
    = (inl (ValidationError fields), w).
Proof. eexists _, _. vm_compute. reflexivity. Qed.

End AiFollowupProofs.

(** ** database.py: what a hard delete leaves behind *)
Module OrphanProofs.
Import Py Database Records Reports Memory DatabaseSpec MemorySpec RecordsSpec.
Import MemoryViewsSpec DatabaseProofs MemoryProofs OrderProofs ReportProofs.

Lemma build_all_In {A B : Type} (build : A -> ValidationError + B) (rows : list A)
    (results : list B) (y : B) :
  build_all build rows = inr results -> In y results ->
  exists x, In x rows /\ build x = inr y.
Proof.
  revert results. induction rows as [|x rows IH]; simpl; intros results H Hy.
  - inversion H; subst. destruct Hy.
  - destruct (build x) as [e|b] eqn:Hb; [discriminate|].
    destruct (build_all build rows) as [e|bs]; [discriminate|].
    inversion H; subst. destruct Hy as [<-|Hy].
    + exists x. split; [now left|exact Hb].
    + destruct (IH bs eq_refl Hy) as (x' & Hx' & Hb'). exists x'.
      split; [now right|exact Hb'].
Qed.

Lemma pair_of_interaction email now i c i' c' :
  pair_of email now (i, c) = inr (i', c') -> i' = i.
Proof.
  unfold pair_of. destruct (Client_init _ _ _ _ _); [discriminate|].
  unfold Interaction_init. destruct (_ <? _); [discriminate|].
  intros H. now inversion H.
Qed.

(** X30. A hard delete removes the client and nothing else: no connection
    switches the foreign keys on, so the cascade of the schema does not
    run.  The interactions of the deleted client stay in the table, where
    the list of the client's interactions and the statistics of the client
    still find them; the history of the client is gone with the client,
    and the recent interactions no longer show them. *)
Theorem hard_delete_leaves_interactions (st : Store) (row : ClientRow) :
  In row (clients st) ->
  let st1 := snd (delete_client (row_id row) false st) in
  get_client_interactions st1 (row_id row) = get_client_interactions st (row_id row)
  /\ get_client_stats st1 (row_id row) = get_client_stats st (row_id row)
  /\ get_client_history st1 (row_id row) = inl (not_found (row_id row))
  /\ (forall limit now results i c,
        get_recent_interactions st1 limit now = inr results ->
        In (i, c) results -> int_client_id i <> row_id row).
Proof.
  intros Hin st1.
  assert (Hgone : forall c, In c (clients st1) -> row_id c <> row_id row).
  { intros c Hc. subst st1. simpl in Hc. apply filter_In in Hc as [_ Hc].
    apply negb_true_iff in Hc. now apply Nat.eqb_neq in Hc. }
  split; [reflexivity|]. split; [reflexivity|]. split.
  - unfold get_client_history.
    rewrite (get_client_none st1 (row_id row)); [reflexivity|].
    intros c Hc Hid. exfalso. exact (Hgone c Hc Hid).
  - intros limit now results i c Hres Hic. unfold get_recent_interactions in Hres.
    destruct (build_all _ _) as [e|found] eqn:Hb; [discriminate|].
    inversion Hres; subst. clear Hres.
    destruct (build_all_In _ _ _ _ Hb Hic) as ([i' c'] & Hrow & Hpair).
    apply pair_of_interaction in Hpair. subst i'.
    assert (Hj : In (i, c') (join_clients active st1)).
    { unfold limit_to in Hrow.
      assert (Hs : In (i, c') (newest_interaction_first
                                 (fun r => int_date (fst r))
                                 (rev (join_clients active st1)))).
      { destruct (limit <? 0)%Z; [exact Hrow|].
        now apply In_first_rows in Hrow. }
      unfold newest_interaction_first in Hs. apply In_order_by in Hs.
      now apply in_rev. }
    apply In_join_clients in Hj as (_ & Hc' & Hid & _).
    rewrite <- Hid. now apply Hgone.
Qed.

Lemma hard_delete_leaves_interactions_witness :
  length (get_client_interactions (snd (delete_client 1 false store_with_history)) 1)
  = 4
  /\ get_client_history (snd (delete_client 1 false store_with_history)) 1
     = inl (not_found 1).
Proof.
  destruct (hard_delete_leaves_interactions store_with_history active_row)
    as (H1 & _ & H2 & _).
  - left. reflexivity.
  - split; [|exact H2].
    change (length (get_client_interactions
                      (snd (delete_client (row_id active_row) false
                                          store_with_history))
                      (row_id active_row)) = 4).
    rewrite H1. reflexivity.
Defined.

End OrphanProofs.
